(** * neofs-http-gw: upload composer, download streamer, bearer resolver

    A shallow embedding of the request/response translation code of the
    gateway ([uploader/upload.go], [neofs.go], [tokens/bearer-token.go],
    the [downloader] package) together with the properties that the
    specification states about it.

    Conventions.
    - Go strings and byte slices are [string]s (sequences of bytes).  The
      functions of Go's [strings] package that are sensitive to letter case
      are modelled on ASCII; bytes above 0x7F are left as they are.
    - A nil byte slice is [None], a non-nil one is [Some s].
    - Fixed-width integers are [Z] with the wrap-around written out.
    - Functions of Go's standard library and of the NeoFS SDK whose code is
      not part of the gateway (parsers, base64, the clock, the connection
      pool) are fields of the records [GoLib], [World] and [ZipWorld]; the
      constants of the gateway's [utils] package are the record [Utils].
    - A run-time panic (slice out of range, integer division by zero) is the
      outcome [Panic]. *)

From Stdlib Require Import ZArith List String Ascii Bool Lia DecimalString.
Import ListNotations.

Local Open Scope list_scope.
Local Open Scope string_scope.

(* ================================================================== *)
(** ** Outcomes *)

Inductive res (A : Type) : Type :=
| Ok (a : A)
| Panic (msg : string).
Arguments Ok {A} a.
Arguments Panic {A} msg.

Definition bind {A B} (r : res A) (k : A -> res B) : res B :=
  match r with
  | Ok a => k a
  | Panic m => Panic m
  end.

Notation "x <- r ;; k" := (bind r (fun x => k))
  (at level 61, r at next level, right associativity).

(* ================================================================== *)
(** ** Go's [strings] package, on ASCII *)

Module strings.

Definition is_lower (c : ascii) : bool := (("a" <=? c) && (c <=? "z"))%char.
Definition is_upper (c : ascii) : bool := (("A" <=? c) && (c <=? "Z"))%char.
Definition is_digit (c : ascii) : bool := (("0" <=? c) && (c <=? "9"))%char.

(** [unicode.ToUpper], [unicode.ToTitle] and [unicode.ToLower] on one byte. *)
Definition upper_rune (c : ascii) : ascii :=
  if is_lower c then ascii_of_nat (nat_of_ascii c - 32) else c.

Definition lower_rune (c : ascii) : ascii :=
  if is_upper c then ascii_of_nat (nat_of_ascii c + 32) else c.

Fixpoint Map (f : ascii -> ascii) (s : string) : string :=
  match s with
  | EmptyString => EmptyString
  | String c s' => String (f c) (Map f s')
  end.

Definition ToUpper (s : string) : string := Map upper_rune s.
Definition ToLower (s : string) : string := Map lower_rune s.

(** [strings.isSeparator]: ASCII alphanumerics and underscore are not
    separators, every other ASCII byte is. *)
Definition isSeparator (r : ascii) : bool :=
  if (r <=? "127")%char then
    negb (is_digit r || is_lower r || is_upper r || (r =? "_")%char)
  else false.

(** [strings.Title]: the closure remembers the previous rune, which starts
    as a space. *)
Fixpoint Title_from (prev : ascii) (s : string) : string :=
  match s with
  | EmptyString => EmptyString
  | String r s' =>
      String (if isSeparator prev then upper_rune r else r) (Title_from r s')
  end.

Definition Title (s : string) : string := Title_from " " s.

(** [strings.ReplaceAll s old new] where [old] and [new] are one byte long,
    as in every call of the gateway. *)
Definition ReplaceAll (s : string) (old new : ascii) : string :=
  Map (fun c => if (c =? old)%char then new else c) s.

(** [strings.Split s sep] for a separator of one byte. *)
Fixpoint Split (s : string) (sep : ascii) : list string :=
  match s with
  | EmptyString => [EmptyString]
  | String c s' =>
      if (c =? sep)%char then EmptyString :: Split s' sep
      else match Split s' sep with
           | [] => [String c EmptyString]
           | w :: ws => String c w :: ws
           end
  end.

Fixpoint Join (elems : list string) (sep : string) : string :=
  match elems with
  | [] => EmptyString
  | [s] => s
  | s :: rest => s ++ sep ++ Join rest sep
  end.

Fixpoint drop (n : nat) (s : string) : string :=
  match n, s with
  | O, _ => s
  | S _, EmptyString => EmptyString
  | S n', String _ s' => drop n' s'
  end.

Definition HasPrefix (s p : string) : bool := String.prefix p s.

Definition TrimPrefix (s p : string) : string :=
  if HasPrefix s p then drop (String.length p) s else s.

(** [strings.ContainsRune s c]. *)
Fixpoint ContainsRune (s : string) (c : ascii) : bool :=
  match s with
  | EmptyString => false
  | String d s' => (d =? c)%char || ContainsRune s' c
  end.

End strings.

(** [strconv.FormatUint n 10]. *)
Definition FormatUint (n : Z) : string :=
  NilEmpty.string_of_uint (N.to_uint (Z.to_N n)).

(* ================================================================== *)
(** ** Constants of the NeoFS API and SDK *)

(** [objectapiv2.SysAttributePrefix], and [utils.SystemAttributePrefix],
    which the comment of [systemBackwardTranslator] spells out. *)
Definition SysAttributePrefix : string := "__NEOFS__".
Definition SystemAttributePrefix : string := "__NEOFS__".
Definition SysAttributeExpEpoch : string := SysAttributePrefix ++ "EXPIRATION_EPOCH".
Definition AttributeFileName : string := "FileName".
Definition AttributeTimestamp : string := "Timestamp".
Definition AttributeContentType : string := "Content-Type".

(* ================================================================== *)
(** ** [uploader.Header], [uploader.HeadersMeta] *)

Record Header : Type := mkHeader {
  SystemPrefixLen : nat;
  Key : string;
  Value : string
}.

Record HeadersMeta : Type := mkMeta {
  enc_filename : bool;
  enc_timestamp : bool;
  enc_expiration : bool
}.

Definition MetFilename (x : HeadersMeta) : HeadersMeta :=
  mkMeta true (enc_timestamp x) (enc_expiration x).
Definition MetTimestamp (x : HeadersMeta) : HeadersMeta :=
  mkMeta (enc_filename x) true (enc_expiration x).
Definition MetExpiration (x : HeadersMeta) : HeadersMeta :=
  mkMeta (enc_filename x) (enc_timestamp x) true.

(** [calcSystemPrefixLen]: the [switch] compares the whole key. *)
Definition calcSystemPrefixLen (hdr : Header) : Header :=
  if (Key hdr =? "Neofs-") || (Key hdr =? "NEOFS-") || (Key hdr =? "neofs-")
  then mkHeader 6 (Key hdr) (Value hdr)
  else mkHeader 0 (Key hdr) (Value hdr).

(* ================================================================== *)
(** ** [objectCreator] of [neofs.go]: attributes *)

Definition Attribute : Type := (string * string)%type.

(** The key that [WriteHeader] stores: [hdr.Key[hdr.SystemPrefixLen:]]
    panics when the prefix length exceeds the length of the key. *)
Definition WriteHeader_key (hdr : Header) : res string :=
  if (0 <? SystemPrefixLen hdr)%nat then
    if (String.length (Key hdr) <? SystemPrefixLen hdr)%nat
    then Panic "slice bounds out of range"
    else
      let k := SysAttributePrefix ++ strings.drop (SystemPrefixLen hdr) (Key hdr) in
      let k := strings.ReplaceAll k "-" "_" in
      Ok (strings.ToUpper k)
  else Ok (Key hdr).

Definition WriteHeader_meta (meta : HeadersMeta) (k : string) : HeadersMeta :=
  if k =? SysAttributeExpEpoch then MetExpiration meta
  else if k =? AttributeFileName then MetFilename meta
  else if k =? AttributeTimestamp then MetTimestamp meta
  else meta.

(** [objectCreator.addAttribute] and [objectCreator.WriteHeader] on the
    attribute list of the creator. *)
Definition addAttribute (attrs : list Attribute) (key val : string) : list Attribute :=
  (attrs ++ [(key, val)])%list.

Definition WriteHeader (attrs : list Attribute) (meta : HeadersMeta) (hdr : Header)
  : res (list Attribute * HeadersMeta) :=
  k <- WriteHeader_key hdr ;;
  Ok (addAttribute attrs k (Value hdr), WriteHeader_meta meta k).

(* ================================================================== *)
(** ** [systemBackwardTranslator] of the downloader *)

(** The loop over [strs] of [systemBackwardTranslator]: each part in title
    case, a hyphen after every part but the last. *)
Fixpoint writeParts (strs : list string) : string :=
  match strs with
  | [] => EmptyString
  | [s] => strings.Title (strings.ToLower s)
  | s :: rest => strings.Title (strings.ToLower s) ++ "-" ++ writeParts rest
  end.

Definition systemBackwardTranslator (key : string) : string :=
  let key := strings.TrimPrefix key SystemAttributePrefix in
  "Neofs-" ++ writeParts (strings.Split key "_").


(* ================================================================== *)
(** ** The environment of a request *)

(** Functions of Go's standard library and of the NeoFS SDK.  An error
    return is [None]. *)
Record GoLib : Type := mkGoLib {
  Time : Type;
  (** [time.Parse(time.RFC3339, s)] *)
  time_Parse_RFC3339 : string -> option Time;
  (** [time.Unix(sec, 0)] *)
  time_Unix : Z -> Time;
  (** [t.Sub(u)], a [time.Duration] in nanoseconds *)
  time_Sub : Time -> Time -> Z;
  (** [t.Unix()] *)
  Time_Unix : Time -> Z;
  (** [strconv.ParseInt(s, 10, 64)] *)
  strconv_ParseInt : string -> option Z;
  (** [time.ParseDuration(s)] *)
  time_ParseDuration : string -> option Z;
  (** [base64.StdEncoding.Decode]: the bytes written and whether the whole
      input was well-formed *)
  base64_Decode : string -> string * bool;
  (** [cid.ID.Parse] *)
  cid_Parse : string -> bool;
  (** [token.BearerToken.UnmarshalJSON]: the issuer of the decoded token *)
  bearer_UnmarshalJSON : string -> option string;
  (** [token.BearerToken.Unmarshal] (binary form) *)
  bearer_Unmarshal : string -> option string;
  (** [http.DetectContentType] *)
  http_DetectContentType : string -> string;
  (** [url.QueryUnescape], the error dropped *)
  url_QueryUnescape : string -> string;
  (** [path.Base] *)
  path_Base : string -> string;
  (** [t.UTC().Format(http.TimeFormat)] *)
  http_FormatTime : Time -> string
}.

(** [utils] constants of the gateway that header processing compares
    with. *)
Record Utils : Type := mkUtils {
  UserAttributeHeaderPrefix : string;
  ExpirationRFC3339Attr : string;
  ExpirationTimestampAttr : string;
  ExpirationDurationAttr : string
}.

(** A snapshot of [netmap.NetworkInfo]: the current epoch ([uint64]),
    [MsPerBlock] ([int64]) and the parameters of the network
    configuration in iteration order. *)
Record NetworkInfo : Type := mkNetworkInfo {
  CurrentEpoch : Z;
  MsPerBlock : Z;
  Parameters : list (string * string)
}.

(** One body part of a multipart request. *)
Record Part : Type := mkPart {
  FormName : string;
  FileName : string;
  part_body : string
}.

(** What the connection pool was asked to do. *)
Inductive NetEvent : Type :=
| EvNetworkInfo
| EvPutObject (owner : string) (container : option string)
              (attributes : list Attribute) (payload : option Part)
              (bearer : option string).

(** The storage network and the clock as one request sees them. *)
Record World (L : GoLib) : Type := mkWorld {
  (** the value of the [n]-th call of [time.Now] *)
  time_Now : nat -> Time L;
  (** [pool.Connection] succeeds *)
  pool_Connection : bool;
  (** [conn.NetworkInfo] *)
  conn_NetworkInfo : option NetworkInfo;
  (** [pool.PutObject]: the identifier of the stored object *)
  pool_PutObject : NetEvent -> option string
}.
Arguments time_Now {L} w n.
Arguments pool_Connection {L} w.
Arguments conn_NetworkInfo {L} w.
Arguments pool_PutObject {L} w e.

Definition uint64 (z : Z) : Z := z mod 2 ^ 64.

(** [time.Duration.Milliseconds]: integer division truncated toward zero. *)
Definition Milliseconds (d : Z) : Z := Z.quot d 1000000.

(** [binary.LittleEndian.Uint64] of the first [n] bytes of [s], a missing
    byte counting as zero ([copy] into a zeroed buffer). *)
Fixpoint le_bytes (n : nat) (s : string) : Z :=
  match n with
  | O => 0
  | S n' =>
      match s with
      | EmptyString => 0
      | String c s' => Z.of_nat (nat_of_ascii c) + 256 * le_bytes n' s'
      end
  end.

(** The callback handed to [IterateParameters] in [ExpireAfter]; iteration
    stops at the first parameter for which it returns true. *)
Fixpoint iterateEpochDuration (ps : list (string * string)) (durEpoch : bool * Z)
  : bool * Z :=
  match ps with
  | [] => durEpoch
  | (k, v) :: rest =>
      if k =? "EpochDuration" then (true, le_bytes 8 v)
      else iterateEpochDuration rest (false, snd durEpoch)
  end.

(** The epoch that [ExpireAfter] formats:
    [CurrentEpoch + uint64(expDur.Milliseconds())*durEpoch.val/uint64(MsPerBlock)]
    in [uint64] arithmetic. *)
Definition expirationEpoch (ni : NetworkInfo) (expDur : Z) : res Z :=
  let durEpoch := iterateEpochDuration (Parameters ni) (false, 0%Z) in
  let divisor := uint64 (MsPerBlock ni) in
  if (divisor =? 0)%Z then Panic "integer divide by zero"
  else
    let product := uint64 (uint64 (Milliseconds expDur) * snd durEpoch) in
    Ok (uint64 (CurrentEpoch ni + product / divisor)).

(* ================================================================== *)
(** ** [objectCreator] of [neofs.go] *)

Record objectCreator : Type := mkCreator {
  defaultOwner : string;
  bearerTokenSet : bool;
  bearerToken : option string;
  obj_container : option string;
  attrs : list Attribute;
  payload : option Part;
  net_log : list NetEvent
}.

Definition creator_set_attrs (x : objectCreator) (a : list Attribute) : objectCreator :=
  mkCreator (defaultOwner x) (bearerTokenSet x) (bearerToken x) (obj_container x)
            a (payload x) (net_log x).

Definition creator_log (x : objectCreator) (e : NetEvent) : objectCreator :=
  mkCreator (defaultOwner x) (bearerTokenSet x) (bearerToken x) (obj_container x)
            (attrs x) (payload x) (net_log x ++ [e])%list.

Definition InitObjectCreation (owner : string) : objectCreator :=
  mkCreator owner false None None [] None [].

(** Each method that takes [dstFail *bool] only ever writes [true] to it:
    the model returns the flag to be or-ed into the caller's. *)
Definition IntoContainer (L : GoLib) (x : objectCreator) (sCnr : string)
  : bool * objectCreator :=
  if cid_Parse L sCnr
  then (false, mkCreator (defaultOwner x) (bearerTokenSet x) (bearerToken x)
                         (Some sCnr) (attrs x) (payload x) (net_log x))
  else (true, x).

Definition UseBearerToken (L : GoLib) (x : objectCreator) (jBearer : string)
  : bool * objectCreator :=
  match bearer_UnmarshalJSON L jBearer with
  | None => (true, x)
  | Some issuer =>
      (false, mkCreator (defaultOwner x) true (Some issuer) (obj_container x)
                        (attrs x) (payload x) (net_log x))
  end.

Definition ReadPayloadFrom (x : objectCreator) (r : option Part) : objectCreator :=
  mkCreator (defaultOwner x) (bearerTokenSet x) (bearerToken x) (obj_container x)
            (attrs x) r (net_log x).

Definition FromFile (x : objectCreator) (n : string) : objectCreator :=
  creator_set_attrs x (addAttribute (attrs x) AttributeFileName n).

Definition FormatInt (z : Z) : string :=
  NilEmpty.string_of_int (Z.to_int z).

Definition CreatedAt (L : GoLib) (x : objectCreator) (t : Time L) : objectCreator :=
  creator_set_attrs x
    (addAttribute (attrs x) AttributeTimestamp (FormatInt (Time_Unix L t))).

(** [objectCreator.ExpireAfter]. *)
Definition ExpireAfter {L : GoLib} (W : World L) (x : objectCreator) (expDur : Z)
  : res (bool * objectCreator) :=
  if negb (pool_Connection W) then Ok (true, x)
  else
    let x := creator_log x EvNetworkInfo in
    match conn_NetworkInfo W with
    | None => Ok (true, x)
    | Some netInfo =>
        e <- expirationEpoch netInfo expDur ;;
        Ok (false,
            creator_set_attrs x
              (addAttribute (attrs x) SysAttributeExpEpoch (FormatUint e)))
    end.

(** [objectCreator.Close]: the owner is the issuer of the bearer token when
    one was set, the default owner otherwise; the result is the failure flag
    and the identifier written to [dstID]. *)
Definition Close {L : GoLib} (W : World L) (x : objectCreator)
  : bool * option string * objectCreator :=
  let owner :=
    if bearerTokenSet x
    then match bearerToken x with Some i => i | None => EmptyString end
    else defaultOwner x in
  let ev := EvPutObject owner (obj_container x) (attrs x) (payload x)
                        (if bearerTokenSet x then bearerToken x else None) in
  let x := creator_log x ev in
  match pool_PutObject W ev with
  | None => (true, None, x)
  | Some id => (false, Some id, x)
  end.


(* ================================================================== *)
(** ** The upload request and its context ([uploader/upload.go]) *)

Definition StatusOK : Z := 200.
Definition StatusBadRequest : Z := 400.
Definition StatusNotFound : Z := 404.
Definition StatusInternalServerError : Z := 500.

(** What a handler did to the [fasthttp] response.  [RError msg code] is a
    call of [response.Error(ctx, msg, code)]. *)
Inductive RespEvent : Type :=
| RError (msg : string) (code : Z)
| RHeaderSet (key value : string)
| RSetStatusCode (code : Z)
| RSetContentType (ct : string)
| RWriteJSON (object_id container_id : string)
| RSetBodyStream (size : Z).

(** [fasthttp.RequestHeader]: the pairs that [VisitAll] enumerates, in its
    order, and the cookies. *)
Record RequestHeader : Type := mkRequestHeader {
  h_all : list (string * string);
  h_cookies : list (string * string)
}.

Fixpoint lookup (kvs : list (string * string)) (key : string) : option string :=
  match kvs with
  | [] => None
  | (k, v) :: rest => if k =? key then Some v else lookup rest key
  end.

(** [h.Peek(key)] and [h.Cookie(key)]: nil when there is none. *)
Definition Peek (h : RequestHeader) (key : string) : option string := lookup (h_all h) key.
Definition Cookie (h : RequestHeader) (key : string) : option string := lookup (h_cookies h) key.

(** The body of a multipart request as [multipart.Reader.NextPart] returns
    it: the parts, then an error ([io.EOF] after the closing boundary). *)
Record Body : Type := mkBody {
  parts : list Part;
  parts_end : string
}.

Record Request : Type := mkRequest {
  uv_cid : string;
  req_header : RequestHeader;
  req_body : Body
}.

Record uploadContext : Type := mkCtx {
  fail : bool;
  err : option string;
  resp_ObjectID : string;
  resp_ContainerID : string;
  srcPayload : option Part;
  creator : objectCreator;
  defaultTimestamp : bool;
  (** the response of the embedded [RequestCtx] *)
  out : list RespEvent;
  (** calls of [time.Now] made so far *)
  ticks : nat
}.

Definition set_fail (c : uploadContext) (f : bool) (e : option string) : uploadContext :=
  mkCtx f e (resp_ObjectID c) (resp_ContainerID c) (srcPayload c) (creator c)
        (defaultTimestamp c) (out c) (ticks c).

Definition set_srcPayload (c : uploadContext) (p : option Part) : uploadContext :=
  mkCtx (fail c) (err c) (resp_ObjectID c) (resp_ContainerID c) p (creator c)
        (defaultTimestamp c) (out c) (ticks c).

Definition set_creator (c : uploadContext) (x : objectCreator) : uploadContext :=
  mkCtx (fail c) (err c) (resp_ObjectID c) (resp_ContainerID c) (srcPayload c) x
        (defaultTimestamp c) (out c) (ticks c).

Definition set_ObjectID (c : uploadContext) (id : string) : uploadContext :=
  mkCtx (fail c) (err c) id (resp_ContainerID c) (srcPayload c) (creator c)
        (defaultTimestamp c) (out c) (ticks c).

Definition emit (c : uploadContext) (e : RespEvent) : uploadContext :=
  mkCtx (fail c) (err c) (resp_ObjectID c) (resp_ContainerID c) (srcPayload c)
        (creator c) (defaultTimestamp c) (out c ++ [e])%list (ticks c).

Definition tick (c : uploadContext) : uploadContext :=
  mkCtx (fail c) (err c) (resp_ObjectID c) (resp_ContainerID c) (srcPayload c)
        (creator c) (defaultTimestamp c) (out c) (S (ticks c)).

(** [failRequest] (the log line aside) and [failExpiration]. *)
Definition failRequest (ctx : uploadContext) (msg : string) : uploadContext :=
  emit ctx (RError msg StatusBadRequest).

Definition failExpiration (ctx : uploadContext) : uploadContext :=
  failRequest ctx "problem with expiration header, try expiration in epoch".

(** [initPayloadSource]: the loop over [reader.NextPart()].  Its only exit
    is the [return] taken when [NextPart] reports an error. *)
Fixpoint initPayloadSource_loop (ps : list Part) (fin : string) (ctx : uploadContext)
  : uploadContext :=
  match ps with
  | [] => set_fail ctx true (Some fin)
  | part :: rest =>
      let ctx := set_fail ctx false None in
      if (FormName part =? "") || (FileName part =? "")
      then initPayloadSource_loop rest fin ctx
      else initPayloadSource_loop rest fin (set_srcPayload ctx (Some part))
  end.

Definition initPayloadSource (body : Body) (ctx : uploadContext) : uploadContext :=
  initPayloadSource_loop (parts body) (parts_end body) ctx.


(* ================================================================== *)
(** ** [processHeaders] *)

(** [expirationType] and its constants (the [iota] block starts at 1). *)
Definition expirationRFC3339 : nat := 1.
Definition expirationTimestamp : nat := 2.
Definition expirationDuration : nat := 3.

(** The variables that the closure passed to [VisitAll] captures: the
    context, [hdr], [meta] and [exp]. *)
Record headerState : Type := mkHS {
  hs_ctx : uploadContext;
  hs_hdr : Header;
  hs_meta : HeadersMeta;
  exp_typ : nat;
  exp_typCur : nat;
  exp_dur : Z
}.

Definition hs_init (ctx : uploadContext) : headerState :=
  mkHS ctx (mkHeader 0 "" "") (mkMeta false false false) 0 0 0%Z.

Section ProcessHeaders.

Context {L : GoLib} (W : World L) (U : Utils).

(** The [switch exp.typCur = 0; hdr.Key] that detects expiration headers. *)
Definition detectExpiration (key : string) : nat :=
  if key =? ExpirationRFC3339Attr U then expirationRFC3339
  else if key =? ExpirationTimestampAttr U then expirationTimestamp
  else if key =? ExpirationDurationAttr U then expirationDuration
  else 0.

(** The inner [switch exp.typ = exp.typCur; exp.typ]: parse [hdr.Value]
    according to the form.  Yields the context and [exp.dur]. *)
Definition parseExpiration (typ : nat) (value : string) (ctx : uploadContext) (dur : Z)
  : uploadContext * Z :=
  match typ with
  | 1 =>
      match time_Parse_RFC3339 L value with
      | None => (set_fail ctx true (Some "time.Parse"), dur)
      | Some timeExpiration =>
          let now := time_Now W (ticks ctx) in
          (tick (set_fail ctx false None), time_Sub L timeExpiration now)
      end
  | 2 =>
      match strconv_ParseInt L value with
      | None => (set_fail ctx true (Some "strconv.ParseInt"), dur)
      | Some timestamp =>
          let now := time_Now W (ticks ctx) in
          (tick (set_fail ctx false None), time_Sub L (time_Unix L timestamp) now)
      end
  | 3 =>
      match time_ParseDuration L value with
      | None => (set_fail ctx true (Some "time.ParseDuration"), 0%Z)
      | Some d => (set_fail ctx false None, d)
      end
  | _ => (ctx, dur)
  end.

(** The body of the closure, for one header [(k, v)]. *)
Definition visitHeader (st : headerState) (kv : string * string) : res headerState :=
  let (k, v) := kv in
  let ctx := hs_ctx st in
  if fail ctx then Ok st
  else if (String.length v =? 0)%nat then Ok st
  else
    (* cut user attribute prefix *)
    let key := strings.TrimPrefix k (UserAttributeHeaderPrefix U) in
    let hdr := mkHeader (SystemPrefixLen (hs_hdr st)) key (Value (hs_hdr st)) in
    if (String.length key =? String.length k)%nat
    then Ok (mkHS ctx hdr (hs_meta st) (exp_typ st) (exp_typCur st) (exp_dur st))
    else
      let typCur := detectExpiration key in
      if (0 <? typCur)%nat then
        if negb (enc_expiration (hs_meta st)) && (exp_typ st <=? typCur)%nat then
          let typ := typCur in
          let (ctx, dur) := parseExpiration typ (Value hdr) ctx (exp_dur st) in
          (* check if expiration time is from the future *)
          let ctx :=
            if negb (fail ctx) && (dur <=? 0)%Z
            then set_fail ctx true (Some "expiration time not from the future")
            else ctx in
          (* catch failure *)
          let ctx := if fail ctx then failExpiration ctx else ctx in
          Ok (mkHS ctx hdr (hs_meta st) typ typCur dur)
        else Ok (mkHS ctx hdr (hs_meta st) (exp_typ st) typCur (exp_dur st))
      else
        let hdr := calcSystemPrefixLen hdr in
        let hdr := mkHeader (SystemPrefixLen hdr) (Key hdr) v in
        r <- WriteHeader (attrs (creator ctx)) (hs_meta st) hdr ;;
        let (attrs', meta') := r in
        Ok (mkHS (set_creator ctx (creator_set_attrs (creator ctx) attrs'))
                 hdr meta' (exp_typ st) typCur (exp_dur st)).

(** [ctx.Request.Header.VisitAll]. *)
Fixpoint VisitAll (hs : list (string * string)) (st : headerState) : res headerState :=
  match hs with
  | [] => Ok st
  | kv :: rest => st' <- visitHeader st kv ;; VisitAll rest st'
  end.

(** The statements of [processHeaders] after the iteration. *)
Definition writeRemaining (st : headerState) : res uploadContext :=
  let ctx := hs_ctx st in
  let meta := hs_meta st in
  if fail ctx then Ok ctx
  else
    r <- (if negb (enc_expiration meta) then
            r <- ExpireAfter W (creator ctx) (exp_dur st) ;;
            let (f, x) := r in
            Ok (set_fail (set_creator ctx x) (fail ctx || f) (err ctx))
          else Ok ctx) ;;
    let ctx := r in
    if fail ctx then Ok (failExpiration ctx)
    else
      let ctx :=
        if negb (enc_timestamp meta) && defaultTimestamp ctx
        then tick (set_creator ctx
                     (CreatedAt L (creator ctx) (time_Now W (ticks ctx))))
        else ctx in
      if negb (enc_filename meta) then
        match srcPayload ctx with
        | None => Panic "nil pointer dereference"
        | Some p => Ok (set_creator ctx (FromFile (creator ctx) (FileName p)))
        end
      else Ok ctx.

Definition processHeaders (hs : list (string * string)) (ctx : uploadContext)
  : res uploadContext :=
  st <- VisitAll hs (hs_init ctx) ;;
  writeRemaining st.

End ProcessHeaders.


(* ================================================================== *)
(** ** Bearer tokens ([tokens/bearer-token.go]) *)

Definition bearerTokenHdr : string := "Bearer".
Definition HeaderAuthorization : string := "Authorization".

(** [base64.StdEncoding.DecodedLen]. *)
Definition DecodedLen (n : nat) : nat := n / 4 * 3.

Fixpoint zeros (n : nat) : string :=
  match n with
  | O => EmptyString
  | S n' => String zero (zeros n')
  end.

(** [ReadBearer]: the returned code, and the slice left in [*dst] (a buffer
    of [DecodedLen] bytes whose head holds what [Decode] wrote). *)
Definition ReadBearer (L : GoLib) (hdr : RequestHeader) : Z * option string :=
  let prefix := bearerTokenHdr ++ " " in
  let b64Bearer :=
    match Peek hdr HeaderAuthorization with
    | Some hdrAuth =>
        if strings.HasPrefix hdrAuth prefix
        then Some (strings.TrimPrefix hdrAuth prefix)
        else Cookie hdr bearerTokenHdr
    | None => Cookie hdr bearerTokenHdr
    end in
  match b64Bearer with
  | None => (0%Z, None)
  | Some b64 =>
      let n := DecodedLen (String.length b64) in
      let (written, ok) := base64_Decode L b64 in
      let dst := written ++ zeros (n - String.length written) in
      if ok then (1%Z, Some dst) else ((-1)%Z, Some dst)
  end.

(** [BearerTokenFromHeader] and [BearerTokenFromCookie]. *)
Definition BearerTokenFromHeader (h : RequestHeader) : option string :=
  match Peek h HeaderAuthorization with
  | None => None
  | Some auth =>
      if negb (strings.HasPrefix auth bearerTokenHdr) then None
      else
        let auth := strings.TrimPrefix auth (bearerTokenHdr ++ " ") in
        if (String.length auth =? 0)%nat then None else Some auth
  end.

Definition BearerTokenFromCookie (h : RequestHeader) : option string :=
  match Cookie h bearerTokenHdr with
  | None => None
  | Some auth => if (String.length auth =? 0)%nat then None else Some auth
  end.

(** The loop of [fetchBearerToken] over the handlers; the result is the
    token (its issuer) and the error. *)
Fixpoint fetchBearerToken_loop (L : GoLib) (handlers : list (RequestHeader -> option string))
  (h : RequestHeader) (lastErr : option string) : option string * option string :=
  match handlers with
  | [] => (None, lastErr)
  | parse :: rest =>
      match parse h with
      | None => fetchBearerToken_loop L rest h lastErr
      | Some buf =>
          let (data, ok) := base64_Decode L buf in
          if negb ok
          then fetchBearerToken_loop L rest h (Some "can't base64-decode bearer token")
          else
            match bearer_Unmarshal L data with
            | None => fetchBearerToken_loop L rest h (Some "can't unmarshal bearer token")
            | Some tkn => (Some tkn, None)
            end
      end
  end.

(** [fetchBearerToken]; a nil context is [None]. *)
Definition fetchBearerToken (L : GoLib) (ctx : option RequestHeader)
  : option string * option string :=
  match ctx with
  | None => (None, None)
  | Some h =>
      fetchBearerToken_loop L [BearerTokenFromHeader; BearerTokenFromCookie] h None
  end.

(** [StoreBearerToken]: the error returned, and the user value stored under
    [bearerTokenKey] when there is no error. *)
Definition StoreBearerToken (L : GoLib) (h : RequestHeader)
  : option string * option (option string) :=
  match fetchBearerToken L (Some h) with
  | (_, Some e) => (Some e, None)
  | (tkn, None) => (None, Some tkn)
  end.

(* ================================================================== *)
(** ** [Uploader.Upload] *)

Section Upload.

Context {L : GoLib} (W : World L) (U : Utils).

(** Configuration of the [Uploader]: the default owner of the NeoFS
    component and the default-timestamp flag. *)
Variable x_defaultOwner : string.
Variable x_defaultTimestamp : bool.

(** [Upload] from [defer ctx.srcPayload.Close()] to its end: provide the
    payload, write the headers, store the object, form the response. *)
Definition storeObject (req : Request) (ctx : uploadContext) : res uploadContext :=
  match srcPayload ctx with
  | None => Panic "nil pointer dereference"
  | Some _ =>
      (* provide payload *)
      let ctx := set_creator ctx (ReadPayloadFrom (creator ctx) (srcPayload ctx)) in
      (* write headers *)
      ctx <- processHeaders W U (h_all (req_header req)) ctx ;;
      (* finish creation and save the object in NeoFS *)
      let '(f, id, x) := Close W (creator ctx) in
      let ctx := set_fail (set_creator ctx x) (fail ctx || f) (err ctx) in
      let ctx := match id with Some i => set_ObjectID ctx i | None => ctx end in
      if fail ctx then Ok (failRequest ctx "store file in NeoFS failed")
      else
        (* form the response *)
        let ctx := emit ctx (RWriteJSON (resp_ObjectID ctx) (resp_ContainerID ctx)) in
        let ctx := set_fail ctx false None in
        let ctx := emit ctx (RSetStatusCode StatusOK) in
        Ok (emit ctx (RSetContentType "application/json; charset=UTF-8"))
  end.

Definition Upload (req : Request) : res uploadContext :=
  (* init upload context *)
  let ctx := mkCtx false None "" (uv_cid req) None
                   (InitObjectCreation x_defaultOwner) x_defaultTimestamp [] 0 in
  (* bind container *)
  let (f, x) := IntoContainer L (creator ctx) (resp_ContainerID ctx) in
  let ctx := set_fail (set_creator ctx x) (fail ctx || f) (err ctx) in
  if fail ctx then Ok (failRequest ctx "incorrect container ID")
  else
    (* read bearer token *)
    let (code, encodedBearer) := ReadBearer L (req_header req) in
    if (code =? -1)%Z then Ok (failRequest ctx "incorrect bearer token header")
    else
      let ctx :=
        if (code =? 1)%Z then
          let (f, x) :=
            UseBearerToken L (creator ctx)
              (match encodedBearer with Some b => b | None => EmptyString end) in
          set_fail (set_creator ctx x) (fail ctx || f) (err ctx)
        else ctx in
      if fail ctx then Ok (failRequest ctx "incorrect bearer token JSON")
      else
        (* compose multi-part file *)
        let ctx := initPayloadSource (req_body req) ctx in
        if fail ctx then Ok (failRequest ctx "receive multipart/form")
        else storeObject req ctx.

End Upload.


(* ================================================================== *)
(** ** Readers: [io.Reader], [errReader], [io.MultiReader], [detector] *)

(** The error result of a [Read]: nil, [io.EOF], or another error. *)
Inductive ioerr : Type :=
| NoErr
| EOF
| Err (e : string).

Definition is_EOF (e : ioerr) : bool :=
  match e with EOF => true | _ => false end.

Definition is_NoErr (e : ioerr) : bool :=
  match e with NoErr => true | _ => false end.

(** [io.Reader]: [io_Read r n] is [r.Read(p)] for a buffer of [n] bytes,
    the bytes placed in [p], the error and the reader afterwards. *)
Class io_Reader (R : Type) : Type :=
  io_Read : R -> nat -> string * ioerr * R.

Fixpoint take (n : nat) (s : string) : string :=
  match n, s with
  | O, _ => EmptyString
  | S _, EmptyString => EmptyString
  | S n', String c s' => String c (take n' s')
  end.

(** A payload stream handed over by the storage network: the bytes not yet
    delivered; the sizes at which the next calls of [Read] stop short (a
    [Read] may return fewer bytes than asked for, even none); whether the
    call that delivers the last byte already reports the end; and the error
    that ends the stream, if it does not end well. *)
Record Stream : Type := mkStream {
  rest : string;
  short : list nat;
  eager : bool;
  broken : option string
}.

(** What [Read] reports at the end of the stream. *)
Definition final (r : Stream) : ioerr :=
  match broken r with
  | None => EOF
  | Some e => Err e
  end.

Definition Stream_Read (r : Stream) (n : nat) : string * ioerr * Stream :=
  match rest r with
  | EmptyString => (EmptyString, final r, r)
  | _ =>
      let want := match short r with [] => n | k :: _ => Nat.min k n end in
      let p := take want (rest r) in
      let rest' := strings.drop want (rest r) in
      let e := match rest' with
               | EmptyString => if eager r then final r else NoErr
               | _ => NoErr
               end in
      (p, e, mkStream rest' (tl (short r)) (eager r) (broken r))
  end.

#[export] Instance Stream_Reader : io_Reader Stream := Stream_Read.

(** [errReader] and [newReader]. *)
Record errReader : Type := mkErrReader {
  er_data : string;
  er_err : ioerr;
  er_offset : nat
}.

Definition newReader (data : string) (e : ioerr) : errReader :=
  mkErrReader data e 0.

Definition errReader_Read (r : errReader) (n : nat) : string * ioerr * errReader :=
  if (String.length (er_data r) <=? er_offset r)%nat then (EmptyString, EOF, r)
  else
    let p := take n (strings.drop (er_offset r) (er_data r)) in
    let offset := (er_offset r + String.length p)%nat in
    let r' := mkErrReader (er_data r) (er_err r) offset in
    if (String.length (er_data r) <=? offset)%nat then (p, er_err r, r')
    else (p, NoErr, r').

#[export] Instance errReader_Reader : io_Reader errReader := errReader_Read.

(** [io.MultiReader] over the two kinds of reader that the gateway chains. *)
Inductive anyReader : Type :=
| OfErrReader (r : errReader)
| OfStream (r : Stream).

Definition anyReader_Read (r : anyReader) (n : nat) : string * ioerr * anyReader :=
  match r with
  | OfErrReader r => let '(p, e, r') := io_Read r n in (p, e, OfErrReader r')
  | OfStream r => let '(p, e, r') := io_Read r n in (p, e, OfStream r')
  end.

#[export] Instance anyReader_Reader : io_Reader anyReader := anyReader_Read.

Definition multiReader : Type := list anyReader.

(** [multiReader.Read]: a reader that reports [EOF] is dropped; a [Read]
    that brought bytes, or an error other than [EOF], returns, and its
    [EOF] is withheld while readers remain. *)
Fixpoint multiReader_Read (mr : multiReader) (n : nat) : string * ioerr * multiReader :=
  match mr with
  | [] => (EmptyString, EOF, [])
  | r :: readers =>
      let '(p, e, r') := io_Read r n in
      let mr' := if is_EOF e then readers else r' :: readers in
      if (0 <? String.length p)%nat || negb (is_EOF e) then
        let e := if is_EOF e && (0 <? List.length mr')%nat then NoErr else e in
        (p, e, mr')
      else multiReader_Read readers n
  end.

#[export] Instance multiReader_Reader : io_Reader multiReader := multiReader_Read.

(** [io.ReadAll]-like consumption with a buffer of [n] bytes: the bytes
    delivered until a [Read] reports an error, and that error ([EOF] for a
    stream read to its end).  [fuel] bounds the number of calls of [Read];
    [None] when it does not suffice. *)
Fixpoint ReadAll {R : Type} `{io_Reader R} (fuel n : nat) (r : R)
  : option (string * ioerr) :=
  match fuel with
  | O => None
  | S fuel' =>
      let '(p, e, r') := io_Read r n in
      match e with
      | NoErr =>
          match ReadAll fuel' n r' with
          | Some (q, e') => Some (p ++ q, e')
          | None => None
          end
      | _ => Some (p, e)
      end
  end.

(** [contentTypeDetectSize]. *)
Definition contentTypeDetectSize : nat := 512.

(** [detector]; [done] is closed once [det_done] is true. *)
Record detector : Type := mkDetector {
  det_Reader : option Stream;
  det_err : ioerr;
  det_contentType : string;
  det_done : bool;
  det_data : string
}.

Definition newDetector : detector :=
  mkDetector None NoErr "" false (zeros contentTypeDetectSize).

Definition SetReader (d : detector) (reader : Stream) : detector :=
  mkDetector (Some reader) (det_err d) (det_contentType d) (det_done d) (det_data d).

(** [detector.Detect]: one [Read] into [d.data]. *)
Definition Detect (L : GoLib) (d : detector) : res detector :=
  match det_Reader d with
  | None => Panic "nil pointer dereference"
  | Some r =>
      let '(p, e, r') := io_Read r (String.length (det_data d)) in
      (* the bytes read overwrite the head of the buffer *)
      let buf := p ++ strings.drop (String.length p) (det_data d) in
      match e with
      | Err _ =>
          Ok (mkDetector (Some r') e (det_contentType d) (det_done d) buf)
      | _ =>
          let data := take (String.length p) buf in
          Ok (mkDetector (Some r') (det_err d) (http_DetectContentType L data) true data)
      end
  end.

(** [detector.MultiReader]; a reader that was never set panics on use. *)
Definition MultiReader (d : detector) : res multiReader :=
  match det_Reader d with
  | None => Panic "nil pointer dereference"
  | Some r => Ok [OfErrReader (newReader (det_data d) (det_err d)); OfStream r]
  end.


(* ================================================================== *)
(** ** The zip aggregator: [getFilename], [Downloader.streamFiles] *)

(** An object as [GetObject] returns it: its attributes, and the payload
    reader passed to the payload handler. *)
Record Object : Type := mkObject {
  Attributes : list Attribute;
  Payload : Stream
}.

Fixpoint getFilename_attrs (attributes : list Attribute) : string :=
  match attributes with
  | [] => EmptyString
  | (k, v) :: rest => if k =? AttributeFileName then v else getFilename_attrs rest
  end.

Definition getFilename (obj : Object) : string := getFilename_attrs (Attributes obj).

(** [zip.Store] and [zip.Deflate]. *)
Definition zip_Store : Z := 0.
Definition zip_Deflate : Z := 8.

Record zipEntry : Type := mkEntry {
  ze_name : string;
  ze_method : Z;
  ze_data : string
}.

(** [zip.Writer]: the entries created so far, the last one being the open
    one, and whether [Close] was called. *)
Record zipWriter : Type := mkZip {
  zw_entries : list zipEntry;
  zw_closed : bool
}.

Definition zip_NewWriter : zipWriter := mkZip [] false.

(** The storage network and the response stream as [streamFiles] sees
    them: [GetObject] for the [i]-th identifier, and whether the writes
    into the response that each step causes succeed. *)
Record ZipWorld : Type := mkZipWorld {
  pool_GetObject : nat -> string -> option Object;
  sink_CreateHeader : nat -> bool;
  sink_Copy : nat -> bool;
  sink_Flush : nat -> bool;
  sink_Close : bool
}.

Fixpoint ends_with_slash (s : string) : bool :=
  match s with
  | EmptyString => false
  | String c EmptyString => (c =? "/")%char
  | String _ s' => ends_with_slash s'
  end.

(** [zip.Writer.CreateHeader]: refuses a name longer than [uint16] holds; a
    name ending in a slash makes a directory entry, stored. *)
Definition zip_CreateHeader (ok : bool) (zw : zipWriter) (name : string) (method : Z)
  : option zipWriter :=
  if (65535 <? Z.of_nat (String.length name))%Z then None
  else if negb ok then None
  else
    let method := if ends_with_slash name then zip_Store else method in
    Some (mkZip (zw_entries zw ++ [mkEntry name method EmptyString])%list (zw_closed zw)).

(** Writing into the open entry; a directory entry takes no bytes. *)
Definition zip_Write (zw : zipWriter) (p : string) : option zipWriter :=
  match rev (zw_entries zw) with
  | [] => None
  | e :: before =>
      if ends_with_slash (ze_name e) && (0 <? String.length p)%nat then None
      else Some (mkZip (rev before ++ [mkEntry (ze_name e) (ze_method e) (ze_data e ++ p)])%list
                       (zw_closed zw))
  end.

(** Calls of [Read] that are enough to drain a stream with a non-empty
    buffer. *)
Definition Stream_fuel (r : Stream) : nat :=
  S (String.length (rest r) + List.length (short r)).

(** The buffer of [io.Copy]. *)
Definition copyBufferSize : nat := 32 * 1024.

(** [io.Copy(entryWriter, r)]: everything read goes into the open entry;
    the error of the reader, or of the writer, is returned.  Which of the
    bytes had reached the entry when a write into the response failed is
    left out. *)
Definition io_Copy (ok : bool) (zw : zipWriter) (r : Stream) : option string * zipWriter :=
  match ReadAll (Stream_fuel r) copyBufferSize r with
  | None => (Some "unbounded reader", zw)
  | Some (p, e) =>
      match zip_Write zw p with
      | None => (Some "zip: write to directory", zw)
      | Some zw' =>
          match e with
          | Err m => (Some m, zw')
          | _ => if ok then (None, zw') else (Some "write", zw')
          end
      end
  end.

Section StreamFiles.

Context (W : ZipWorld).

(** [settings.ZipCompression]. *)
Variable ZipCompression : bool.

Definition compression : Z := if ZipCompression then zip_Deflate else zip_Store.

(** [zip.Writer.Close], called once. *)
Definition zip_Close (zw : zipWriter) : option string * zipWriter :=
  let zw := mkZip (zw_entries zw) true in
  if sink_Close W then (None, zw) else (Some "close", zw).

(** The loop of [streamFiles] from the [i]-th identifier on, and the final
    [zipWriter.Close()].  The modification time of a header is left out. *)
Fixpoint streamFiles_from (i : nat) (ids : list string) (zw : zipWriter)
  : option string * zipWriter :=
  match ids with
  | [] => zip_Close zw
  | id :: rest =>
      match pool_GetObject W i id with
      | None => (Some "get object", zw)
      | Some obj =>
          match zip_CreateHeader (sink_CreateHeader W i) zw (getFilename obj) compression with
          | None => (Some "create header", zw)
          | Some zw =>
              match io_Copy (sink_Copy W i) zw (Payload obj) with
              | (Some e, zw) => (Some e, zw)
              | (None, zw) =>
                  if sink_Flush W i then streamFiles_from (S i) rest zw
                  else (Some "flush", zw)
              end
          end
      end
  end.

Definition streamFiles (ids : list string) : option string * zipWriter :=
  streamFiles_from 0 ids zip_NewWriter.

End StreamFiles.


(* ================================================================== *)
(** ** The download streamer: [ResRead], [Downloader.read] *)

(** Selector kinds (the [iota] block starts at 1). *)
Definition byID : nat := 1.
Definition byAttr : nat := 2.
Definition byFile : nat := 3.

(** [downloader.Header]. *)
Record DHeader : Type := mkDHeader {
  System : bool;
  DKey : string;
  DValue : string
}.

(** [ResRead]; of the request context it holds the [download] query flag
    and the response. *)
Record ResRead : Type := mkResRead {
  rr_head : bool;
  rr_selector : nat;
  rr_status : nat;
  rr_download : bool;
  rr_out : list RespEvent
}.

Definition rr_set_status (x : ResRead) (st : nat) : ResRead :=
  mkResRead (rr_head x) (rr_selector x) st (rr_download x) (rr_out x).

Definition rr_emit (x : ResRead) (e : RespEvent) : ResRead :=
  mkResRead (rr_head x) (rr_selector x) (rr_status x) (rr_download x)
            (rr_out x ++ [e])%list.

Definition ResRead_EOF (x : ResRead) : ResRead := rr_set_status x 1.
Definition FailCommonAPI (x : ResRead) : ResRead := rr_set_status x 2.
Definition ResRead_NotFound (x : ResRead) : ResRead := rr_set_status x 3.

(** The [Waiting...] methods: the value written to [*dst]. *)
Definition WaitingHeaders (x : ResRead) : bool := negb (rr_selector x =? byFile)%nat.
Definition WaitingPayload (x : ResRead) : bool := negb (rr_head x).
Definition WaitingFilename (x : ResRead) : bool := negb (rr_head x).
Definition WaitingOwner (x : ResRead) : bool := negb (rr_selector x =? byFile)%nat.

(** [ResRead.WriteHeader]: the parts of a system key between hyphens in
    title case, behind [Neofs-]. *)
Definition ResRead_WriteHeader (U : Utils) (x : ResRead) (hdr : DHeader) : ResRead :=
  let key :=
    if System hdr then
      let ss := map (fun s => strings.Title (strings.ToLower s))
                    (strings.Split (DKey hdr) "-") in
      "Neofs-" ++ strings.Join ss "-"
    else DKey hdr in
  rr_emit x (RHeaderSet (UserAttributeHeaderPrefix U ++ key) (DValue hdr)).

Definition WriteCreatedAt (L : GoLib) (x : ResRead) (t : Time L) : ResRead :=
  rr_emit x (RHeaderSet "Last-Modified" (http_FormatTime L t)).

Definition WriteContentType (x : ResRead) (ct : string) : ResRead :=
  rr_emit x (RSetContentType ct).

Definition HandlePayload (x : ResRead) (sz : Z) : ResRead :=
  rr_emit (rr_emit x (RSetBodyStream sz)) (RHeaderSet "Content-Length" (FormatUint sz)).

Definition WriteFilename (L : GoLib) (x : ResRead) (n : string) : ResRead :=
  if rr_download x
  then rr_emit x (RHeaderSet "Content-Disposition" ("attachment; filename=" ++ path_Base L n))
  else rr_emit x (RHeaderSet "Content-Disposition" ("inline; filename=" ++ path_Base L n)).

Definition WriteOwner (x : ResRead) (id : string) : ResRead :=
  rr_emit x (RHeaderSet "X-Owner-Id" id).

(** What one call of [ObjectReader.ReadNext] does with the [*ResRead] it
    is given: a sequence of calls of its methods, each answer of a
    [Waiting...] method deciding how the call goes on.  The fields of
    [ResRead] are not exported, so its methods are all an implementation of
    [ObjectReader] can use. *)
Inductive ReadProg (L : GoLib) : Type :=
| PReturn
| PEOF (k : ReadProg L)
| PFailCommonAPI (k : ReadProg L)
| PNotFound (k : ReadProg L)
| PWaitingHeaders (k : bool -> ReadProg L)
| PWriteHeader (hdr : DHeader) (k : ReadProg L)
| PWaitingCreationTime (dst : bool) (k : bool -> ReadProg L)
| PWriteCreatedAt (t : Time L) (k : ReadProg L)
| PWaitingPayload (k : bool -> ReadProg L)
| PWriteContentType (ct : string) (k : ReadProg L)
| PHandlePayload (sz : Z) (k : ReadProg L)
| PWaitingFilename (k : bool -> ReadProg L)
| PWriteFilename (n : string) (k : ReadProg L)
| PWaitingOwner (k : bool -> ReadProg L)
| PWriteOwner (id : string) (k : ReadProg L).
Arguments PReturn {L}.
Arguments PEOF {L} k.
Arguments PFailCommonAPI {L} k.
Arguments PNotFound {L} k.
Arguments PWaitingHeaders {L} k.
Arguments PWriteHeader {L} hdr k.
Arguments PWaitingCreationTime {L} dst k.
Arguments PWriteCreatedAt {L} t k.
Arguments PWaitingPayload {L} k.
Arguments PWriteContentType {L} ct k.
Arguments PHandlePayload {L} sz k.
Arguments PWaitingFilename {L} k.
Arguments PWriteFilename {L} n k.
Arguments PWaitingOwner {L} k.
Arguments PWriteOwner {L} id k.

(** [WaitingCreationTime] has the body [*dst]: nothing is written, the
    caller keeps the value it passed. *)
Fixpoint runProg {L : GoLib} (U : Utils) (p : ReadProg L) (x : ResRead) : ResRead :=
  match p with
  | PReturn => x
  | PEOF k => runProg U k (ResRead_EOF x)
  | PFailCommonAPI k => runProg U k (FailCommonAPI x)
  | PNotFound k => runProg U k (ResRead_NotFound x)
  | PWaitingHeaders k => runProg U (k (WaitingHeaders x)) x
  | PWriteHeader hdr k => runProg U k (ResRead_WriteHeader U x hdr)
  | PWaitingCreationTime dst k => runProg U (k dst) x
  | PWriteCreatedAt t k => runProg U k (WriteCreatedAt L x t)
  | PWaitingPayload k => runProg U (k (WaitingPayload x)) x
  | PWriteContentType ct k => runProg U k (WriteContentType x ct)
  | PHandlePayload sz k => runProg U k (HandlePayload x sz)
  | PWaitingFilename k => runProg U (k (WaitingFilename x)) x
  | PWriteFilename n k => runProg U k (WriteFilename L x n)
  | PWaitingOwner k => runProg U (k (WaitingOwner x)) x
  | PWriteOwner id k => runProg U k (WriteOwner x id)
  end.

(** [ObjectReader].  [ReadNext sel head i] is the [i]-th call of
    [ReadNext] of a reader on which the selection method [sel] was called,
    and [Head] if [head]. *)
Record ObjectReader (L : GoLib) : Type := mkObjectReader {
  FromContainer : string -> bool;
  OR_UseBearerToken : string -> bool;
  ByID : string -> bool;
  ByAttribute : string -> string -> Z;
  ByFilenamePrefix : string -> Z;
  ReadNext : nat -> bool -> nat -> ReadProg L
}.
Arguments FromContainer {L} o s.
Arguments OR_UseBearerToken {L} o s.
Arguments ByID {L} o s.
Arguments ByAttribute {L} o k v.
Arguments ByFilenamePrefix {L} o s.
Arguments ReadNext {L} o sel head i.

(** A download request: the user values of the route, the headers and the
    [download] query flag. *)
Record DRequest : Type := mkDRequest {
  d_cid : string;
  d_oid : string;
  d_attr_key : string;
  d_attr_val : string;
  d_prefix : string;
  d_header : RequestHeader;
  d_download : bool
}.

Section Read.

Context {L : GoLib} (U : Utils) (rObj : ObjectReader L).

(** The [loop:] of [read]: call [ReadNext] until the status is 1, 2 or 3.
    [None] when [fuel] calls do not suffice. *)
Fixpoint readLoop (fuel : nat) (selector : nat) (head : bool) (i : nat) (res : ResRead)
  : option ResRead :=
  match fuel with
  | O => None
  | S fuel' =>
      let res := runProg U (ReadNext rObj selector head i) res in
      match rr_status res with
      | 1 => Some res
      | 2 => Some (rr_emit res (RError "read object failed" StatusBadRequest))
      | 3 => Some (rr_emit res (RError "object not found" StatusNotFound))
      | _ => readLoop fuel' selector head (S i) res
      end
  end.

(** [Downloader.read]: the response written, [None] when the loop is cut
    off by [fuel].  The [ResRead] passed to [ReadNext] is the zero value
    with [reqCtx] set. *)
Definition read (fuel : nat) (c : DRequest) (selector : nat) (head : bool)
  : option (list RespEvent) :=
  let sCnr := d_cid c in
  if FromContainer rObj sCnr
  then Some [RError "incorrect container ID" StatusBadRequest]
  else
    let (code, encodedBearer) := ReadBearer L (d_header c) in
    if (code =? -1)%Z then Some [RError "incorrect bearer token header" StatusBadRequest]
    else if (code =? 1)%Z &&
            OR_UseBearerToken rObj (match encodedBearer with Some b => b | None => EmptyString end)
    then Some [RError "incorrect bearer token JSON" StatusBadRequest]
    else
      (* select objects *)
      let selected : list RespEvent + list RespEvent :=
        match selector with
        | 1 =>
            let sObj := d_oid c in
            if ByID rObj sObj then inl [RError "incorrect object ID" StatusBadRequest]
            else inr [RHeaderSet "X-Object-Id" sObj]
        | 2 =>
            let key := url_QueryUnescape L (d_attr_key c) in
            let val := url_QueryUnescape L (d_attr_val c) in
            let r := ByAttribute rObj key val in
            if (r =? -1)%Z then inl [RError "select by attribute failed" StatusBadRequest]
            else if (r =? 0)%Z then inl [RError "object not found" StatusNotFound]
            else inr []
        | 3 =>
            let prefix := url_QueryUnescape L (d_prefix c) in
            let r := ByFilenamePrefix rObj prefix in
            if (r =? -1)%Z then inl [RError "select by filename prefix failed" StatusBadRequest]
            else if (r =? 0)%Z then inl [RError "object not found" StatusNotFound]
            else inr []
        | _ => inr []
        end in
      match selected with
      | inl out => Some out
      | inr out =>
          (* perform reading *)
          let res := mkResRead false 0 0 (d_download c) out in
          match readLoop fuel selector head 0 res with
          | None => None
          | Some res =>
              if (rr_status res =? 1)%nat
              then Some (rr_out res ++ [RHeaderSet "X-Container-Id" sCnr])%list
              else Some (rr_out res)
          end
      end.

End Read.


(* ================================================================== *)
(** ** Vocabulary of the properties *)

(** A word of the HTTP spelling: an upper-case letter followed by
    lower-case letters. *)
Fixpoint all_lower (s : string) : bool :=
  match s with
  | EmptyString => true
  | String c s' => strings.is_lower c && all_lower s'
  end.

Definition TitleWord (w : string) : bool :=
  match w with
  | EmptyString => false
  | String c s' => strings.is_upper c && all_lower s'
  end.

(** The HTTP spelling of a system attribute. *)
Definition httpKey (ws : list string) : string := "Neofs-" ++ strings.Join ws "-".

(** What [WriteHeader] does to one byte of the key behind the prefix. *)
Definition fwd (c : ascii) : ascii :=
  strings.upper_rune (if (c =? "-")%char then "_"%char else c).

(** The [EpochDuration] parameter of a network configuration, zero when
    there is none. *)
Definition EpochDurationParam (ps : list (string * string)) : Z :=
  match find (fun kv => fst kv =? "EpochDuration") ps with
  | Some (_, v) => le_bytes 8 v
  | None => 0%Z
  end.

(** The bearer value that a request presents: that of the [Authorization]
    header when it starts with [Bearer ], the [Bearer] cookie otherwise. *)
Definition presentedBearer (h : RequestHeader) : option string :=
  match Peek h HeaderAuthorization with
  | Some hdrAuth =>
      if strings.HasPrefix hdrAuth (bearerTokenHdr ++ " ")
      then Some (strings.TrimPrefix hdrAuth (bearerTokenHdr ++ " "))
      else Cookie h bearerTokenHdr
  | None => Cookie h bearerTokenHdr
  end.

(** The object-put operation was invoked. *)
Definition putInvoked (log : list NetEvent) : bool :=
  existsb (fun e => match e with EvPutObject _ _ _ _ _ => true | _ => false end) log.

(** A value that [fetchBearerToken] cannot turn into a token. *)
Definition malformedBinary (L : GoLib) (b : string) : Prop :=
  snd (base64_Decode L b) = false
  \/ bearer_Unmarshal L (fst (base64_Decode L b)) = None.

(** The slice that [ReadBearer] leaves in [*dst] for the value [v]. *)
Definition decodedBearer (L : GoLib) (v : string) : string :=
  fst (base64_Decode L v)
  ++ zeros (DecodedLen (String.length v) - String.length (fst (base64_Decode L v))).

(** The resolver of the download handlers reports a malformed value as an
    error, for the value that the request presents. *)
Definition fetchReportsMalformed (L : GoLib) (h : RequestHeader) : Prop :=
  forall v, presentedBearer h = Some v -> malformedBinary L v ->
            snd (fetchBearerToken L (Some h)) <> None.

(** The epoch of the specification, over the integers. *)
Definition exactEpoch (ni : NetworkInfo) (expDur : Z) : Z :=
  (CurrentEpoch ni
   + Milliseconds expDur * EpochDurationParam (Parameters ni) / MsPerBlock ni)%Z.

(** [ExpireAfter] attaches the epoch of the specification. *)
Definition attachesExactEpoch {L : GoLib} (W : World L) (x : objectCreator) (expDur : Z)
  : Prop :=
  forall ni, conn_NetworkInfo W = Some ni ->
    exists x', ExpireAfter W x expDur = Ok (false, x')
               /\ attrs x' = (attrs x ++ [(SysAttributeExpEpoch,
                                           FormatUint (exactEpoch ni expDur))])%list.

(** The objects that [GetObject] returns for the identifiers, the first
    being asked for in the [i]-th place; [None] if one of them fails. *)
Fixpoint fetchAll (W : ZipWorld) (i : nat) (ids : list string) : option (list Object) :=
  match ids with
  | [] => Some []
  | id :: rest =>
      match pool_GetObject W i id, fetchAll W (S i) rest with
      | Some o, Some os => Some (o :: os)
      | _, _ => None
      end
  end.

(** The finished archive entry of an object. *)
Definition entryOf (ZipCompression : bool) (o : Object) : zipEntry :=
  mkEntry (getFilename o)
          (if ends_with_slash (getFilename o) then zip_Store
           else compression ZipCompression)
          (rest (Payload o)).

(* ================================================================== *)
(** ** A concrete environment, to evaluate the code on requests *)

Module Sample.

Definition second : Z := 1000000000%Z.
Definition hour : Z := (3600 * second)%Z.

(** [a.Sub(b)] saturates at the bounds of [int64]. *)
Definition Sub (a b : Z) : Z := (Z.max (- 2 ^ 63) (Z.min (2 ^ 63 - 1) (a - b)))%Z.

(** Library functions, given on the strings that the requests below carry;
    instants are nanoseconds since the Unix epoch. *)
Definition lib : GoLib := {|
  Time := Z;
  time_Parse_RFC3339 := fun s =>
    if s =? "2030-01-01T00:00:00Z" then Some (1893456000 * second)%Z else None;
  time_Unix := fun sec => (sec * second)%Z;
  time_Sub := Sub;
  Time_Unix := fun t => (t / second)%Z;
  strconv_ParseInt := fun s =>
    if s =? "1900000000" then Some 1900000000%Z else None;
  time_ParseDuration := fun s =>
    if s =? "1h" then Some hour
    else if s =? "2h" then Some (2 * hour)%Z
    else if s =? "-1h" then Some (- hour)%Z
    else None;
  base64_Decode := fun s =>
    if s =? "CgA=" then (String (ascii_of_nat 10) (String zero ""), true)
    else if s =? "e30=" then ("{}", true)
    else ("", false);
  cid_Parse := fun s => s =? "11111111111111111111111111111111";
  bearer_UnmarshalJSON := fun _ => None;
  bearer_Unmarshal := fun s =>
    if s =? String (ascii_of_nat 10) (String zero "") then Some "" else None;
  http_DetectContentType := fun _ => "application/octet-stream";
  url_QueryUnescape := fun s => s;
  path_Base := fun s => s;
  http_FormatTime := fun _ => ""
|}.

(** Modelled from the spec: the constants of the [utils] package, which is
    not among the sources; section 8 of the specification writes the
    duration header as [X-Attribute-Expiration-Duration], the other two
    forms are named alike. *)
Definition utils : Utils := {|
  UserAttributeHeaderPrefix := "X-Attribute-";
  ExpirationRFC3339Attr := "Expiration-RFC3339";
  ExpirationTimestampAttr := "Expiration-Timestamp";
  ExpirationDurationAttr := "Expiration-Duration"
|}.

(** [EpochDuration] of 240, little-endian. *)
Definition epochDuration240 : string :=
  String (ascii_of_nat 240) (zeros 7).

Definition netInfo : NetworkInfo := {|
  CurrentEpoch := 100%Z;
  MsPerBlock := 1000%Z;
  Parameters := [("MaxObjectSize", zeros 8); ("EpochDuration", epochDuration240)]
|}.

(** A network that answers every call, at a clock that stands still. *)
Definition now : Time lib := (1700000000 * second)%Z.

Definition world : World lib :=
  mkWorld lib (fun _ => now) true (Some netInfo) (fun _ => Some "oid").

Definition cid : string := "11111111111111111111111111111111".

Definition filePart : Part := mkPart "file" "a.txt" "payload".
Definition otherPart : Part := mkPart "file2" "b.txt" "other".

(** An upload context at the point where the payload is bound: what
    [Upload] has built when it reaches [processHeaders]. *)
Definition boundCtx : uploadContext :=
  mkCtx false None "" cid (Some filePart)
        (mkCreator "owner" false None (Some cid) [] (Some filePart) [])
        false [] 0.

(** The context with which [Upload] starts. *)
Definition initCtx : uploadContext :=
  mkCtx false None "" cid None (InitObjectCreation "owner") false [] 0.

(** Three attribute headers: an opaque one, the duration form and the
    timestamp form of the expiration. *)
Definition staleHeaders : list (string * string) :=
  [("X-Attribute-Foo", "2h");
   ("X-Attribute-Expiration-Duration", "1h");
   ("X-Attribute-Expiration-Timestamp", "1900000000")].

(** An upload whose expiration lies in the past. *)
Definition pastExpiration : Request :=
  mkRequest cid
    (mkRequestHeader [("X-Attribute-Foo", "-1h");
                      ("X-Attribute-Expiration-Duration", "-1h")] [])
    (mkBody [filePart] "EOF").

End Sample.

(** Requests, payloads and networks for particular cases. *)
Module Cases.

(** Two objects matched by a prefix, the second without a filename. *)
Definition report1 : Object :=
  mkObject [("Timestamp", "1700000000"); ("FileName", "report1.txt")]
           (mkStream "first" [] false None).

Definition unnamed : Object :=
  mkObject [("Content-Type", "text/plain")] (mkStream "second" [3] true None).

Definition zipWorld : ZipWorld :=
  mkZipWorld (fun _ id => if id =? "id1" then Some report1
                          else if id =? "id2" then Some unnamed else None)
             (fun _ => true) (fun _ => true) (fun _ => true) true.

(** A header with a value that is not base64, and a cookie with a token
    (an empty body, serialized and encoded). *)
Definition badHeaderGoodCookie : RequestHeader :=
  mkRequestHeader [("Authorization", "Bearer !!!")] [("Bearer", "CgA=")].

(** A header whose value decodes but is not a token in JSON. *)
Definition notJSON : RequestHeader :=
  mkRequestHeader [("Authorization", "Bearer e30=")] [].

(** A network whose [EpochDuration] parameter is 2^63. *)
Definition hugeEpochDuration : NetworkInfo := {|
  CurrentEpoch := 100%Z;
  MsPerBlock := 1000%Z;
  Parameters := [("EpochDuration", zeros 7 ++ String (ascii_of_nat 128) "")]
|}.

Definition hugeWorld : World Sample.lib :=
  mkWorld Sample.lib (fun _ => Sample.now) true (Some hugeEpochDuration)
          (fun _ => Some "oid").

Definition emptyCreator : objectCreator := InitObjectCreation "owner".

(** A reader that answers [ReadNext] by asking whether the owner is
    awaited, writes it if so, and reports the end. *)
Definition ownerReader : ObjectReader Sample.lib :=
  mkObjectReader Sample.lib
    (fun _ => false) (fun _ => false) (fun _ => false)
    (fun _ _ => 1%Z) (fun _ => 1%Z)
    (fun _ _ _ =>
       PWaitingOwner (fun b => if b then PWriteOwner "owner-id" (PEOF PReturn)
                               else PEOF PReturn)).

(** A reader that refuses every bearer token. *)
Definition strictReader : ObjectReader Sample.lib :=
  mkObjectReader Sample.lib
    (fun _ => false) (fun _ => true) (fun _ => false)
    (fun _ _ => 1%Z) (fun _ => 1%Z)
    (fun _ _ _ => PEOF PReturn).

Definition byPrefixRequest : DRequest :=
  mkDRequest Sample.cid "" "" "" "report" (mkRequestHeader [] []) false.

(** Payloads for the sniffer: shorter than the peek size and delivered in
    pieces of two bytes at first, and longer than the peek size. *)
Definition shortPayload : Stream := mkStream "%PDF-1.4" [2; 0; 2] true None.

End Cases.


(* ================================================================== *)
(** ** Further code of the downloader: header safety, [receiveFile],
       [handleNeoFSErr] *)

(** The bytes that [isValidToken] refuses besides controls, the space and
    what lies above 127: the literal of the source, with its backslash and
    its quote. *)
Definition tokenSeparators : string :=
  "()<>@,;:\" ++ String "034" "/[]?={}".

Definition validTokenRune (c : ascii) : bool :=
  negb ((c <=? " ")%char || ("127" <? c)%char)
  && negb (strings.ContainsRune tokenSeparators c).

Definition validValueRune (c : ascii) : bool :=
  negb ((c <? " ")%char || ("127" <? c)%char || (c =? "034")%char).

(** [isValidToken] and [isValidValue]: the loops return false at the first
    rune refused.  Ranging over a string with a byte above 127 meets a rune
    above 127, so the test on bytes is the test on runes. *)
Fixpoint isValidToken (s : string) : bool :=
  match s with
  | EmptyString => true
  | String c s' => if validTokenRune c then isValidToken s' else false
  end.

Fixpoint isValidValue (s : string) : bool :=
  match s with
  | EmptyString => true
  | String c s' => if validValueRune c then isValidValue s' else false
  end.

(** [strings.Contains]. *)
Fixpoint Contains (s substr : string) : bool :=
  String.prefix substr s
  || match s with
     | EmptyString => false
     | String _ s' => Contains s' substr
     end.

(** A Go [error]: its text, and what [errors.Unwrap] returns. *)
Inductive error : Type :=
| errorNew (text : string)
| errorWrap (text : string) (inner : error).

Definition Error (e : error) : string :=
  match e with
  | errorNew t => t
  | errorWrap t _ => t
  end.

(** The loop of [handleNeoFSErr] over [errors.Unwrap]. *)
Fixpoint cause (e : error) : error :=
  match e with
  | errorNew _ => e
  | errorWrap _ inner => cause inner
  end.

(** [errObjectNotFound]. *)
Definition errObjectNotFound : error := errorNew "object not found".

(** [handleNeoFSErr]: the call of [response.Error] it ends with. *)
Definition handleNeoFSErr (e : error) : RespEvent :=
  let c := cause e in
  if Contains (Error c) "not found" || Contains (Error c) "can't fetch container info"
  then RError (Error errObjectNotFound) StatusNotFound
  else RError ("could not receive object: " ++ Error e) StatusBadRequest.

(** What [GetObject] returns to [receiveFile]. *)
Record FetchedObject : Type := mkFetched {
  fo_ID : string;
  fo_OwnerID : string;
  fo_ContainerID : string;
  fo_PayloadSize : Z;
  fo_Attributes : list Attribute
}.

Section ReceiveFile.

Context (L : GoLib) (U : Utils).

(** One round of the loop of [receiveFile] over the attributes: the
    headers it sets. *)
Definition attributeHeaders (attr : Attribute) : list RespEvent :=
  let (key, val) := attr in
  if negb (isValidToken key) || negb (isValidValue val) then []
  else
    let key := if strings.HasPrefix key SystemAttributePrefix
               then systemBackwardTranslator key else key in
    RHeaderSet (UserAttributeHeaderPrefix U ++ key) val
    :: (if key =? AttributeFileName then []
        else if key =? AttributeTimestamp then
          match strconv_ParseInt L val with
          | None => []
          | Some value => [RHeaderSet "Last-Modified" (http_FormatTime L (time_Unix L value))]
          end
        else []).

(** [receiveFile], given what [GetObject] answers; the statements left in
    comments in the source are no part of it. *)
Definition receiveFile (h : RequestHeader) (got : error + FetchedObject) : list RespEvent :=
  match fst (StoreBearerToken L h) with
  | Some _ => [RError "could not fetch and store bearer token" StatusBadRequest]
  | None =>
      match got with
      | inl e => [handleNeoFSErr e]
      | inr obj =>
          ([RSetBodyStream (fo_PayloadSize obj);
            RHeaderSet "Content-Length" (FormatUint (fo_PayloadSize obj))]
           ++ flat_map attributeHeaders (fo_Attributes obj)
           ++ [RHeaderSet "X-Object-Id" (fo_ID obj);
               RHeaderSet "X-Owner-Id" (fo_OwnerID obj);
               RHeaderSet "X-Container-Id" (fo_ContainerID obj)])%list
      end
  end.

End ReceiveFile.

(* ================================================================== *)
(** ** Vocabulary of the further properties *)

(** A body part that [initPayloadSource] takes as payload source. *)
Definition usable (p : Part) : bool :=
  negb ((FormName p =? "") || (FileName p =? "")).

(** The last element of a list that satisfies a test. *)
Fixpoint lastThat {A : Type} (f : A -> bool) (l : list A) (d : option A) : option A :=
  match l with
  | [] => d
  | x :: rest => lastThat f rest (if f x then Some x else d)
  end.

(** The keys of the attributes of a creator. *)
Definition hasKey (key : string) (attributes : list Attribute) : bool :=
  existsb (fun a => fst a =? key) attributes.


(** States and requests for the further properties. *)
Module Inputs.

(** The state of the iteration once the duration form was recorded. *)
Definition durationRecorded : headerState :=
  mkHS Sample.boundCtx (mkHeader 0 "Expiration-Duration" "")
       (mkMeta false false false) expirationDuration expirationDuration Sample.hour.

(** The state of the iteration at its start. *)
Definition atStart : headerState := hs_init Sample.boundCtx.

(** A request whose headers hold an expiration that does not parse,
    followed by an attribute. *)
Definition badThenGood : list (string * string) :=
  [("X-Attribute-Expiration-Timestamp", "soon")].

Definition oneAttribute : list (string * string) :=
  [("X-Attribute-Color", "red")].

(** The context that [processHeaders] leaves for that attribute. *)
Definition colorProcessed : uploadContext :=
  match processHeaders Sample.world Sample.utils oneAttribute Sample.boundCtx with
  | Ok c => c
  | Panic _ => Sample.boundCtx
  end.

End Inputs.


(** The key under which [processHeaders] records an attribute header. *)
Definition storedKey (U : Utils) (k : string) : string :=
  let key := strings.TrimPrefix k (UserAttributeHeaderPrefix U) in
  if (key =? "Neofs-") || (key =? "NEOFS-") || (key =? "neofs-")
  then SysAttributePrefix else key.

(** The encountered flags say which of the three attributes are among
    those collected. *)
Definition flagsAgree (meta : HeadersMeta) (attributes : list Attribute) : Prop :=
  enc_filename meta = hasKey AttributeFileName attributes
  /\ enc_timestamp meta = hasKey AttributeTimestamp attributes
  /\ enc_expiration meta = hasKey SysAttributeExpEpoch attributes.


(** Requests for the properties of the bearer token. *)
Module Requests.

(** A header with a token in the [Authorization] header and another in
    the cookie. *)
Definition both : RequestHeader :=
  mkRequestHeader [("Authorization", "Bearer CgA=")] [("Bearer", "e30=")].

(** A header whose [Authorization] value has the word without the space. *)
Definition glued : RequestHeader :=
  mkRequestHeader [("Authorization", "BearerCgA=")] [].

(** A header with the token in the cookie only. *)
Definition cookieOnly : RequestHeader :=
  mkRequestHeader [("Accept", "*/*")] [("Bearer", "CgA=")].

(** A payload whose first read brings two bytes and a broken connection. *)
Definition brokenPayload : Stream := mkStream "ab" [] true (Some "connection reset").

End Requests.


(** The status code of a call of [response.Error]. *)
Definition errorCode (ev : RespEvent) : Z :=
  match ev with
  | RError _ code => code
  | _ => 0%Z
  end.

(** An error wrapped in further errors, the outermost text first. *)
Definition wrapped (texts : list string) (e : error) : error :=
  fold_right errorWrap e texts.

(** The headers that [receiveFile] sets besides those of the attributes. *)
Definition fixedHeader (k : string) : bool :=
  (k =? "Content-Length") || (k =? "X-Object-Id") || (k =? "X-Owner-Id")
  || (k =? "X-Container-Id") || (k =? "Last-Modified").


(** Objects and errors for the properties of the downloader. *)
Module Fetched.

(** An object with a plain attribute, a system attribute, a creation time
    and an attribute whose value holds a line break. *)
Definition injected : Attribute :=
  ("Note", String "013" (String "010" "Set-Cookie: a=b")).

Definition object : FetchedObject :=
  mkFetched "oid" "owner" Sample.cid 7
            [("Color", "red"); injected; ("__NEOFS__EXPIRATION_EPOCH", "42")].

Definition noHeaders : RequestHeader := mkRequestHeader [] [].

End Fetched.


(** A call of [ReadNext] in which every [Waiting...] method has answered
    true ([WaitingCreationTime], which writes nothing, keeps the value
    passed). *)
Fixpoint answeredTrue {L : GoLib} (p : ReadProg L) : ReadProg L :=
  match p with
  | PReturn => PReturn
  | PEOF k => PEOF (answeredTrue k)
  | PFailCommonAPI k => PFailCommonAPI (answeredTrue k)
  | PNotFound k => PNotFound (answeredTrue k)
  | PWaitingHeaders k => answeredTrue (k true)
  | PWriteHeader hdr k => PWriteHeader hdr (answeredTrue k)
  | PWaitingCreationTime dst k => answeredTrue (k dst)
  | PWriteCreatedAt t k => PWriteCreatedAt t (answeredTrue k)
  | PWaitingPayload k => answeredTrue (k true)
  | PWriteContentType ct k => PWriteContentType ct (answeredTrue k)
  | PHandlePayload sz k => PHandlePayload sz (answeredTrue k)
  | PWaitingFilename k => answeredTrue (k true)
  | PWriteFilename n k => PWriteFilename n (answeredTrue k)
  | PWaitingOwner k => answeredTrue (k true)
  | PWriteOwner id k => PWriteOwner id (answeredTrue k)
  end.

(** The key of a system header as an object reader passes it to
    [ResRead.WriteHeader]: words in upper case between hyphens. *)
Definition systemKey (ws : list string) : string :=
  strings.Join (map strings.ToUpper ws) "-".


(** The handlers of the downloader that go through [read]. *)
Section Handlers.

Context {L : GoLib} (U : Utils) (rObj : ObjectReader L).

Definition DownloadByAddress (fuel : nat) (c : DRequest) : option (list RespEvent) :=
  read U rObj fuel c byID false.

Definition HeadByAddress (fuel : nat) (c : DRequest) : option (list RespEvent) :=
  read U rObj fuel c byID true.

Definition DownloadByAttribute (fuel : nat) (c : DRequest) : option (list RespEvent) :=
  read U rObj fuel c byAttr false.

Definition HeadByAttribute (fuel : nat) (c : DRequest) : option (list RespEvent) :=
  read U rObj fuel c byAttr true.

End Handlers.


(* ================================================================== *)
(** ** Vocabulary of the properties of requests *)

(** From the specification: an expiration header of an upload that is
    refused.  The header named by one of the three forms, behind the user
    prefix, holds a value that does not parse, or one whose duration up to
    the instant [now] is not strictly positive. *)
Definition expirationInvalid {L : GoLib} (U : Utils) (now : Time L) (k v : string) : Prop :=
  (k = UserAttributeHeaderPrefix U ++ ExpirationRFC3339Attr U
   /\ match time_Parse_RFC3339 L v with
      | None => True
      | Some t => (time_Sub L t now <= 0)%Z
      end)
  \/ (k = UserAttributeHeaderPrefix U ++ ExpirationTimestampAttr U
      /\ match strconv_ParseInt L v with
         | None => True
         | Some ts => (time_Sub L (time_Unix L ts) now <= 0)%Z
         end)
  \/ (k = UserAttributeHeaderPrefix U ++ ExpirationDurationAttr U
      /\ match time_ParseDuration L v with
         | None => True
         | Some d => (d <= 0)%Z
         end).

(** An upload request one of whose headers is such a header, at the
    instant of the first reading of the clock. *)
Definition presentsInvalidExpiration {L : GoLib} (W : World L) (U : Utils) (req : Request)
  : Prop :=
  exists k v, In (k, v) (h_all (req_header req))
              /\ expirationInvalid U (time_Now W 0) k v.

(** From the specification: an archive entry is named by the filename
    attribute of its object, and by the empty string when the object has no
    such attribute.  The filename attribute is the first attribute with the
    key [FileName]. *)
Definition namedAfterFilename (o : Object) (name : string) : Prop :=
  (forall before v after,
      Attributes o = (before ++ (AttributeFileName, v) :: after)%list ->
      (forall a, In a before -> fst a <> AttributeFileName) ->
      name = v)
  /\ ((forall a, In a (Attributes o) -> fst a <> AttributeFileName) -> name = "").




(** The bytes of a string. *)
Definition bytesOf (s : string) : list ascii := list_ascii_of_string s.


(* ================================================================== *)
(** * Properties *)

(* ------------------------------------------------------------------ *)
(** ** Strings *)

Lemma Map_app (f : ascii -> ascii) (a b : string) :
  strings.Map f (a ++ b) = strings.Map f a ++ strings.Map f b.
Proof.
  induction a as [|c a IH]; simpl; [reflexivity | now rewrite IH].
Qed.

Lemma append_assoc (a b c : string) : (a ++ b) ++ c = a ++ (b ++ c).
Proof.
  induction a as [|x a IH]; simpl; [reflexivity | now rewrite IH].
Qed.

Lemma append_nil_r (a : string) : a ++ "" = a.
Proof.
  induction a as [|x a IH]; simpl; [reflexivity | now rewrite IH].
Qed.

Lemma length_app (a b : string) :
  String.length (a ++ b) = (String.length a + String.length b)%nat.
Proof.
  induction a as [|x a IH]; simpl; [reflexivity | now rewrite IH].
Qed.

Lemma drop_app (a b : string) : strings.drop (String.length a) (a ++ b) = b.
Proof.
  induction a as [|x a IH]; simpl; [now destruct b | exact IH].
Qed.

Lemma prefix_app (a b : string) : String.prefix a (a ++ b) = true.
Proof.
  induction a as [|x a IH]; simpl.
  - now destruct b.
  - destruct (ascii_dec x x) as [_|n]; [exact IH | now elim n].
Qed.

Lemma TrimPrefix_app (a b : string) : strings.TrimPrefix (a ++ b) a = b.
Proof.
  unfold strings.TrimPrefix, strings.HasPrefix.
  rewrite prefix_app. apply drop_app.
Qed.

Lemma take_drop (n : nat) (s : string) : take n s ++ strings.drop n s = s.
Proof.
  revert s; induction n as [|n IH]; intros [|c s]; simpl; try reflexivity.
  now rewrite IH.
Qed.

Lemma take_length (n : nat) (s : string) :
  String.length (take n s) = Nat.min n (String.length s).
Proof.
  revert s; induction n as [|n IH]; intros [|c s]; simpl; try reflexivity.
  now rewrite IH.
Qed.

Lemma drop_length (n : nat) (s : string) :
  String.length (strings.drop n s) = (String.length s - n)%nat.
Proof.
  revert s; induction n as [|n IH]; intros [|c s]; simpl; try reflexivity.
  apply IH.
Qed.

Lemma take_all (n : nat) (s : string) :
  (String.length s <= n)%nat -> take n s = s.
Proof.
  revert s; induction n as [|n IH]; intros [|c s]; simpl; intros H;
    try reflexivity; try lia.
  rewrite IH; [reflexivity | lia].
Qed.

Lemma drop_all (n : nat) (s : string) :
  (String.length s <= n)%nat -> strings.drop n s = "".
Proof.
  revert s; induction n as [|n IH]; intros [|c s]; simpl; intros H;
    try reflexivity; try lia.
  apply IH; lia.
Qed.

Lemma length_zero (s : string) : String.length s = 0%nat -> s = "".
Proof. now destruct s. Qed.

(* ------------------------------------------------------------------ *)
(** ** System attribute keys: upload and download spellings *)

Ltac all_ascii c := destruct c as [[] [] [] [] [] [] [] []]; try discriminate; try reflexivity.

Lemma fwd_lower_back (c : ascii) :
  strings.is_lower c = true ->
  strings.lower_rune (fwd c) = c /\ (fwd c =? "_")%char = false /\ strings.isSeparator c = false.
Proof. all_ascii c; intros _; repeat split. Qed.

Lemma fwd_upper_back (c : ascii) :
  strings.is_upper c = true ->
  strings.upper_rune (strings.lower_rune (fwd c)) = c /\ (fwd c =? "_")%char = false
  /\ strings.isSeparator (strings.lower_rune (fwd c)) = false.
Proof. all_ascii c; intros _; repeat split. Qed.

Lemma Map_Map (f g : ascii -> ascii) (s : string) :
  strings.Map f (strings.Map g s) = strings.Map (fun c => f (g c)) s.
Proof.
  induction s as [|c s IH]; simpl; [reflexivity | now rewrite IH].
Qed.

Lemma ToUpper_ReplaceAll (s : string) :
  strings.ToUpper (strings.ReplaceAll s "-" "_") = strings.Map fwd s.
Proof.
  unfold strings.ToUpper, strings.ReplaceAll. now rewrite Map_Map.
Qed.

Lemma Map_Join (f : ascii -> ascii) (ws : list string) (sep : string) :
  strings.Map f (strings.Join ws sep) = strings.Join (map (strings.Map f) ws) (strings.Map f sep).
Proof.
  induction ws as [|w ws IH]; [reflexivity|].
  destruct ws as [|w' ws]; [reflexivity|].
  change (strings.Join (w :: w' :: ws) sep) with (w ++ sep ++ strings.Join (w' :: ws) sep).
  rewrite !Map_app, IH. reflexivity.
Qed.

Lemma Split_nosep (u : string) (sep : ascii) :
  strings.ContainsRune u sep = false -> strings.Split u sep = [u].
Proof.
  induction u as [|c u IH]; simpl; [reflexivity|].
  intros H. apply orb_false_iff in H as [Hc Hu].
  rewrite Hc, (IH Hu). reflexivity.
Qed.

Lemma Split_app_sep (u t : string) (sep : ascii) :
  strings.ContainsRune u sep = false ->
  strings.Split (u ++ String sep t) sep = u :: strings.Split t sep.
Proof.
  induction u as [|c u IH]; simpl.
  - intros _. now rewrite Ascii.eqb_refl.
  - intros H. apply orb_false_iff in H as [Hc Hu].
    rewrite Hc, (IH Hu). reflexivity.
Qed.

Lemma Split_Join (u : string) (us : list string) (sep : ascii) :
  Forall (fun w => strings.ContainsRune w sep = false) (u :: us) ->
  strings.Split (strings.Join (u :: us) (String sep "")) sep = u :: us.
Proof.
  revert u; induction us as [|u' us IH]; intros u H.
  - apply Split_nosep. now inversion H.
  - change (strings.Join (u :: u' :: us) (String sep ""))
      with (u ++ String sep (strings.Join (u' :: us) (String sep ""))).
    inversion H as [|? ? Hu Hrest]; subst.
    rewrite (Split_app_sep _ _ _ Hu), (IH u' Hrest). reflexivity.
Qed.

Lemma lower_word_back (s : string) (prev : ascii) :
  all_lower s = true -> strings.isSeparator prev = false ->
  strings.Title_from prev (strings.ToLower (strings.Map fwd s)) = s
  /\ strings.ContainsRune (strings.Map fwd s) "_" = false.
Proof.
  revert prev; induction s as [|c s IH]; intros prev Hs Hp; simpl; [now split|].
  simpl in Hs. apply andb_true_iff in Hs as [Hc Hs].
  destruct (fwd_lower_back c Hc) as (Hl & Hu & Hsep).
  rewrite Hp, Hl, Hu.
  destruct (IH c Hs Hsep) as [E1 E2].
  unfold strings.ToLower in E1. rewrite E1, E2. now split.
Qed.

Lemma title_word_back (w : string) :
  TitleWord w = true ->
  strings.Title (strings.ToLower (strings.Map fwd w)) = w
  /\ strings.ContainsRune (strings.Map fwd w) "_" = false.
Proof.
  destruct w as [|c s]; [discriminate|]. simpl.
  intros H. apply andb_true_iff in H as [Hc Hs].
  destruct (fwd_upper_back c Hc) as (Hl & Hu & Hsep).
  unfold strings.Title. simpl. rewrite Hl, Hu.
  destruct (lower_word_back s _ Hs Hsep) as [E1 E2].
  unfold strings.ToLower in E1. rewrite E1, E2. now split.
Qed.

Lemma writeParts_back (ws : list string) :
  forallb TitleWord ws = true ->
  writeParts (map (strings.Map fwd) ws) = strings.Join ws "-".
Proof.
  induction ws as [|w ws IH]; [reflexivity|].
  intros H. simpl in H. apply andb_true_iff in H as [Hw Hws].
  destruct (title_word_back w Hw) as [E _].
  destruct ws as [|w' ws]; [exact E|].
  change (writeParts (map (strings.Map fwd) (w :: w' :: ws)))
    with (strings.Title (strings.ToLower (strings.Map fwd w)) ++ "-"
          ++ writeParts (map (strings.Map fwd) (w' :: ws))).
  rewrite E, (IH Hws). reflexivity.
Qed.

Lemma forward_key (ws : list string) (v : string) :
  WriteHeader_key (mkHeader 6 (httpKey ws) v)
  = Ok (SysAttributePrefix ++ strings.Join (map (strings.Map fwd) ws) "_").
Proof.
  unfold WriteHeader_key, httpKey. cbn [SystemPrefixLen Key].
  change (0 <? 6)%nat with true. cbv iota.
  rewrite length_app. change (String.length "Neofs-") with 6%nat.
  replace (6 + String.length (strings.Join ws "-") <? 6)%nat with false
    by (symmetry; apply Nat.ltb_ge; lia).
  change 6%nat with (String.length "Neofs-") at 1. rewrite drop_app.
  rewrite ToUpper_ReplaceAll, Map_app, Map_Join. reflexivity.
Qed.

Lemma backward_key (ws : list string) :
  forallb TitleWord ws = true ->
  systemBackwardTranslator (SysAttributePrefix ++ strings.Join (map (strings.Map fwd) ws) "_")
  = httpKey ws.
Proof.
  intros H. unfold systemBackwardTranslator, httpKey.
  change SystemAttributePrefix with SysAttributePrefix. rewrite TrimPrefix_app.
  destruct ws as [|w ws]; [reflexivity|].
  change (map (strings.Map fwd) (w :: ws))
    with (strings.Map fwd w :: map (strings.Map fwd) ws).
  rewrite Split_Join.
  - change (strings.Map fwd w :: map (strings.Map fwd) ws)
      with (map (strings.Map fwd) (w :: ws)).
    now rewrite writeParts_back.
  - change (strings.Map fwd w :: map (strings.Map fwd) ws)
      with (map (strings.Map fwd) (w :: ws)).
    apply Forall_forall. intros u Hu. apply in_map_iff in Hu as (x & <- & Hx).
    apply title_word_back. rewrite forallb_forall in H. now apply H.
Qed.

(** C9.  The key of a system attribute survives the round trip: for a key
    of the HTTP spelling [Neofs-] followed by hyphen-separated words, each an
    upper-case letter and then lower-case letters, [WriteHeader] called with
    the system prefix length of [Neofs-] stores the attribute under a key
    that [systemBackwardTranslator] maps back to the HTTP key. *)
Theorem C9_system_key_roundtrip :
  forall (ws : list string) (v : string) (attrs : list Attribute) (meta : HeadersMeta),
    forallb TitleWord ws = true ->
    exists k meta',
      WriteHeader attrs meta (mkHeader 6 (httpKey ws) v)
      = Ok ((attrs ++ [(k, v)])%list, meta')
      /\ systemBackwardTranslator k = httpKey ws.
Proof.
  intros ws v attrs meta H.
  unfold WriteHeader. rewrite forward_key. cbn [bind Value].
  eexists. eexists. split; [reflexivity|].
  now apply backward_key.
Qed.

(** The round trip on the key [Neofs-Expiration-Epoch]. *)
Lemma C9_witness :
  exists k meta',
    WriteHeader [] (mkMeta false false false)
                (mkHeader 6 (httpKey ["Expiration"; "Epoch"]) "42")
    = Ok (([] ++ [(k, "42")])%list, meta')
    /\ systemBackwardTranslator k = httpKey ["Expiration"; "Epoch"].
Proof.
  apply (C9_system_key_roundtrip ["Expiration"; "Epoch"] "42" [] (mkMeta false false false)).
  reflexivity.
Defined.

(* ------------------------------------------------------------------ *)
(** ** Header processing *)

Section HeaderProperties.

Context {L : GoLib} (W : World L) (U : Utils).

Lemma VisitAll_app (hs1 hs2 : list (string * string)) (st : headerState) :
  VisitAll W U (hs1 ++ hs2) st = (st' <- VisitAll W U hs1 st ;; VisitAll W U hs2 st').
Proof.
  revert st; induction hs1 as [|kv hs1 IH]; intros st; simpl; [reflexivity|].
  destruct (visitHeader W U st kv) as [st'|m]; simpl; [apply IH | reflexivity].
Qed.

Lemma visitHeader_empty (st : headerState) (k : string) :
  visitHeader W U st (k, "") = Ok st.
Proof.
  unfold visitHeader. now destruct (fail (hs_ctx st)).
Qed.

(** C10.  A request header with an empty value is skipped before anything
    is read from it or recorded: the closure leaves all of its state as it
    was, whatever the key (an attribute key, the name of an expiration
    form), so [processHeaders] ends as it does on the request without that
    header, with the same attributes, encountered flags and defaults. *)
Theorem C10_empty_value_header_skipped :
  forall (k : string) (st : headerState) (hs1 hs2 : list (string * string))
         (ctx : uploadContext),
    visitHeader W U st (k, "") = Ok st
    /\ VisitAll W U (hs1 ++ (k, "") :: hs2) (hs_init ctx)
       = VisitAll W U (hs1 ++ hs2) (hs_init ctx)
    /\ processHeaders W U (hs1 ++ (k, "") :: hs2) ctx
       = processHeaders W U (hs1 ++ hs2) ctx.
Proof.
  intros k st hs1 hs2 ctx.
  assert (E : VisitAll W U (hs1 ++ (k, "") :: hs2) (hs_init ctx)
              = VisitAll W U (hs1 ++ hs2) (hs_init ctx)).
  { rewrite !VisitAll_app.
    destruct (VisitAll W U hs1 (hs_init ctx)) as [st'|m]; [|reflexivity].
    cbn [bind].
    change (VisitAll W U ((k, "") :: hs2) st')
      with (st'' <- visitHeader W U st' (k, "") ;; VisitAll W U hs2 st'').
    now rewrite visitHeader_empty. }
  split; [apply visitHeader_empty | split; [exact E|]].
  unfold processHeaders. now rewrite E.
Qed.

End HeaderProperties.

Section ExpirationGuard.

Context {L : GoLib} (W : World L) (U : Utils).

(** The guard of [processHeaders] in front of the expiration forms: a form
    of lower priority than the one recorded, or any form once the
    expiration epoch attribute was met, leaves the recorded form, the
    duration and the context as they are. *)
Lemma expiration_guard_closed (st : headerState) (k v : string) :
  fail (hs_ctx st) = false ->
  v <> "" ->
  let key := strings.TrimPrefix k (UserAttributeHeaderPrefix U) in
  String.length key <> String.length k ->
  (0 < detectExpiration U key)%nat ->
  enc_expiration (hs_meta st) = true \/ (detectExpiration U key < exp_typ st)%nat ->
  exists st',
    visitHeader W U st (k, v) = Ok st'
    /\ exp_typ st' = exp_typ st /\ exp_dur st' = exp_dur st
    /\ hs_ctx st' = hs_ctx st /\ hs_meta st' = hs_meta st.
Proof.
  intros Hf Hv key Hk Hd Hguard.
  unfold visitHeader. rewrite Hf.
  destruct v as [|c v]; [now elim Hv|]. cbn [String.length Nat.eqb].
  fold key.
  destruct (Nat.eqb_spec (String.length key) (String.length k)) as [E|_]; [now elim Hk|].
  destruct (Nat.ltb_spec 0 (detectExpiration U key)) as [_|H0]; [|lia].
  destruct Hguard as [He|Hlt].
  - rewrite He. cbn [negb andb]. eexists. split; [reflexivity|]. now repeat split.
  - destruct (Nat.leb_spec (exp_typ st) (detectExpiration U key)) as [H1|_]; [lia|].
    rewrite andb_false_r. eexists. split; [reflexivity|]. now repeat split.
Qed.

(** The value of an expiration header has no part in what the closure
    does with it: any two values that are not empty give the same state,
    whatever the constants of [utils] are. *)
Lemma expiration_value_ignored (st : headerState) (k v v' : string) :
  v <> "" -> v' <> "" ->
  (0 < detectExpiration U (strings.TrimPrefix k (UserAttributeHeaderPrefix U)))%nat ->
  visitHeader W U st (k, v) = visitHeader W U st (k, v').
Proof.
  intros Hv Hv' Hd. unfold visitHeader.
  destruct v as [|c v]; [now elim Hv|]. destruct v' as [|c' v']; [now elim Hv'|].
  cbn [String.length Nat.eqb].
  destruct (Nat.ltb_spec 0
              (detectExpiration U (strings.TrimPrefix k (UserAttributeHeaderPrefix U))))
    as [_|H0]; [reflexivity | lia].
Qed.

(** Whatever [processHeaders] reports, the statements of [Upload] that
    follow it hand the object to the network. *)
Lemma storeObject_puts (req : Request) (ctx ctx' : uploadContext) :
  storeObject W U req ctx = Ok ctx' ->
  putInvoked (net_log (creator ctx')) = true.
Proof.
  unfold storeObject.
  destruct (srcPayload ctx); [|discriminate].
  destruct (processHeaders W U _ _) as [c|m]; [|discriminate]. cbn [bind].
  assert (P : putInvoked (net_log (snd (Close W (creator c)))) = true).
  { unfold Close, putInvoked.
    destruct (pool_PutObject W _); cbn [snd creator_log net_log];
      rewrite existsb_app; cbn; apply orb_true_r. }
  destruct (Close W (creator c)) as [[f id] x]. cbn [snd] in P.
  destruct id as [i|];
    match goal with
    | |- (if ?b then _ else _) = _ -> _ => destruct b
    end; intros E; inversion E; subst; exact P.
Qed.

End ExpirationGuard.

(** [initPayloadSource] never returns without the failure flag: the loop
    has no exit but the one taken on an error of [NextPart]. *)
Lemma initPayloadSource_fail (body : Body) (ctx : uploadContext) :
  fail (initPayloadSource body ctx) = true.
Proof.
  unfold initPayloadSource.
  generalize (parts_end body). intros fin.
  revert ctx. induction (parts body) as [|p ps IH]; intros ctx; cbn [initPayloadSource_loop].
  - reflexivity.
  - destruct ((FormName p =? "") || (FileName p =? "")); apply IH.
Qed.

(** The payload source that [initPayloadSource] leaves is the last usable
    part, not the first. *)
Lemma initPayloadSource_last (ps : list Part) (fin : string) (p : Part) (ctx : uploadContext) :
  (FormName p =? "") || (FileName p =? "") = false ->
  srcPayload (initPayloadSource_loop (ps ++ [p]) fin ctx) = Some p.
Proof.
  intros Hp. revert ctx. induction ps as [|q ps IH]; intros ctx; cbn.
  - now rewrite Hp.
  - destruct ((FormName q =? "") || (FileName q =? "")); apply IH.
Qed.

Lemma initPayloadSource_keeps (body : Body) (ctx : uploadContext) :
  out (initPayloadSource body ctx) = out ctx
  /\ creator (initPayloadSource body ctx) = creator ctx.
Proof.
  unfold initPayloadSource.
  generalize (parts_end body). intros fin.
  revert ctx. induction (parts body) as [|p ps IH]; intros ctx; cbn [initPayloadSource_loop].
  - now split.
  - destruct ((FormName p =? "") || (FileName p =? ""));
      match goal with |- context [initPayloadSource_loop _ _ ?c] =>
        destruct (IH c) as [E1 E2]; rewrite E1, E2 end; now split.
Qed.

(** As a consequence every upload is answered with a client error before
    [processHeaders] is reached, and nothing is sent to the network. *)
Lemma Upload_always_rejected {L : GoLib} (W : World L) (U : Utils)
      (o : string) (d : bool) (req : Request) :
  exists ctx msg,
    Upload W U o d req = Ok ctx
    /\ out ctx = [RError msg StatusBadRequest]
    /\ net_log (creator ctx) = [].
Proof.
  unfold Upload. cbn [creator resp_ContainerID fail err].
  unfold IntoContainer. cbn.
  destruct (cid_Parse L (uv_cid req)); cbn.
  2:{ eexists; eexists; split; [reflexivity|]. now split. }
  destruct (ReadBearer L (req_header req)) as [code enc].
  destruct (code =? -1)%Z.
  { eexists; eexists; split; [reflexivity|]. now split. }
  destruct (code =? 1)%Z.
  - unfold UseBearerToken. cbn.
    destruct (bearer_UnmarshalJSON L _); cbn.
    + rewrite initPayloadSource_fail.
      eexists; eexists; split; [reflexivity|].
      unfold failRequest, emit. cbn [out creator].
      match goal with |- context [initPayloadSource _ ?c] =>
        destruct (initPayloadSource_keeps (req_body req) c) as [E1 E2] end.
      rewrite E1, E2. now split.
    + eexists; eexists; split; [reflexivity|]. now split.
  - cbn. rewrite initPayloadSource_fail.
    eexists; eexists; split; [reflexivity|].
    unfold failRequest, emit. cbn [out creator].
    match goal with |- context [initPayloadSource _ ?c] =>
      destruct (initPayloadSource_keeps (req_body req) c) as [E1 E2] end.
    rewrite E1, E2. now split.
Qed.

(* ------------------------------------------------------------------ *)
(** ** The upload on concrete requests *)

(** C1.  The priority among the expiration forms is applied to the wrong
    value: the closure parses [hdr.Value], which is assigned only after the
    expiration branch has returned, so it still holds the value of the last
    attribute header written.  On the headers [X-Attribute-Foo: 2h],
    [X-Attribute-Expiration-Duration: 1h],
    [X-Attribute-Expiration-Timestamp: 1900000000] the duration form wins,
    as it should, but the duration recorded is two hours, and the epoch
    attached is the one of two hours; a request whose only attribute header
    is the duration form of one hour is refused. *)
Theorem C1_expiration_parsed_from_stale_value :
  (exists st,
      VisitAll Sample.world Sample.utils Sample.staleHeaders
               (hs_init Sample.boundCtx) = Ok st
      /\ exp_typ st = expirationDuration
      /\ exp_dur st = (2 * Sample.hour)%Z
      /\ exp_dur st <> Sample.hour)
  /\ (exists ctx,
         processHeaders Sample.world Sample.utils Sample.staleHeaders
                        Sample.boundCtx = Ok ctx
         /\ fail ctx = false
         /\ lookup (attrs (creator ctx)) SysAttributeExpEpoch
            = Some (FormatUint (100 + Milliseconds (2 * Sample.hour) * 240 / 1000)))
  /\ (exists ctx,
         processHeaders Sample.world Sample.utils
                        [("X-Attribute-Expiration-Duration", "1h")]
                        Sample.boundCtx = Ok ctx
         /\ fail ctx = true
         /\ out ctx = [RError "problem with expiration header, try expiration in epoch"
                              StatusBadRequest]).
Proof.
  split; [|split].
  - eexists. split; [vm_compute; reflexivity|].
    repeat split; vm_compute; congruence.
  - eexists. split; [vm_compute; reflexivity|]. now vm_compute.
  - eexists. split; [vm_compute; reflexivity|]. now vm_compute.
Qed.

(** C2.  A body with one usable part (form name [file], file name
    [a.txt]) does not bind a payload successfully: [initPayloadSource] goes
    on to ask for the next part, the end of the body sets the failure flag,
    and [Upload] answers [receive multipart/form].  With two usable parts
    the payload source is the second one. *)
Theorem C2_usable_part_is_refused :
  fail (initPayloadSource (mkBody [Sample.filePart] "EOF") Sample.initCtx) = true
  /\ (exists ctx,
         Upload Sample.world Sample.utils "owner" false
                (mkRequest Sample.cid (mkRequestHeader [] [])
                           (mkBody [Sample.filePart] "EOF")) = Ok ctx
         /\ out ctx = [RError "receive multipart/form" StatusBadRequest])
  /\ srcPayload (initPayloadSource (mkBody [Sample.filePart; Sample.otherPart] "EOF")
                                   Sample.initCtx)
     = Some Sample.otherPart.
Proof.
  split; [reflexivity|split; [|reflexivity]].
  eexists. split; vm_compute; reflexivity.
Qed.

(** Taken by themselves, the statements of [Upload] behind the binding of
    the payload do not stop at a refused expiration: for the headers
    [X-Attribute-Foo: -1h] and [X-Attribute-Expiration-Duration: -1h]
    [processHeaders] reports the expiration error, and [Close] is called all
    the same.  No call of [Upload] gets that far. *)
Lemma storeObject_after_refused_expiration :
  exists ctx,
    storeObject Sample.world Sample.utils Sample.pastExpiration Sample.boundCtx
    = Ok ctx
    /\ out ctx
       = [RError "problem with expiration header, try expiration in epoch" StatusBadRequest;
          RError "store file in NeoFS failed" StatusBadRequest]
    /\ putInvoked (net_log (creator ctx)) = true.
Proof.
  eexists. split; [vm_compute; reflexivity|]. split; reflexivity.
Qed.

(** C3.  An upload request with an expiration header that does not parse,
    or whose expiration is not strictly in the future, is answered with one
    client error (status 400), and the object-put operation is not invoked:
    nothing at all is asked of the network for it.  [Upload] returns before
    [processHeaders] and [Close] are reached, at the latest behind
    [initPayloadSource], which leaves the failure flag set for every body;
    so the error reported is the one of that stage, not the one of the
    expiration. *)
Theorem C3_invalid_expiration_never_puts :
  forall (L : GoLib) (W : World L) (U : Utils) (o : string) (d : bool) (req : Request),
    presentsInvalidExpiration W U req ->
    exists ctx msg,
      Upload W U o d req = Ok ctx
      /\ out ctx = [RError msg StatusBadRequest]
      /\ putInvoked (net_log (creator ctx)) = false
      /\ net_log (creator ctx) = [].
Proof.
  intros L W U o d req _.
  unfold Upload. cbn [creator resp_ContainerID fail err].
  unfold IntoContainer. cbn.
  destruct (cid_Parse L (uv_cid req)); cbn.
  2:{ eexists; eexists; split; [reflexivity|]. now repeat split. }
  destruct (ReadBearer L (req_header req)) as [code enc].
  destruct (code =? -1)%Z.
  { eexists; eexists; split; [reflexivity|]. now repeat split. }
  assert (Stop : forall c : uploadContext,
             net_log (creator c) = [] -> out c = [] ->
             exists ctx msg,
               (if fail (initPayloadSource (req_body req) c)
                then Ok (failRequest (initPayloadSource (req_body req) c)
                                     "receive multipart/form")
                else storeObject W U req (initPayloadSource (req_body req) c)) = Ok ctx
               /\ out ctx = [RError msg StatusBadRequest]
               /\ putInvoked (net_log (creator ctx)) = false
               /\ net_log (creator ctx) = []).
  { intros c Hlog Hout. rewrite initPayloadSource_fail.
    destruct (initPayloadSource_keeps (req_body req) c) as [E1 E2].
    eexists; eexists; split; [reflexivity|].
    unfold failRequest, emit. cbn [out creator].
    rewrite E1, E2, Hout, Hlog. now repeat split. }
  destruct (code =? 1)%Z.
  - unfold UseBearerToken. cbn.
    destruct (bearer_UnmarshalJSON L _); cbn.
    + apply Stop; reflexivity.
    + eexists; eexists; split; [reflexivity|]. now repeat split.
  - cbn. apply Stop; reflexivity.
Qed.

(** C3 on the upload whose expiration is an hour in the past. *)
Lemma C3_witness :
  exists ctx msg,
    Upload Sample.world Sample.utils "owner" false Sample.pastExpiration = Ok ctx
    /\ out ctx = [RError msg StatusBadRequest]
    /\ putInvoked (net_log (creator ctx)) = false
    /\ net_log (creator ctx) = [].
Proof.
  apply (C3_invalid_expiration_never_puts Sample.lib Sample.world Sample.utils
           "owner" false Sample.pastExpiration).
  exists "X-Attribute-Expiration-Duration", "-1h".
  split; [right; left; reflexivity|].
  right. right. split; [reflexivity|]. vm_compute. discriminate.
Defined.

(* ------------------------------------------------------------------ *)
(** ** The owner header of a download *)

Lemma runProg_selector {L : GoLib} (U : Utils) (p : ReadProg L) (x : ResRead) :
  rr_selector (runProg U p x) = rr_selector x /\ rr_head (runProg U p x) = rr_head x.
Proof.
  revert x; induction p as
    [ | k IH | k IH | k IH | k IH | hdr k IH | dst k IH | t k IH | k IH | ct k IH
      | sz k IH | k IH | n k IH | k IH | id k IH ]; intros x; cbn [runProg];
    try (now split);
    try (destruct (IH x) as [E1 E2]; now split);
    try (match goal with |- context [runProg U (k ?b) x] =>
           destruct (IH b x) as [E1 E2]; now split end);
    match goal with |- context [runProg U k ?y] =>
      destruct (IH y) as [E1 E2]; rewrite E1, E2 end;
    unfold WriteFilename; try destruct (rr_download x); now split.
Qed.

(** Every [ResRead] that [read] hands to [ReadNext] has the zero selector,
    whatever the selector of the request, so [WaitingOwner] answers true. *)
Lemma readLoop_selector {L : GoLib} (U : Utils) (rObj : ObjectReader L)
      (fuel sel : nat) (head : bool) (i : nat) (x x' : ResRead) :
  readLoop U rObj fuel sel head i x = Some x' ->
  rr_selector x' = rr_selector x.
Proof.
  revert i x; induction fuel as [|fuel IH]; intros i x; cbn [readLoop]; [discriminate|].
  destruct (runProg_selector U (ReadNext rObj sel head i) x) as [E _].
  destruct (rr_status (runProg U (ReadNext rObj sel head i) x)) as [|[|[|[|n]]]];
    intros H; try (apply IH in H; congruence); inversion H; subst; cbn; congruence.
Qed.




(** The zero selector that [read] leaves in the [ResRead] makes the answer
    true for a call with [byFile] as well, which no handler makes: the
    sample reader, which writes the owner when it is awaited, writes it
    there too. *)
Lemma read_leaves_selector_unset :
  WaitingOwner (mkResRead false 0 0 false []) = true
  /\ read Sample.utils Cases.ownerReader 1 Cases.byPrefixRequest byFile false
     = Some [RHeaderSet "X-Owner-Id" "owner-id";
             RHeaderSet "X-Container-Id" Sample.cid]
  /\ DownloadByAddress Sample.utils Cases.ownerReader 1 Cases.byPrefixRequest
     = Some [RHeaderSet "X-Object-Id" "";
             RHeaderSet "X-Owner-Id" "owner-id";
             RHeaderSet "X-Container-Id" Sample.cid].
Proof.
  split; [reflexivity|]. split; vm_compute; reflexivity.
Qed.


(* ------------------------------------------------------------------ *)
(** ** Bearer tokens *)

(** C7, as stated, fails for [fetchBearerToken]: with an [Authorization]
    value that is not base64 and a [Bearer] cookie that holds a token, the
    loop goes on to the cookie and returns its token without an error. *)
Lemma C7_counterexample :
  ~ fetchReportsMalformed Sample.lib Cases.badHeaderGoodCookie.
Proof.
  intros H.
  apply (H "!!!"); [reflexivity | left; reflexivity | reflexivity].
Qed.

Section Bearer.

Context {L : GoLib} (W : World L) (U : Utils).

Lemma ReadBearer_presented (h : RequestHeader) (v : string) :
  presentedBearer h = Some v ->
  ReadBearer L h
  = (if snd (base64_Decode L v) then 1%Z else (-1)%Z, Some (decodedBearer L v)).
Proof.
  unfold presentedBearer, ReadBearer, decodedBearer. intros E.
  destruct (Peek h HeaderAuthorization) as [a|].
  - destruct (strings.HasPrefix a (bearerTokenHdr ++ " ")).
    + inversion E; subst. now destruct (base64_Decode L _) as [w []].
    + rewrite E. now destruct (base64_Decode L v) as [w []].
  - rewrite E. now destruct (base64_Decode L v) as [w []].
Qed.

Lemma ReadBearer_absent (h : RequestHeader) :
  presentedBearer h = None -> ReadBearer L h = (0%Z, None).
Proof.
  unfold presentedBearer, ReadBearer. intros E.
  destruct (Peek h HeaderAuthorization) as [a|].
  - destruct (strings.HasPrefix a (bearerTokenHdr ++ " ")); [discriminate|].
    now rewrite E.
  - now rewrite E.
Qed.

Lemma fetch_all_malformed (handlers : list (RequestHeader -> option string))
      (h : RequestHeader) (lastErr : option string) :
  (forall p b, In p handlers -> p h = Some b -> malformedBinary L b) ->
  exists e',
    fetchBearerToken_loop L handlers h lastErr = (None, e')
    /\ ((exists p, In p handlers /\ p h <> None) -> e' <> None)
    /\ (lastErr <> None -> e' <> None).
Proof.
  revert lastErr; induction handlers as [|p ps IH]; intros lastErr Hall.
  - exists lastErr. split; [reflexivity|]. split; [intros (? & [] & _) | auto].
  - assert (Hps : forall q b, In q ps -> q h = Some b -> malformedBinary L b)
      by (intros q b Hq; apply Hall; now right).
    cbn [fetchBearerToken_loop].
    destruct (p h) as [buf|] eqn:Ep.
    + assert (Next : exists e,
                 (let (data, ok) := base64_Decode L buf in
                  if negb ok
                  then fetchBearerToken_loop L ps h (Some "can't base64-decode bearer token")
                  else match bearer_Unmarshal L data with
                       | Some tkn => (Some tkn, None)
                       | None => fetchBearerToken_loop L ps h
                                   (Some "can't unmarshal bearer token")
                       end)
                 = fetchBearerToken_loop L ps h (Some e)).
      { destruct (Hall p buf (or_introl eq_refl) Ep) as [Hb|Hb];
          destruct (base64_Decode L buf) as [data ok]; cbn [fst snd] in Hb.
        - subst ok. eexists; reflexivity.
        - destruct ok; cbn [negb]; [rewrite Hb|]; eexists; reflexivity. }
      destruct Next as [e ->].
      destruct (IH (Some e) Hps) as (e' & E & _ & Hlast).
      exists e'. split; [exact E|].
      assert (e' <> None) by (apply Hlast; discriminate). now split.
    + destruct (IH lastErr Hps) as (e' & E & Hpres & Hlast).
      exists e'. split; [exact E|]. split; [|exact Hlast].
      intros (q & [<-|Hq] & Hne); [now elim Hne|].
      apply Hpres. now exists q.
Qed.

(** C7, amended.  In the chain of [ReadBearer] a presented value gives the
    code -1 when it is not base64 and the code 1 otherwise, never the code 0
    of an absent token.  [Upload] answers a value that is not base64, and
    one that decodes but is not a token, with one client error and asks
    nothing of the network, the token not being set; once the container ID
    was accepted the answer is [incorrect bearer token header] for the first
    and [incorrect bearer token JSON] for the second.  [Downloader.read]
    answers a value that is not base64, and one that the reader's
    [UseBearerToken] refuses, with the same client errors, before anything
    is selected or read, for every selector, for GET and for HEAD.  In the
    chain of [fetchBearerToken] an error is reported, unlike for an absent
    token, when a value is presented and every value presented, in the
    header and in the cookie, is malformed. *)
Theorem C7_malformed_bearer_rejected :
  forall (o : string) (d : bool) (req : Request) (v : string),
    presentedBearer (req_header req) = Some v ->
    (fst (ReadBearer L (req_header req)) <> 0%Z
     /\ (snd (base64_Decode L v) = false -> fst (ReadBearer L (req_header req)) = (-1)%Z)
     /\ (snd (base64_Decode L v) = true -> fst (ReadBearer L (req_header req)) = 1%Z))
    /\ (snd (base64_Decode L v) = false
        \/ bearer_UnmarshalJSON L (decodedBearer L v) = None ->
        exists ctx msg,
          Upload W U o d req = Ok ctx
          /\ out ctx = [RError msg StatusBadRequest]
          /\ (cid_Parse L (uv_cid req) = true ->
              msg = (if snd (base64_Decode L v) then "incorrect bearer token JSON"
                     else "incorrect bearer token header"))
          /\ net_log (creator ctx) = []
          /\ bearerTokenSet (creator ctx) = false)
    /\ (forall (rObj : ObjectReader L) (fuel : nat) (c : DRequest) (selector : nat)
               (head : bool),
           d_header c = req_header req ->
           snd (base64_Decode L v) = false
           \/ OR_UseBearerToken rObj (decodedBearer L v) = true ->
           exists msg,
             read U rObj fuel c selector head = Some [RError msg StatusBadRequest]
             /\ (FromContainer rObj (d_cid c) = false ->
                 msg = (if snd (base64_Decode L v) then "incorrect bearer token JSON"
                        else "incorrect bearer token header")))
    /\ ((forall b, BearerTokenFromHeader (req_header req) = Some b -> malformedBinary L b) ->
        (forall b, BearerTokenFromCookie (req_header req) = Some b -> malformedBinary L b) ->
        BearerTokenFromHeader (req_header req) <> None
        \/ BearerTokenFromCookie (req_header req) <> None ->
        exists e, fetchBearerToken L (Some (req_header req)) = (None, Some e)
                  /\ StoreBearerToken L (req_header req) = (Some e, None)).
Proof.
  intros o d req v Hv.
  pose proof (ReadBearer_presented _ _ Hv) as ER.
  split; [|split; [|split]].
  - split; [|split].
    + rewrite ER. cbn [fst]. now destruct (snd (base64_Decode L v)).
    + intros Hb. rewrite ER, Hb. reflexivity.
    + intros Hb. rewrite ER, Hb. reflexivity.
  - intros Hbad.
    unfold Upload. cbn [creator resp_ContainerID fail err].
    unfold IntoContainer. cbn.
    destruct (cid_Parse L (uv_cid req)); cbn.
    2:{ eexists; eexists; split; [reflexivity|].
        split; [reflexivity|]. split; [discriminate|]. now split. }
    rewrite ER.
    destruct (snd (base64_Decode L v)) eqn:Hd; cbn.
    + destruct Hbad as [Hbad|Hbad]; [discriminate|].
      unfold UseBearerToken. rewrite Hbad. cbn.
      eexists; eexists; split; [reflexivity|]. now repeat split.
    + eexists; eexists; split; [reflexivity|]. now repeat split.
  - intros rObj fuel c selector head Hh Hbad.
    unfold read. rewrite Hh, ER.
    destruct (FromContainer rObj (d_cid c)).
    { eexists. split; [reflexivity | discriminate]. }
    destruct (snd (base64_Decode L v)) eqn:Hd; cbn.
    + destruct Hbad as [Hbad|Hbad]; [discriminate|].
      rewrite Hbad. eexists. split; reflexivity.
    + eexists. split; reflexivity.
  - intros HH HC Hsome.
    destruct (fetch_all_malformed
                [BearerTokenFromHeader; BearerTokenFromCookie] (req_header req) None)
      as (e' & E & Hpres & _).
    { intros p b [<-|[<-|[]]]; [apply HH | apply HC]. }
    destruct e' as [e|].
    + exists e. unfold StoreBearerToken, fetchBearerToken. rewrite E. now split.
    + exfalso. apply Hpres; [|reflexivity].
      destruct Hsome as [Hn|Hn].
      * exists BearerTokenFromHeader. split; [now left | exact Hn].
      * exists BearerTokenFromCookie. split; [right; now left | exact Hn].
Qed.

End Bearer.

(** The amended C7 on a header whose value decodes to [{}], which is not
    a token: the upload and the download by ID are refused, and
    [fetchBearerToken] reports an error. *)
Lemma C7_witness :
  fst (ReadBearer Sample.lib Cases.notJSON) = 1%Z
  /\ (exists ctx,
         Upload Sample.world Sample.utils "owner" false
                (mkRequest Sample.cid Cases.notJSON (mkBody [Sample.filePart] "EOF"))
         = Ok ctx
         /\ out ctx = [RError "incorrect bearer token JSON" StatusBadRequest]
         /\ net_log (creator ctx) = []
         /\ bearerTokenSet (creator ctx) = false)
  /\ read Sample.utils Cases.strictReader 1
          (mkDRequest Sample.cid "oid" "" "" "" Cases.notJSON false) byID false
     = Some [RError "incorrect bearer token JSON" StatusBadRequest]
  /\ exists e, fetchBearerToken Sample.lib (Some Cases.notJSON) = (None, Some e)
               /\ StoreBearerToken Sample.lib Cases.notJSON = (Some e, None).
Proof.
  destruct (C7_malformed_bearer_rejected Sample.world Sample.utils "owner" false
              (mkRequest Sample.cid Cases.notJSON (mkBody [Sample.filePart] "EOF"))
              "e30=" eq_refl)
    as ((_ & _ & Hcode) & Hup & Hread & Hfetch).
  split; [exact (Hcode eq_refl)|]. split; [|split].
  - destruct (Hup (or_intror eq_refl)) as (ctx & msg & E & Ho & Hm & Hl & Hb).
    exists ctx. rewrite (Hm eq_refl) in Ho. now repeat split.
  - destruct (Hread Cases.strictReader 1%nat
                    (mkDRequest Sample.cid "oid" "" "" "" Cases.notJSON false)
                    byID false eq_refl (or_intror eq_refl))
      as (msg & E & Hm).
    rewrite E, (Hm eq_refl). reflexivity.
  - apply Hfetch.
    + intros b E. vm_compute in E. inversion E. right. reflexivity.
    + intros b E. vm_compute in E. discriminate E.
    + left. vm_compute. discriminate.
Defined.

(* ------------------------------------------------------------------ *)
(** ** The expiration epoch *)

Lemma iterateEpochDuration_find (ps : list (string * string)) (b : bool) (z : Z) :
  snd (iterateEpochDuration ps (b, z))
  = match find (fun kv => fst kv =? "EpochDuration") ps with
    | Some (_, v) => le_bytes 8 v
    | None => z
    end.
Proof.
  revert b; induction ps as [|[k v] ps IH]; intros b; cbn; [reflexivity|].
  destruct (k =? "EpochDuration"); [reflexivity | apply IH].
Qed.

Lemma le_bytes_nonneg (n : nat) (s : string) : (0 <= le_bytes n s)%Z.
Proof.
  revert s; induction n as [|n IH]; intros s; cbn [le_bytes]; [lia|].
  destruct s as [|c s]; [lia|]. specialize (IH s). lia.
Qed.

Ltac pow_consts :=
  change (2 ^ 64)%Z with 18446744073709551616%Z in *;
  change (2 ^ 63)%Z with 9223372036854775808%Z in *.

Lemma uint64_small (z : Z) : (0 <= z < 2 ^ 64)%Z -> uint64 z = z.
Proof. intros H. unfold uint64. now apply Z.mod_small. Qed.

Lemma Milliseconds_bounds (d : Z) :
  (0 <= d < 2 ^ 63)%Z -> (0 <= Milliseconds d < 2 ^ 64)%Z.
Proof.
  intros H. unfold Milliseconds. pow_consts.
  rewrite Z.quot_div_nonneg by lia.
  split; [apply Z.div_pos; lia|].
  apply Z.le_lt_trans with d; [|lia].
  apply Z.div_le_upper_bound; lia.
Qed.

(** C4, as stated, fails when the 64-bit product wraps around: with the
    parameter [EpochDuration] at 2^63 and a duration of one hour the
    product is zero modulo 2^64 and the epoch attached is the current
    one. *)
Lemma C4_counterexample :
  ~ attachesExactEpoch Cases.hugeWorld Cases.emptyCreator Sample.hour.
Proof.
  intros H. destruct (H _ eq_refl) as (x' & E & A).
  vm_compute in E. inversion E; subst x'.
  vm_compute in A. discriminate A.
Qed.

(** C4, amended.  For a duration of [int64] that is not negative, a
    positive [MsPerBlock], and as long as neither the product
    [duration_ms * EpochDuration] nor the resulting epoch exceeds 64 bits,
    [ExpireAfter] attaches the attribute of the expiration epoch with the
    value [current_epoch + floor(duration_ms * EpochDuration / ms_per_block)],
    read from the network info it fetches; when the network has no
    [EpochDuration] parameter this is the current epoch. *)
Theorem C4_expiration_epoch :
  forall (L : GoLib) (W : World L) (x : objectCreator) (expDur : Z) (ni : NetworkInfo),
    pool_Connection W = true ->
    conn_NetworkInfo W = Some ni ->
    (0 <= expDur < 2 ^ 63)%Z ->
    (0 < MsPerBlock ni < 2 ^ 63)%Z ->
    (0 <= CurrentEpoch ni)%Z ->
    (Milliseconds expDur * EpochDurationParam (Parameters ni) < 2 ^ 64)%Z ->
    (exactEpoch ni expDur < 2 ^ 64)%Z ->
    ExpireAfter W x expDur
    = Ok (false,
          creator_set_attrs (creator_log x EvNetworkInfo)
            (attrs x ++ [(SysAttributeExpEpoch, FormatUint (exactEpoch ni expDur))])%list)
    /\ (find (fun kv => fst kv =? "EpochDuration") (Parameters ni) = None ->
        exactEpoch ni expDur = CurrentEpoch ni).
Proof.
  intros L W x expDur ni Hc Hn Hd Hm He Hp Hs.
  assert (HE : (0 <= EpochDurationParam (Parameters ni))%Z).
  { unfold EpochDurationParam.
    destruct (find _ _) as [[k v]|]; [apply le_bytes_nonneg | lia]. }
  pose proof (Milliseconds_bounds expDur Hd) as Hms.
  pow_consts.
  split.
  - unfold ExpireAfter. rewrite Hc, Hn. cbn [negb].
    unfold expirationEpoch.
    rewrite (iterateEpochDuration_find (Parameters ni) false 0).
    fold (EpochDurationParam (Parameters ni)).
    rewrite (uint64_small (MsPerBlock ni)) by lia.
    destruct (Z.eqb_spec (MsPerBlock ni) 0) as [E0|_]; [lia|].
    rewrite (uint64_small (Milliseconds expDur)) by lia.
    rewrite (uint64_small (Milliseconds expDur * EpochDurationParam (Parameters ni)))
      by (split; [apply Z.mul_nonneg_nonneg; lia | lia]).
    fold (exactEpoch ni expDur).
    rewrite (uint64_small (exactEpoch ni expDur)).
    + reflexivity.
    + split; [|lia]. unfold exactEpoch.
      apply Z.add_nonneg_nonneg; [lia|].
      apply Z.div_pos; [apply Z.mul_nonneg_nonneg; lia | lia].
  - intros Hnone. unfold exactEpoch, EpochDurationParam. rewrite Hnone.
    rewrite Z.mul_0_r, Z.div_0_l by lia. lia.
Qed.

(** The amended C4 on a network with [EpochDuration] 240 and a duration
    of one hour. *)
Lemma C4_witness :
  ExpireAfter Sample.world Cases.emptyCreator Sample.hour
  = Ok (false,
        creator_set_attrs (creator_log Cases.emptyCreator EvNetworkInfo)
          (attrs Cases.emptyCreator
           ++ [(SysAttributeExpEpoch, FormatUint (exactEpoch Sample.netInfo Sample.hour))])%list)
  /\ (find (fun kv => fst kv =? "EpochDuration") (Parameters Sample.netInfo) = None ->
      exactEpoch Sample.netInfo Sample.hour = CurrentEpoch Sample.netInfo).
Proof.
  apply (C4_expiration_epoch Sample.lib Sample.world Cases.emptyCreator
           Sample.hour Sample.netInfo).
  - reflexivity.
  - reflexivity.
  - vm_compute. split; [discriminate | reflexivity].
  - vm_compute. split; reflexivity.
  - vm_compute. discriminate.
  - vm_compute. reflexivity.
  - vm_compute. reflexivity.
Defined.

(* ------------------------------------------------------------------ *)
(** ** The content-type sniffer *)

Lemma zeros_length (n : nat) : String.length (zeros n) = n.
Proof. induction n as [|n IH]; cbn; [reflexivity | now rewrite IH]. Qed.

Lemma take_app_length (a b : string) : take (String.length a) (a ++ b) = a.
Proof.
  induction a as [|c a IH]; cbn; [now destruct b | now rewrite IH].
Qed.

Lemma take_nil (n : nat) : take n "" = "".
Proof. now destruct n. Qed.

Lemma drop_nil (n : nat) : strings.drop n "" = "".
Proof. now destruct n. Qed.

Lemma drop_drop (a b : nat) (s : string) :
  strings.drop a (strings.drop b s) = strings.drop (b + a) s.
Proof.
  revert s; induction b as [|b IH]; intros s; cbn; [reflexivity|].
  destruct s as [|c s]; [now rewrite drop_nil | apply IH].
Qed.

Lemma drop_take_length (n : nat) (s : string) :
  strings.drop (String.length (take n s)) s = strings.drop n s.
Proof.
  revert s; induction n as [|n IH]; intros [|c s]; cbn; try reflexivity. apply IH.
Qed.

(** One [Read] of a stream delivers a prefix of what is left. *)
Lemma Stream_Read_spec (r r' : Stream) (n : nat) (p : string) (e : ioerr) :
  Stream_Read r n = (p, e, r') ->
  p ++ rest r' = rest r
  /\ broken r' = broken r
  /\ (String.length p <= n)%nat
  /\ (String.length p + String.length (rest r') + List.length (short r')
      <= String.length (rest r) + List.length (short r))%nat
  /\ (e = NoErr \/ (e = final r /\ rest r' = ""))
  /\ (e = NoErr -> (0 < n)%nat ->
      (String.length (rest r') + List.length (short r')
       < String.length (rest r) + List.length (short r))%nat)
  /\ (short r = [] -> p = take n (rest r)).
Proof.
  unfold Stream_Read.
  destruct (rest r) as [|c s] eqn:Er.
  - intros H; inversion H; subst. rewrite Er. cbn.
    repeat split; try lia.
    + right. now split.
    + intros Hn. unfold final in Hn. destruct (broken r'); discriminate.
    + intros _. now rewrite take_nil.
  - set (want := match short r with [] => n | k :: _ => Nat.min k n end).
    intros H.
    assert (Hp : p = take want (String c s)) by (now inversion H).
    assert (Hr : r' = mkStream (strings.drop want (String c s)) (tl (short r))
                               (eager r) (broken r)).
    { destruct (strings.drop want (String c s)); now inversion H. }
    assert (Hw : (want <= n)%nat) by (unfold want; destruct (short r); lia).
    assert (Hl : String.length p = Nat.min want (S (String.length s)))
      by (rewrite Hp; apply take_length).
    subst r'. cbn [rest short broken].
    pose proof (drop_length want (String c s)) as Hdl. cbn [String.length] in Hdl.
    assert (Htl : (List.length (tl (short r)) <= List.length (short r))%nat)
      by (destruct (short r); cbn; lia).
    split; [rewrite Hp; apply take_drop|].
    split; [reflexivity|].
    split; [lia|].
    split; [cbn [String.length]; lia|].
    split.
    { destruct (strings.drop want (String c s)) eqn:Ed.
      - destruct (eager r); inversion H; subst; [right | left]; now try split.
      - left. now inversion H. }
    split.
    { intros _ Hn. cbn [String.length].
      unfold want in *. destruct (short r) as [|k t]; cbn [tl List.length] in *; lia. }
    intros Hs. unfold want in Hp. now rewrite Hs in Hp.
Qed.

(** [ReadAll] drains any stream in [Stream_fuel] calls and ends with the
    final error of the stream. *)
Lemma ReadAll_Stream_final (fuel n : nat) (r : Stream) :
  (0 < n)%nat -> (Stream_fuel r <= fuel)%nat ->
  ReadAll fuel n r = Some (rest r, final r).
Proof.
  revert r; induction fuel as [|fuel IH]; intros r Hn Hf.
  - unfold Stream_fuel in Hf. lia.
  - cbn [ReadAll]. unfold io_Read, Stream_Reader.
    destruct (Stream_Read r n) as [[p e] r'] eqn:ER.
    destruct (Stream_Read_spec _ _ _ _ _ ER) as (Happ & Hbr & _ & _ & He & Hdec & _).
    destruct He as [->|[-> Hrest]].
    + rewrite IH.
      * rewrite Happ. unfold final. now rewrite Hbr.
      * exact Hn.
      * unfold Stream_fuel in *. specialize (Hdec eq_refl Hn). lia.
    + rewrite Hrest, append_nil_r in Happ. subst p.
      unfold final. now destruct (broken r).
Qed.

(** A stream that ends well is read to [EOF]. *)
Lemma ReadAll_Stream (fuel n : nat) (r : Stream) :
  broken r = None -> (0 < n)%nat -> (Stream_fuel r <= fuel)%nat ->
  ReadAll fuel n r = Some (rest r, EOF).
Proof.
  intros Hb Hn Hf. rewrite ReadAll_Stream_final by assumption.
  unfold final. now rewrite Hb.
Qed.

Lemma multiReader_Read_Stream (r : Stream) (n : nat) :
  multiReader_Read [OfStream r] n
  = let '(p, e, r') := Stream_Read r n in
    (p, e, if is_EOF e then [] else [OfStream r']).
Proof.
  cbn [multiReader_Read]. unfold io_Read, anyReader_Reader, anyReader_Read.
  unfold io_Read, Stream_Reader.
  destruct (Stream_Read r n) as [[p e] r'] eqn:ER.
  destruct e; destruct p as [|c p]; reflexivity.
Qed.

Lemma ReadAll_multi_Stream (fuel n : nat) (r : Stream) :
  ReadAll (R := multiReader) fuel n [OfStream r] = ReadAll fuel n r.
Proof.
  revert r; induction fuel as [|fuel IH]; intros r; [reflexivity|].
  cbn [ReadAll]. unfold io_Read at 1. unfold multiReader_Reader.
  rewrite multiReader_Read_Stream.
  unfold io_Read, Stream_Reader.
  destruct (Stream_Read r n) as [[p e] r'].
  destruct e; cbn [is_EOF]; try reflexivity.
  now rewrite IH.
Qed.

(** The stream rebuilt from a prefix held by an [errReader] and the rest
    of the wrapped stream. *)
Lemma ReadAll_multi (fuel n : nat) (data : string) (off : nat) (r : Stream) :
  broken r = None -> (0 < n)%nat ->
  (String.length data - off + Stream_fuel r <= fuel)%nat ->
  ReadAll (R := multiReader) fuel n
          [OfErrReader (mkErrReader data NoErr off); OfStream r]
  = Some (strings.drop off data ++ rest r, EOF).
Proof.
  intros Hb Hn. revert off; induction fuel as [|fuel IH]; intros off Hf.
  - unfold Stream_fuel in Hf. lia.
  - destruct (Nat.leb_spec (String.length data) off) as [Hle|Hlt].
    + (* the prefix is used up: the read falls through to the stream *)
      assert (E : multiReader_Read [OfErrReader (mkErrReader data NoErr off); OfStream r] n
                  = multiReader_Read [OfStream r] n).
      { cbn [multiReader_Read]. unfold io_Read at 1.
        unfold anyReader_Reader, anyReader_Read. unfold io_Read at 1.
        unfold errReader_Reader, errReader_Read. cbn [er_data er_offset].
        destruct (Nat.leb_spec (String.length data) off) as [_|H]; [|lia].
        reflexivity. }
      rewrite (drop_all off data Hle). cbn [append].
      rewrite <- (ReadAll_Stream (S fuel) n r Hb Hn) by lia.
      rewrite <- ReadAll_multi_Stream.
      cbn [ReadAll]. unfold io_Read, multiReader_Reader.
      now rewrite E.
    + (* a piece of the prefix is delivered *)
      cbn [ReadAll]. unfold io_Read at 1. unfold multiReader_Reader.
      cbn [multiReader_Read]. unfold io_Read at 1.
      unfold anyReader_Reader, anyReader_Read. unfold io_Read at 1.
      unfold errReader_Reader, errReader_Read. cbn [er_data er_offset er_err].
      destruct (Nat.leb_spec (String.length data) off) as [H|_]; [lia|].
      set (p := take n (strings.drop off data)).
      assert (Hp : (0 < String.length p)%nat).
      { unfold p. rewrite take_length, drop_length. lia. }
      assert (Hcont :
                ReadAll (R := multiReader) fuel n
                  [OfErrReader (mkErrReader data NoErr (off + String.length p)); OfStream r]
                = Some (strings.drop (off + String.length p) data ++ rest r, EOF))
        by (apply IH; lia).
      assert (Hjoin : p ++ strings.drop (off + String.length p) data ++ rest r
                      = strings.drop off data ++ rest r).
      { rewrite <- append_assoc. f_equal.
        rewrite <- drop_drop. unfold p. rewrite drop_take_length. apply take_drop. }
      unfold multiReader_Reader in Hcont.
      destruct (String.length data <=? off + String.length p)%nat;
        cbn [is_EOF negb orb andb];
        rewrite orb_true_r; cbn [is_EOF andb];
        rewrite Hcont, Hjoin; reflexivity.
Qed.

(** C6.  For a payload stream that ends without an error, whatever its
    length and however its reads fall short: [Detect] completes (the
    completion signal is given, no error is recorded) with the bytes of its
    single read, at most 512 and a prefix of the payload, the whole payload
    when that is shorter and delivered at once, and classifies them; and the
    reader that [MultiReader] builds yields, read to its end, exactly the
    bytes of the original payload. *)
Theorem C6_sniffer_reconstructs_stream :
  forall (L : GoLib) (r : Stream) (n fuel : nat),
    broken r = None -> (0 < n)%nat -> (Stream_fuel r <= fuel)%nat ->
    exists d mr,
      Detect L (SetReader newDetector r) = Ok d
      /\ det_done d = true /\ det_err d = NoErr
      /\ (String.length (det_data d) <= contentTypeDetectSize)%nat
      /\ (exists later, det_data d ++ later = rest r)
      /\ (short r = [] -> det_data d = take contentTypeDetectSize (rest r))
      /\ (short r = [] -> (String.length (rest r) <= contentTypeDetectSize)%nat ->
          det_data d = rest r)
      /\ det_contentType d = http_DetectContentType L (det_data d)
      /\ MultiReader d = Ok mr
      /\ ReadAll (R := multiReader) fuel n mr = Some (rest r, EOF)
      /\ ReadAll fuel n r = Some (rest r, EOF).
Proof.
  intros L r n fuel Hb Hn Hf.
  unfold Detect, SetReader, newDetector.
  cbn [det_Reader det_data det_err det_contentType det_done].
  rewrite zeros_length. unfold io_Read, Stream_Reader.
  destruct (Stream_Read r contentTypeDetectSize) as [[p e] r'] eqn:ER.
  destruct (Stream_Read_spec _ _ _ _ _ ER) as (Happ & Hbr & Hlen & Hfuel & He & _ & Hshort).
  rewrite take_app_length.
  assert (Hmulti :
            ReadAll (R := multiReader) fuel n
                    [OfErrReader (newReader p NoErr); OfStream r']
            = Some (rest r, EOF)).
  { unfold newReader. rewrite ReadAll_multi.
    - cbn [strings.drop]. now rewrite Happ.
    - congruence.
    - exact Hn.
    - unfold Stream_fuel in *. lia. }
  assert (Hwhole : short r = [] ->
                   (String.length (rest r) <= contentTypeDetectSize)%nat -> p = rest r).
  { intros Hs Hl. rewrite (Hshort Hs). now apply take_all. }
  assert (Hnoerr : e = NoErr \/ e = EOF).
  { destruct He as [->|[-> _]]; [now left | right].
    unfold final. now rewrite Hb. }
  destruct Hnoerr as [->| ->];
    (eexists; eexists; split; [reflexivity|];
     cbn [det_done det_err det_data det_contentType];
     repeat split; try reflexivity; try assumption;
     [ now exists (rest r') | now apply ReadAll_Stream ]).
Qed.

(** C6 on a payload of eight bytes delivered in pieces, read back with a
    buffer of three bytes. *)
Lemma C6_witness :
  exists d mr,
    Detect Sample.lib (SetReader newDetector Cases.shortPayload) = Ok d
    /\ det_done d = true /\ det_err d = NoErr
    /\ (String.length (det_data d) <= contentTypeDetectSize)%nat
    /\ (exists later, det_data d ++ later = rest Cases.shortPayload)
    /\ (short Cases.shortPayload = [] ->
        det_data d = take contentTypeDetectSize (rest Cases.shortPayload))
    /\ (short Cases.shortPayload = [] ->
        (String.length (rest Cases.shortPayload) <= contentTypeDetectSize)%nat ->
        det_data d = rest Cases.shortPayload)
    /\ det_contentType d = http_DetectContentType Sample.lib (det_data d)
    /\ MultiReader d = Ok mr
    /\ ReadAll (R := multiReader) 12 3 mr = Some (rest Cases.shortPayload, EOF)
    /\ ReadAll 12 3 Cases.shortPayload = Some (rest Cases.shortPayload, EOF).
Proof.
  apply (C6_sniffer_reconstructs_stream Sample.lib Cases.shortPayload 3 12).
  - reflexivity.
  - lia.
  - vm_compute. lia.
Defined.

(* ------------------------------------------------------------------ *)
(** ** The zip aggregator *)

Lemma fetchAll_length (W : ZipWorld) (ids : list string) (i : nat) (objs : list Object) :
  fetchAll W i ids = Some objs -> List.length objs = List.length ids.
Proof.
  revert i objs; induction ids as [|id ids IH]; intros i objs; cbn.
  - now intros [= <-].
  - destruct (pool_GetObject W i id); [|discriminate].
    destruct (fetchAll W (S i) ids) eqn:E; [|discriminate].
    intros [= <-]. cbn. f_equal. now apply (IH (S i)).
Qed.

(** A successful [io.Copy] into the entry just created leaves the whole
    payload in it. *)
Lemma io_Copy_ok (ok : bool) (entries : list zipEntry) (closed : bool)
      (name : string) (method : Z) (r : Stream) (zw : zipWriter) :
  io_Copy ok (mkZip (entries ++ [mkEntry name method ""])%list closed) r = (None, zw) ->
  zw = mkZip (entries ++ [mkEntry name method (rest r)])%list closed.
Proof.
  unfold io_Copy.
  rewrite ReadAll_Stream_final by (unfold copyBufferSize; lia).
  unfold zip_Write. cbn [zw_entries zw_closed].
  rewrite rev_app_distr. cbn [rev app ze_name ze_method ze_data].
  destruct (ends_with_slash name && (0 <? String.length (rest r))%nat);
    [discriminate|].
  rewrite rev_involutive. cbn [append].
  unfold final. destruct (broken r); [discriminate|].
  destruct ok; [|discriminate]. now intros [= <-].
Qed.

Lemma io_Copy_closed (ok : bool) (zw zw' : zipWriter) (r : Stream) (e : option string) :
  io_Copy ok zw r = (e, zw') -> zw_closed zw' = zw_closed zw.
Proof.
  unfold io_Copy.
  destruct (ReadAll _ _ _) as [[p er]|]; [|now intros [= _ <-]].
  unfold zip_Write. destruct (rev (zw_entries zw)) as [|x before].
  - now intros [= _ <-].
  - destruct (ends_with_slash (ze_name x) && (0 <? String.length p)%nat);
      [now intros [= _ <-]|].
    destruct er; [destruct ok| destruct ok|]; now intros [= _ <-].
Qed.

Section Zip.

Context (W : ZipWorld) (zc : bool).

(** The loop invariant of [streamFiles]: [Close] is reached only behind
    the last identifier, with one finished entry per object in order. *)
Lemma streamFiles_from_spec (ids : list string) (i : nat) (zw zw' : zipWriter)
      (e : option string) :
  zw_closed zw = false ->
  streamFiles_from W zc i ids zw = (e, zw') ->
  (e = None -> zw_closed zw' = true)
  /\ (zw_closed zw' = true ->
      exists objs, fetchAll W i ids = Some objs
                   /\ zw_entries zw' = (zw_entries zw ++ map (entryOf zc) objs)%list).
Proof.
  revert i zw; induction ids as [|id ids IH]; intros i zw Hc; cbn [streamFiles_from fetchAll].
  - unfold zip_Close. intros H.
    assert (zw' = mkZip (zw_entries zw) true) as ->
      by (destruct (sink_Close W); now inversion H).
    split; [reflexivity|]. intros _. exists []. cbn. now rewrite app_nil_r.
  - destruct (pool_GetObject W i id) as [obj|].
    2:{ intros [= <- <-]. split; [discriminate | congruence]. }
    unfold zip_CreateHeader.
    destruct (65535 <? Z.of_nat (String.length (getFilename obj)))%Z.
    { intros [= <- <-]. split; [discriminate | congruence]. }
    destruct (sink_CreateHeader W i); cbn [negb].
    2:{ intros [= <- <-]. split; [discriminate | congruence]. }
    destruct (io_Copy (sink_Copy W i) _ (Payload obj)) as [[m|] zw1] eqn:EC.
    { intros [= <- <-]. apply io_Copy_closed in EC. cbn in EC.
      split; [discriminate | congruence]. }
    apply io_Copy_ok in EC. subst zw1.
    destruct (sink_Flush W i).
    2:{ intros [= <- <-]. cbn. split; [discriminate | congruence]. }
    intros H. apply IH in H; [|exact Hc]. destruct H as [H1 H2].
    split; [exact H1|]. intros Hcl.
    destruct (H2 Hcl) as (objs & Ef & Ee).
    exists (obj :: objs). rewrite Ef. split; [reflexivity|].
    rewrite Ee. cbn [zw_entries map]. rewrite <- app_assoc. reflexivity.
Qed.

End Zip.

Lemma entryOf_name (zc : bool) (objs : list Object) :
  map ze_name (map (entryOf zc) objs) = map getFilename objs.
Proof. rewrite map_map. reflexivity. Qed.

(** [getFilename] returns the value of the first attribute with the key
    [FileName], and the empty string when no attribute has that key. *)
Lemma getFilename_named (o : Object) : namedAfterFilename o (getFilename o).
Proof.
  unfold namedAfterFilename, getFilename. split.
  - intros before v after -> Hb.
    induction before as [|[k w] before IH]; cbn [app getFilename_attrs].
    + now rewrite String.eqb_refl.
    + destruct (String.eqb_spec k AttributeFileName) as [E|_].
      * exfalso. apply (Hb (k, w)); [now left | exact E].
      * apply IH. intros a Ha. apply Hb. now right.
  - induction (Attributes o) as [|[k w] l IH]; intros Hno; cbn [getFilename_attrs].
    + reflexivity.
    + destruct (String.eqb_spec k AttributeFileName) as [E|_].
      * exfalso. apply (Hno (k, w)); [now left | exact E].
      * apply IH. intros a Ha. apply Hno. now right.
Qed.

(** [io.Copy] returns nil only when the payload was read to its end
    without an error and the write into the response succeeded. *)
Lemma io_Copy_success (ok : bool) (zw zw' : zipWriter) (r : Stream) :
  io_Copy ok zw r = (None, zw') -> ok = true /\ broken r = None.
Proof.
  unfold io_Copy.
  rewrite ReadAll_Stream_final by (unfold copyBufferSize; lia).
  destruct (zip_Write zw (rest r)); [|discriminate].
  unfold final. destruct (broken r); [discriminate|].
  destruct ok; [now split | discriminate].
Qed.

Lemma fetchAll_nth (W : ZipWorld) (ids : list string) (i : nat) (objs : list Object) :
  fetchAll W i ids = Some objs ->
  forall j id, nth_error ids j = Some id ->
               exists o, pool_GetObject W (i + j) id = Some o /\ nth_error objs j = Some o.
Proof.
  revert i objs; induction ids as [|id0 ids IH]; intros i objs; cbn [fetchAll].
  - intros _ [|j] id H; discriminate H.
  - destruct (pool_GetObject W i id0) as [o0|] eqn:E0; [|discriminate].
    destruct (fetchAll W (S i) ids) as [os|] eqn:E; [|discriminate].
    intros [= <-] [|j] id H; cbn [nth_error] in *.
    + inversion H; subst. exists o0. rewrite Nat.add_0_r. now split.
    + destruct (IH (S i) os E j id H) as (o & Ho & Hn).
      exists o. replace (i + S j)%nat with (S i + j)%nat by lia. now split.
Qed.

Section ZipWrites.

Context (W : ZipWorld) (zc : bool).

(** [Close] is reached only when, for every identifier, the object was
    fetched, its header created, its payload read to the end and copied,
    and the entry flushed. *)
Lemma streamFiles_from_writes (ids : list string) (i : nat) (zw zw' : zipWriter)
      (e : option string) :
  zw_closed zw = false ->
  streamFiles_from W zc i ids zw = (e, zw') ->
  zw_closed zw' = true ->
  forall j id, nth_error ids j = Some id ->
    sink_CreateHeader W (i + j) = true
    /\ sink_Copy W (i + j) = true
    /\ sink_Flush W (i + j) = true
    /\ exists o, pool_GetObject W (i + j) id = Some o /\ broken (Payload o) = None.
Proof.
  revert i zw; induction ids as [|id0 ids IH]; intros i zw Hc; cbn [streamFiles_from].
  - intros _ _ [|j] id H; discriminate H.
  - destruct (pool_GetObject W i id0) as [obj|] eqn:EG.
    2:{ intros [= <- <-] Hcl. congruence. }
    unfold zip_CreateHeader.
    destruct (65535 <? Z.of_nat (String.length (getFilename obj)))%Z.
    { intros [= <- <-] Hcl. congruence. }
    destruct (sink_CreateHeader W i) eqn:EH; cbn [negb].
    2:{ intros [= <- <-] Hcl. congruence. }
    destruct (io_Copy (sink_Copy W i) _ (Payload obj)) as [[m|] zw1] eqn:EC.
    { intros [= <- <-] Hcl. apply io_Copy_closed in EC. cbn in EC. congruence. }
    destruct (io_Copy_success _ _ _ _ EC) as [EK EB].
    apply io_Copy_ok in EC. subst zw1.
    destruct (sink_Flush W i) eqn:EF.
    2:{ intros [= <- <-] Hcl. cbn in Hcl. congruence. }
    intros H Hcl [|j] id Hj; cbn [nth_error] in Hj.
    + inversion Hj; subst. rewrite Nat.add_0_r.
      split; [exact EH|]. split; [exact EK|]. split; [exact EF|].
      exists obj. now split.
    + replace (i + S j)%nat with (S i + j)%nat by lia.
      eapply IH; [| exact H | exact Hcl | exact Hj]. exact Hc.
Qed.

(** Without an error the closing write has succeeded. *)
Lemma streamFiles_from_closing (ids : list string) (i : nat) (zw zw' : zipWriter) :
  streamFiles_from W zc i ids zw = (None, zw') -> sink_Close W = true.
Proof.
  revert i zw; induction ids as [|id ids IH]; intros i zw; cbn [streamFiles_from].
  - unfold zip_Close. destruct (sink_Close W); [reflexivity | discriminate].
  - destruct (pool_GetObject W i id); [|discriminate].
    destruct (zip_CreateHeader _ _ _ _); [|discriminate].
    destruct (io_Copy _ _ _) as [[m|] z1]; [discriminate|].
    destruct (sink_Flush W i); [apply IH | discriminate].
Qed.

End ZipWrites.

(** C5.  When [streamFiles] closes the archive, every identifier of the
    list was fetched, and for each its header was created, its payload read
    to the end and copied, and the entry flushed, all with success; the
    archive holds one entry per identifier, in the order of the list; the
    entry in the place of an identifier holds the payload of its object and
    is named by the value of the first [FileName] attribute of that object,
    by the empty string when the object has none.  [streamFiles] returns
    without an error only when the archive was closed and the closing write
    succeeded; a fetch or a write that fails for an identifier of the list
    leaves the archive unclosed and is reported. *)
Theorem C5_zip_entries_in_selection_order :
  forall (W : ZipWorld) (zc : bool) (ids : list string)
         (e : option string) (zw : zipWriter),
    streamFiles W zc ids = (e, zw) ->
    (e = None -> zw_closed zw = true /\ sink_Close W = true)
    /\ (zw_closed zw = true ->
        exists objs,
          fetchAll W 0 ids = Some objs
          /\ zw_entries zw = map (entryOf zc) objs
          /\ map ze_name (zw_entries zw) = map getFilename objs
          /\ List.length (zw_entries zw) = List.length ids
          /\ (forall i id, nth_error ids i = Some id ->
                exists o en,
                  pool_GetObject W i id = Some o
                  /\ nth_error objs i = Some o
                  /\ nth_error (zw_entries zw) i = Some en
                  /\ namedAfterFilename o (ze_name en)
                  /\ ze_data en = rest (Payload o)
                  /\ broken (Payload o) = None
                  /\ sink_CreateHeader W i = true
                  /\ sink_Copy W i = true
                  /\ sink_Flush W i = true))
    /\ (forall i id, nth_error ids i = Some id ->
          pool_GetObject W i id = None
          \/ sink_CreateHeader W i = false
          \/ sink_Copy W i = false
          \/ sink_Flush W i = false ->
          zw_closed zw = false /\ e <> None).
Proof.
  intros W zc ids e zw H.
  destruct (streamFiles_from_spec W zc ids 0 zip_NewWriter zw e eq_refl H) as [H1 H2].
  pose proof (streamFiles_from_writes W zc ids 0 zip_NewWriter zw e eq_refl H) as H3.
  assert (Hclose : e = None -> sink_Close W = true).
  { intros ->. now apply (streamFiles_from_closing W zc ids 0 zip_NewWriter zw). }
  split; [|split].
  - intros He. split; [now apply H1 | now apply Hclose].
  - intros Hc.
    destruct (H2 Hc) as (objs & Ef & Ee). cbn in Ee.
    exists objs. split; [exact Ef|]. split; [exact Ee|].
    split; [rewrite Ee; apply entryOf_name|].
    split; [rewrite Ee, length_map; now apply fetchAll_length with (W := W) (i := 0%nat)|].
    intros i id Hi.
    destruct (fetchAll_nth W ids 0 objs Ef i id Hi) as (o & Ho & Hn).
    destruct (H3 Hc i id Hi) as (S1 & S2 & S3 & o' & Ho' & Hb).
    cbn [Nat.add] in *. rewrite Ho in Ho'. inversion Ho'; subst o'.
    exists o, (entryOf zc o).
    split; [exact Ho|]. split; [exact Hn|].
    split; [rewrite Ee; now apply map_nth_error|].
    split; [apply getFilename_named|]. now repeat split.
  - intros i id Hi Hbad.
    assert (Hopen : zw_closed zw = false).
    { destruct (zw_closed zw) eqn:Hc; [|reflexivity]. exfalso.
      destruct (H3 eq_refl i id Hi) as (S1 & S2 & S3 & o & Ho & _).
      cbn [Nat.add] in *.
      destruct Hbad as [Hb|[Hb|[Hb|Hb]]]; congruence. }
    split; [exact Hopen|].
    intros He. specialize (H1 He). congruence.
Qed.

(** C5 on two matched objects, the second without a filename: the archive
    is closed, and its entries are [report1.txt] and the empty name, with
    the payloads of the two objects. *)
Lemma C5_witness :
  zw_closed (snd (streamFiles Cases.zipWorld false ["id1"; "id2"])) = true
  /\ exists objs,
      fetchAll Cases.zipWorld 0 ["id1"; "id2"] = Some objs
      /\ zw_entries (snd (streamFiles Cases.zipWorld false ["id1"; "id2"]))
         = map (entryOf false) objs
      /\ map ze_name (zw_entries (snd (streamFiles Cases.zipWorld false ["id1"; "id2"])))
         = map getFilename objs
      /\ List.length (zw_entries (snd (streamFiles Cases.zipWorld false ["id1"; "id2"])))
         = List.length ["id1"; "id2"]
      /\ (forall i id, nth_error ["id1"; "id2"] i = Some id ->
            exists o en,
              pool_GetObject Cases.zipWorld i id = Some o
              /\ nth_error objs i = Some o
              /\ nth_error (zw_entries (snd (streamFiles Cases.zipWorld false
                                                         ["id1"; "id2"]))) i = Some en
              /\ namedAfterFilename o (ze_name en)
              /\ ze_data en = rest (Payload o)
              /\ broken (Payload o) = None
              /\ sink_CreateHeader Cases.zipWorld i = true
              /\ sink_Copy Cases.zipWorld i = true
              /\ sink_Flush Cases.zipWorld i = true).
Proof.
  destruct (C5_zip_entries_in_selection_order Cases.zipWorld false ["id1"; "id2"]
              None (snd (streamFiles Cases.zipWorld false ["id1"; "id2"])))
    as (Hok & Hall & _).
  - vm_compute. reflexivity.
  - destruct (Hok eq_refl) as [Hc _]. split; [exact Hc|]. exact (Hall Hc).
Defined.

(* ================================================================== *)
(** * Further properties of the upload *)

(** The outcome of [initPayloadSource] for every body: the failure flag is
    set and the error is the one that ended the body; the payload source is
    the last part with a form name and a file name, or what it was when no
    part has both; the creator and the response are untouched. *)
Theorem initPayloadSource_outcome :
  forall (body : Body) (ctx : uploadContext),
    fail (initPayloadSource body ctx) = true
    /\ err (initPayloadSource body ctx) = Some (parts_end body)
    /\ srcPayload (initPayloadSource body ctx)
       = lastThat usable (parts body) (srcPayload ctx)
    /\ creator (initPayloadSource body ctx) = creator ctx
    /\ out (initPayloadSource body ctx) = out ctx.
Proof.
  intros body ctx. unfold initPayloadSource.
  generalize (parts_end body); intros fin.
  revert ctx; induction (parts body) as [|p ps IH]; intros ctx;
    cbn [initPayloadSource_loop lastThat].
  - now repeat split.
  - change (usable p) with (negb ((FormName p =? "") || (FileName p =? ""))).
    destruct ((FormName p =? "") || (FileName p =? "")); cbn [negb];
      match goal with |- context [initPayloadSource_loop ps fin ?c] =>
        destruct (IH c) as (H1 & H2 & H3 & H4 & H5) end;
      rewrite H1, H2, H3, H4, H5; repeat split; reflexivity.
Qed.

Section FurtherHeaderProperties.

Context {L : GoLib} (W : World L) (U : Utils).

(** The key under which [WriteHeader] stores what [calcSystemPrefixLen]
    hands it: only the three keys that are the bare alias are rewritten. *)
Lemma WriteHeader_key_calc (key v : string) :
  WriteHeader_key (calcSystemPrefixLen (mkHeader 0 key v))
  = Ok (if (key =? "Neofs-") || (key =? "NEOFS-") || (key =? "neofs-")
        then SysAttributePrefix else key).
Proof.
  unfold calcSystemPrefixLen. cbn [Key Value].
  destruct (String.eqb_spec key "Neofs-") as [->|_]; [reflexivity|].
  destruct (String.eqb_spec key "NEOFS-") as [->|_]; [reflexivity|].
  destruct (String.eqb_spec key "neofs-") as [->|_]; reflexivity.
Qed.

(** The iteration over the headers never panics: the slice
    [hdr.Key[hdr.SystemPrefixLen:]] of [WriteHeader] is taken with a prefix
    length of 6 only for a key of 6 bytes. *)
Theorem VisitAll_never_panics :
  forall (hs : list (string * string)) (st : headerState),
  exists st', VisitAll W U hs st = Ok st'.
Proof.
  induction hs as [|[k v] hs IH]; intros st; cbn [VisitAll].
  - now exists st.
  - assert (H : exists st1, visitHeader W U st (k, v) = Ok st1).
    { unfold visitHeader.
      destruct (fail (hs_ctx st)); [now eexists|].
      destruct (String.length v =? 0)%nat; [now eexists|].
      destruct (String.length _ =? String.length k)%nat; [now eexists|].
      destruct (0 <? detectExpiration U _)%nat.
      - destruct (negb _ && _); [|now eexists].
        destruct (parseExpiration W _ _ _ _) as [c d]. now eexists.
      - unfold WriteHeader.
        match goal with |- context [calcSystemPrefixLen (mkHeader ?n ?key ?val)] =>
          assert (E : WriteHeader_key
                        (mkHeader (SystemPrefixLen (calcSystemPrefixLen (mkHeader n key val)))
                                  (Key (calcSystemPrefixLen (mkHeader n key val))) v)
                      = WriteHeader_key (calcSystemPrefixLen (mkHeader 0 key val)))
            by (unfold calcSystemPrefixLen; cbn [Key Value];
                destruct ((key =? "Neofs-") || (key =? "NEOFS-") || (key =? "neofs-"));
                reflexivity)
        end.
        rewrite E, WriteHeader_key_calc. cbn [bind]. now eexists. }
    destruct H as [st1 ->]. cbn [bind]. apply IH.
Qed.

(** An attribute header that names no expiration form is recorded under
    its key as it stands behind the user prefix, with its value; the key is
    rewritten only when it is the bare alias [Neofs-], [NEOFS-] or [neofs-],
    to the system prefix.  A key such as [Neofs-Expiration-Epoch] is kept
    as it is. *)
Theorem visitHeader_records_attribute :
  forall (st : headerState) (k v : string),
    fail (hs_ctx st) = false ->
    v <> "" ->
    String.length (strings.TrimPrefix k (UserAttributeHeaderPrefix U)) <> String.length k ->
    detectExpiration U (strings.TrimPrefix k (UserAttributeHeaderPrefix U)) = 0%nat ->
    exists st',
      visitHeader W U st (k, v) = Ok st'
      /\ attrs (creator (hs_ctx st'))
         = (attrs (creator (hs_ctx st))
            ++ [(let key := strings.TrimPrefix k (UserAttributeHeaderPrefix U) in
                 if (key =? "Neofs-") || (key =? "NEOFS-") || (key =? "neofs-")
                 then SysAttributePrefix else key, v)])%list
      /\ exp_typ st' = exp_typ st /\ exp_dur st' = exp_dur st
      /\ fail (hs_ctx st') = false.
Proof.
  intros st k v Hf Hv Hk Hd. unfold visitHeader. rewrite Hf.
  destruct v as [|c v]; [now elim Hv|]. cbn [String.length Nat.eqb].
  set (key := strings.TrimPrefix k (UserAttributeHeaderPrefix U)) in *.
  destruct (Nat.eqb_spec (String.length key) (String.length k)) as [E|_]; [now elim Hk|].
  rewrite Hd. cbn [Nat.ltb Nat.leb].
  unfold WriteHeader.
  assert (E : WriteHeader_key
                (mkHeader
                   (SystemPrefixLen
                      (calcSystemPrefixLen
                         (mkHeader (SystemPrefixLen (hs_hdr st)) key (Value (hs_hdr st)))))
                   (Key (calcSystemPrefixLen
                           (mkHeader (SystemPrefixLen (hs_hdr st)) key (Value (hs_hdr st)))))
                   (String c v))
              = WriteHeader_key (calcSystemPrefixLen (mkHeader 0 key (String c v))))
    by (unfold calcSystemPrefixLen; cbn [Key Value];
        destruct ((key =? "Neofs-") || (key =? "NEOFS-") || (key =? "neofs-"));
        reflexivity).
  rewrite E, WriteHeader_key_calc. cbn [bind Value].
  eexists. split; [reflexivity|].
  cbn [hs_ctx exp_typ exp_dur]. unfold set_creator, creator_set_attrs, addAttribute.
  cbn [creator attrs fail]. now repeat split.
Qed.

(** Once the failure flag is set the iteration skips every header, and
    [processHeaders] adds nothing: the headers behind a refused expiration
    header have no effect at all. *)
Theorem processHeaders_stops_at_failure :
  forall (hs1 hs2 : list (string * string)) (ctx : uploadContext) (st : headerState),
    VisitAll W U hs1 (hs_init ctx) = Ok st ->
    fail (hs_ctx st) = true ->
    VisitAll W U (hs1 ++ hs2) (hs_init ctx) = Ok st
    /\ processHeaders W U (hs1 ++ hs2) ctx = Ok (hs_ctx st).
Proof.
  intros hs1 hs2 ctx st H1 Hf.
  assert (Skip : forall hs, VisitAll W U hs st = Ok st).
  { induction hs as [|[k v] hs IH]; [reflexivity|].
    cbn [VisitAll]. unfold visitHeader at 1. rewrite Hf. exact IH. }
  assert (E : VisitAll W U (hs1 ++ hs2) (hs_init ctx) = Ok st).
  { rewrite VisitAll_app, H1. cbn [bind]. apply Skip. }
  split; [exact E|].
  unfold processHeaders. rewrite E. cbn [bind]. unfold writeRemaining. now rewrite Hf.
Qed.

End FurtherHeaderProperties.

(** A timestamp form behind a recorded duration form changes nothing. *)
Lemma expiration_guard_closed_witness :
  exists st',
    visitHeader Sample.world Sample.utils Inputs.durationRecorded
                ("X-Attribute-Expiration-Timestamp", "1900000000") = Ok st'
    /\ exp_typ st' = exp_typ Inputs.durationRecorded
    /\ exp_dur st' = exp_dur Inputs.durationRecorded
    /\ hs_ctx st' = hs_ctx Inputs.durationRecorded
    /\ hs_meta st' = hs_meta Inputs.durationRecorded.
Proof.
  apply (expiration_guard_closed Sample.world Sample.utils Inputs.durationRecorded
           "X-Attribute-Expiration-Timestamp" "1900000000").
  - reflexivity.
  - discriminate.
  - vm_compute. discriminate.
  - vm_compute. lia.
  - right. vm_compute. lia.
Defined.

(** The duration form with the values [1h] and [-1h]. *)
Lemma expiration_value_ignored_witness :
  visitHeader Sample.world Sample.utils Inputs.atStart
              ("X-Attribute-Expiration-Duration", "1h")
  = visitHeader Sample.world Sample.utils Inputs.atStart
                ("X-Attribute-Expiration-Duration", "-1h").
Proof.
  apply (expiration_value_ignored Sample.world Sample.utils Inputs.atStart
           "X-Attribute-Expiration-Duration" "1h" "-1h").
  - discriminate.
  - discriminate.
  - vm_compute. lia.
Defined.

(** The upload with an expiration in the past. *)
Lemma storeObject_puts_witness :
  putInvoked
    (net_log (creator
       (match storeObject Sample.world Sample.utils Sample.pastExpiration Sample.boundCtx with
        | Ok c => c
        | Panic _ => Sample.boundCtx
        end))) = true.
Proof.
  apply (storeObject_puts Sample.world Sample.utils Sample.pastExpiration Sample.boundCtx).
  vm_compute. reflexivity.
Defined.

(** A color attribute at the start of the iteration. *)
Lemma visitHeader_records_attribute_witness :
  exists st',
    visitHeader Sample.world Sample.utils Inputs.atStart ("X-Attribute-Color", "red") = Ok st'
    /\ attrs (creator (hs_ctx st'))
       = (attrs (creator (hs_ctx Inputs.atStart))
          ++ [(let key := strings.TrimPrefix "X-Attribute-Color"
                            (UserAttributeHeaderPrefix Sample.utils) in
               if (key =? "Neofs-") || (key =? "NEOFS-") || (key =? "neofs-")
               then SysAttributePrefix else key, "red")])%list
    /\ exp_typ st' = exp_typ Inputs.atStart /\ exp_dur st' = exp_dur Inputs.atStart
    /\ fail (hs_ctx st') = false.
Proof.
  apply (visitHeader_records_attribute Sample.world Sample.utils Inputs.atStart
           "X-Attribute-Color" "red").
  - reflexivity.
  - discriminate.
  - vm_compute. discriminate.
  - reflexivity.
Defined.

(** A timestamp form that does not parse, followed by an attribute. *)
Lemma processHeaders_stops_at_failure_witness :
  exists st,
    VisitAll Sample.world Sample.utils Inputs.badThenGood (hs_init Sample.boundCtx) = Ok st
    /\ fail (hs_ctx st) = true
    /\ VisitAll Sample.world Sample.utils (Inputs.badThenGood ++ Inputs.oneAttribute)
                (hs_init Sample.boundCtx) = Ok st
    /\ processHeaders Sample.world Sample.utils (Inputs.badThenGood ++ Inputs.oneAttribute)
                      Sample.boundCtx = Ok (hs_ctx st).
Proof.
  eexists. split; [vm_compute; reflexivity|]. split; [reflexivity|].
  apply (processHeaders_stops_at_failure Sample.world Sample.utils
           Inputs.badThenGood Inputs.oneAttribute Sample.boundCtx).
  - vm_compute. reflexivity.
  - reflexivity.
Defined.

Section HeaderEffects.

Context {L : GoLib} (W : World L) (U : Utils).

Lemma parseExpiration_keeps (typ : nat) (value : string) (ctx c : uploadContext) (d d' : Z) :
  parseExpiration W typ value ctx d = (c, d') ->
  creator c = creator ctx /\ srcPayload c = srcPayload ctx
  /\ defaultTimestamp c = defaultTimestamp ctx.
Proof.
  unfold parseExpiration.
  destruct typ as [|[|[|[|n]]]];
    try (intros [= <- _]; now repeat split).
  - destruct (time_Parse_RFC3339 L value); intros [= <- _]; now repeat split.
  - destruct (strconv_ParseInt L value); intros [= <- _]; now repeat split.
  - destruct (time_ParseDuration L value); intros [= <- _]; now repeat split.
Qed.

(** What one header does to the attributes, the flags, the duration and
    the failure flag. *)
Lemma visitHeader_effect (st st' : headerState) (k v : string) :
  visitHeader W U st (k, v) = Ok st' ->
  srcPayload (hs_ctx st') = srcPayload (hs_ctx st)
  /\ defaultTimestamp (hs_ctx st') = defaultTimestamp (hs_ctx st)
  /\ ((attrs (creator (hs_ctx st')) = attrs (creator (hs_ctx st))
       /\ hs_meta st' = hs_meta st
       /\ (detectExpiration U (strings.TrimPrefix k (UserAttributeHeaderPrefix U)) = 0%nat ->
           exp_dur st' = exp_dur st /\ fail (hs_ctx st') = fail (hs_ctx st)))
      \/ (attrs (creator (hs_ctx st'))
          = (attrs (creator (hs_ctx st)) ++ [(storedKey U k, v)])%list
          /\ hs_meta st' = WriteHeader_meta (hs_meta st) (storedKey U k)
          /\ exp_dur st' = exp_dur st
          /\ fail (hs_ctx st') = fail (hs_ctx st))).
Proof.
  unfold visitHeader.
  destruct (fail (hs_ctx st)) eqn:Hf.
  { intros [= <-]. split; [reflexivity|]. split; [reflexivity|]. left. now repeat split. }
  destruct (String.length v =? 0)%nat.
  { intros [= <-]. split; [reflexivity|]. split; [reflexivity|]. left. now repeat split. }
  set (key := strings.TrimPrefix k (UserAttributeHeaderPrefix U)).
  destruct (String.length key =? String.length k)%nat.
  { intros [= <-]. cbn. split; [reflexivity|]. split; [reflexivity|]. left. now repeat split. }
  destruct (Nat.ltb_spec 0 (detectExpiration U key)) as [Hpos|Hz].
  - destruct (negb (enc_expiration (hs_meta st)) && (exp_typ st <=? detectExpiration U key)%nat).
    + destruct (parseExpiration W _ _ _ _) as [c d] eqn:EP.
      destruct (parseExpiration_keeps _ _ _ _ _ _ EP) as (K1 & K2 & K3).
      intros [= <-]. cbn [hs_ctx hs_meta exp_dur].
      assert (Keep : forall c0 : uploadContext,
                 creator c0 = creator (hs_ctx st) ->
                 srcPayload c0 = srcPayload (hs_ctx st) ->
                 defaultTimestamp c0 = defaultTimestamp (hs_ctx st) ->
                 creator (if fail c0 then failExpiration c0 else c0) = creator (hs_ctx st)
                 /\ srcPayload (if fail c0 then failExpiration c0 else c0)
                    = srcPayload (hs_ctx st)
                 /\ defaultTimestamp (if fail c0 then failExpiration c0 else c0)
                    = defaultTimestamp (hs_ctx st)).
      { intros c0 A1 A2 A3. destruct (fail c0); cbn; now repeat split. }
      match goal with |- context [if fail ?c0 then failExpiration ?c0 else ?c0] =>
        destruct (Keep c0) as (A1 & A2 & A3);
          [ destruct (negb (fail c) && (d <=? 0)%Z); cbn; assumption
          | destruct (negb (fail c) && (d <=? 0)%Z); cbn; assumption
          | destruct (negb (fail c) && (d <=? 0)%Z); cbn; assumption | ]
      end.
      split; [exact A2|]. split; [exact A3|]. left.
      rewrite A1. split; [reflexivity|]. split; [reflexivity|]. intros H0. lia.
    + intros [= <-]. cbn. split; [reflexivity|]. split; [reflexivity|]. left.
      split; [reflexivity|]. split; [reflexivity|]. intros H0. lia.
  - unfold WriteHeader.
    assert (E : WriteHeader_key
                  (mkHeader
                     (SystemPrefixLen
                        (calcSystemPrefixLen
                           (mkHeader (SystemPrefixLen (hs_hdr st)) key (Value (hs_hdr st)))))
                     (Key (calcSystemPrefixLen
                             (mkHeader (SystemPrefixLen (hs_hdr st)) key (Value (hs_hdr st)))))
                     v)
                = Ok (storedKey U k)).
    { unfold storedKey. fold key. rewrite <- WriteHeader_key_calc with (v := v).
      unfold calcSystemPrefixLen; cbn [Key Value].
      destruct ((key =? "Neofs-") || (key =? "NEOFS-") || (key =? "neofs-")); reflexivity. }
    rewrite E. cbn [bind Value]. intros [= <-].
    cbn [hs_ctx hs_meta exp_dur]. unfold set_creator, creator_set_attrs, addAttribute.
    cbn [creator attrs fail srcPayload defaultTimestamp].
    split; [reflexivity|]. split; [reflexivity|]. right. now repeat split.
Qed.

Lemma hasKey_app (key : string) (a b : list Attribute) :
  hasKey key (a ++ b) = hasKey key a || hasKey key b.
Proof. unfold hasKey. apply existsb_app. Qed.

Lemma flagsAgree_WriteHeader (meta : HeadersMeta) (attributes : list Attribute)
      (k v : string) :
  flagsAgree meta attributes ->
  flagsAgree (WriteHeader_meta meta k) (attributes ++ [(k, v)]).
Proof.
  intros (F1 & F2 & F3). unfold flagsAgree, WriteHeader_meta.
  rewrite !hasKey_app. unfold hasKey at 2 4 6. cbn [existsb fst].
  rewrite !orb_false_r.
  destruct (String.eqb_spec k SysAttributeExpEpoch) as [->|_].
  { cbn. rewrite F1, F2, !orb_false_r, orb_true_r. now repeat split. }
  destruct (String.eqb_spec k AttributeFileName) as [->|_].
  { cbn. rewrite F2, F3, !orb_false_r, orb_true_r. now repeat split. }
  destruct (String.eqb_spec k AttributeTimestamp) as [->|_].
  { cbn. rewrite F1, F3, !orb_false_r, orb_true_r. now repeat split. }
  rewrite F1, F2, F3, !orb_false_r. now repeat split.
Qed.

(** The flags and the attributes stay in step over the iteration. *)
Lemma VisitAll_flagsAgree (hs : list (string * string)) (st st' : headerState) :
  flagsAgree (hs_meta st) (attrs (creator (hs_ctx st))) ->
  VisitAll W U hs st = Ok st' ->
  flagsAgree (hs_meta st') (attrs (creator (hs_ctx st')))
  /\ srcPayload (hs_ctx st') = srcPayload (hs_ctx st)
  /\ defaultTimestamp (hs_ctx st') = defaultTimestamp (hs_ctx st).
Proof.
  revert st; induction hs as [|[k v] hs IH]; intros st HF; cbn [VisitAll].
  - intros [= <-]. split; [exact HF | now split].
  - destruct (visitHeader W U st (k, v)) as [st1|m] eqn:E1; [|discriminate].
    cbn [bind]. intros H.
    destruct (visitHeader_effect _ _ _ _ E1) as (S1 & S2 & [(A & M & _)|(A & M & _)]).
    + destruct (IH st1) as (I1 & I2 & I3); [now rewrite A, M | exact H |].
      split; [exact I1|]. split; congruence.
    + destruct (IH st1) as (I1 & I2 & I3);
        [rewrite A, M; now apply flagsAgree_WriteHeader | exact H |].
      split; [exact I1|]. split; congruence.
Qed.

End HeaderEffects.

Section RemainingHeaders.

Context {L : GoLib} (W : World L) (U : Utils).

(** The outcomes of [ExpireAfter] that are not a panic. *)
Lemma ExpireAfter_cases (x x' : objectCreator) (expDur : Z) (f : bool) :
  ExpireAfter W x expDur = Ok (f, x') ->
  (f = true /\ attrs x' = attrs x
   /\ (pool_Connection W = false \/ conn_NetworkInfo W = None))
  \/ (f = false
      /\ exists ni e,
          pool_Connection W = true /\ conn_NetworkInfo W = Some ni
          /\ expirationEpoch ni expDur = Ok e
          /\ attrs x' = (attrs x ++ [(SysAttributeExpEpoch, FormatUint e)])%list).
Proof.
  unfold ExpireAfter.
  destruct (pool_Connection W); cbn [negb].
  2:{ intros [= <- <-]. left. repeat split. now left. }
  destruct (conn_NetworkInfo W) as [ni|].
  2:{ intros [= <- <-]. left. repeat split. now right. }
  destruct (expirationEpoch ni expDur) as [e|m] eqn:EE; [|discriminate].
  cbn [bind]. intros [= <- <-]. right. split; [reflexivity|].
  exists ni, e. now repeat split.
Qed.

(** The attributes that the statements behind the iteration add, when
    they end without failure: the expiration epoch unless one was met, the
    creation time if none was met and the default is on, the file name of
    the part unless one was met. *)
Lemma writeRemaining_attrs (st : headerState) (ctx' : uploadContext) :
  writeRemaining W st = Ok ctx' ->
  fail ctx' = false ->
  exists expPart fnPart,
    attrs (creator ctx')
    = (attrs (creator (hs_ctx st)) ++ expPart
       ++ (if negb (enc_timestamp (hs_meta st)) && defaultTimestamp (hs_ctx st)
           then [(AttributeTimestamp,
                  FormatInt (Time_Unix L (time_Now W (ticks (hs_ctx st)))))]
           else [])
       ++ fnPart)%list
    /\ (if enc_expiration (hs_meta st) then expPart = []
        else exists ni e,
            conn_NetworkInfo W = Some ni
            /\ expirationEpoch ni (exp_dur st) = Ok e
            /\ expPart = [(SysAttributeExpEpoch, FormatUint e)])
    /\ (if enc_filename (hs_meta st) then fnPart = []
        else exists p, srcPayload (hs_ctx st) = Some p
                       /\ fnPart = [(AttributeFileName, FileName p)]).
Proof.
  unfold writeRemaining.
  destruct (fail (hs_ctx st)) eqn:Hf; [intros [= <-]; congruence|].
  set (ctx := hs_ctx st) in *.
  assert (Tail : forall (c : uploadContext) (expPart : list Attribute),
             fail c = false ->
             attrs (creator c) = (attrs (creator ctx) ++ expPart)%list ->
             srcPayload c = srcPayload ctx -> defaultTimestamp c = defaultTimestamp ctx ->
             ticks c = ticks ctx ->
             (let c1 :=
                if negb (enc_timestamp (hs_meta st)) && defaultTimestamp c
                then tick (set_creator c (CreatedAt L (creator c) (time_Now W (ticks c))))
                else c in
              if negb (enc_filename (hs_meta st))
              then match srcPayload c1 with
                   | Some p => Ok (set_creator c1 (FromFile (creator c1) (FileName p)))
                   | None => Panic "nil pointer dereference"
                   end
              else Ok c1) = Ok ctx' ->
             exists fnPart,
               attrs (creator ctx')
               = (attrs (creator ctx) ++ expPart
                  ++ (if negb (enc_timestamp (hs_meta st)) && defaultTimestamp ctx
                      then [(AttributeTimestamp,
                             FormatInt (Time_Unix L (time_Now W (ticks ctx))))]
                      else [])
                  ++ fnPart)%list
               /\ (if enc_filename (hs_meta st) then fnPart = []
                   else exists p, srcPayload ctx = Some p
                                  /\ fnPart = [(AttributeFileName, FileName p)])).
  { intros c expPart Hc Ha Hs Hd Ht. cbv zeta. rewrite Hd, Ht.
    destruct (negb (enc_timestamp (hs_meta st)) && defaultTimestamp ctx);
      destruct (enc_filename (hs_meta st)); cbn [negb].
    - intros [= <-]. exists []. split; [|reflexivity].
      unfold tick, set_creator, CreatedAt, creator_set_attrs, addAttribute.
      cbn [creator attrs]. rewrite Ha, app_nil_r, <- app_assoc. reflexivity.
    - unfold tick, set_creator. cbn [srcPayload]. rewrite Hs.
      destruct (srcPayload ctx) as [p|]; [|discriminate].
      intros [= <-]. exists [(AttributeFileName, FileName p)].
      split; [|exists p; now split].
      unfold FromFile, CreatedAt, creator_set_attrs, addAttribute.
      cbn [creator attrs]. rewrite Ha, <- !app_assoc. reflexivity.
    - intros [= <-]. exists []. split; [|reflexivity].
      rewrite Ha, !app_nil_r. reflexivity.
    - rewrite Hs. destruct (srcPayload ctx) as [p|]; [|discriminate].
      intros [= <-]. exists [(AttributeFileName, FileName p)].
      split; [|exists p; now split].
      unfold set_creator, FromFile, creator_set_attrs, addAttribute.
      cbn [creator attrs]. rewrite Ha. cbn [app]. now rewrite <- app_assoc. }
  destruct (enc_expiration (hs_meta st)) eqn:He; cbn [negb bind].
  - rewrite Hf. intros H Hfail.
    destruct (Tail ctx [] Hf) as (fnPart & A & B); try reflexivity.
    + now rewrite app_nil_r.
    + exact H.
    + exists [], fnPart. now repeat split.
  - destruct (ExpireAfter W (creator ctx) (exp_dur st)) as [[f x]|m] eqn:EA; [|discriminate].
    cbn [bind orb].
    destruct (ExpireAfter_cases _ _ _ _ EA) as [(-> & _)|(-> & ni & e & _ & Hni & Hee & Hat)].
    + cbn [fail set_fail]. intros [= <-]. cbn. discriminate.
    + cbn [fail set_fail]. intros H Hfail.
      destruct (Tail (set_fail (set_creator ctx x) false (err ctx))
                     [(SysAttributeExpEpoch, FormatUint e)]) as (fnPart & A & B);
        try reflexivity.
      * cbn [creator set_fail set_creator]. exact Hat.
      * exact H.
      * exists [(SysAttributeExpEpoch, FormatUint e)], fnPart.
        split; [exact A|]. split; [|exact B].
        exists ni, e. now repeat split.
Qed.

End RemainingHeaders.

Section UploadedAttributes.

Context {L : GoLib} (W : World L) (U : Utils).

Lemma flagsAgree_init : flagsAgree (mkMeta false false false) [].
Proof. now repeat split. Qed.

Lemma hasKey_single (key k v : string) : hasKey key [(k, v)] = (k =? key).
Proof. unfold hasKey. cbn. apply orb_false_r. Qed.

Lemma getFilename_attrs_app (a b : list Attribute) :
  getFilename_attrs (a ++ b)
  = if hasKey AttributeFileName a then getFilename_attrs a else getFilename_attrs b.
Proof.
  induction a as [|[k v] a IH]; [reflexivity|].
  cbn [app getFilename_attrs]. unfold hasKey. cbn [existsb fst].
  destruct (k =? AttributeFileName); [reflexivity | exact IH].
Qed.

(** Headers that name no expiration form leave the duration and the
    failure flag alone. *)
Lemma VisitAll_no_expiration (hs : list (string * string)) (st st' : headerState) :
  (forall k v, In (k, v) hs ->
               detectExpiration U (strings.TrimPrefix k (UserAttributeHeaderPrefix U)) = 0%nat) ->
  VisitAll W U hs st = Ok st' ->
  exp_dur st' = exp_dur st /\ fail (hs_ctx st') = fail (hs_ctx st).
Proof.
  revert st; induction hs as [|[k v] hs IH]; intros st Hno; cbn [VisitAll].
  - now intros [= <-].
  - destruct (visitHeader W U st (k, v)) as [st1|m] eqn:E1; [|discriminate].
    cbn [bind]. intros H.
    assert (Hk : detectExpiration U (strings.TrimPrefix k (UserAttributeHeaderPrefix U)) = 0%nat)
      by (apply (Hno k v); now left).
    destruct (IH st1) as [I1 I2]; [intros k' v' Hin; apply (Hno k' v'); now right | exact H|].
    destruct (visitHeader_effect _ _ _ _ _ _ E1) as (_ & _ & [(_ & _ & K)|(_ & _ & K1 & K2)]).
    + destruct (K Hk). split; congruence.
    + split; congruence.
Qed.

(** A flag stays down while no header is recorded under its key. *)
Lemma VisitAll_key_not_met (key : string) (flag : HeadersMeta -> bool)
      (hs : list (string * string)) (st st' : headerState) :
  (forall m k, k <> key -> flag (WriteHeader_meta m k) = flag m) ->
  (forall k v, In (k, v) hs -> storedKey U k <> key) ->
  VisitAll W U hs st = Ok st' ->
  flag (hs_meta st') = flag (hs_meta st).
Proof.
  intros Hflag. revert st; induction hs as [|[k v] hs IH]; intros st Hno; cbn [VisitAll].
  - now intros [= <-].
  - destruct (visitHeader W U st (k, v)) as [st1|m] eqn:E1; [|discriminate].
    cbn [bind]. intros H.
    rewrite (IH st1); [|intros k' v' Hin; apply (Hno k' v'); now right | exact H].
    destruct (visitHeader_effect _ _ _ _ _ _ E1) as (_ & _ & [(_ & M & _)|(_ & M & _)]).
    + now rewrite M.
    + rewrite M. apply Hflag. apply (Hno k v). now left.
Qed.

Lemma enc_filename_other (m : HeadersMeta) (k : string) :
  k <> AttributeFileName -> enc_filename (WriteHeader_meta m k) = enc_filename m.
Proof.
  intros Hk. unfold WriteHeader_meta.
  destruct (k =? SysAttributeExpEpoch); [reflexivity|].
  destruct (String.eqb_spec k AttributeFileName) as [E|_]; [now elim Hk|].
  now destruct (k =? AttributeTimestamp).
Qed.

Lemma enc_expiration_other (m : HeadersMeta) (k : string) :
  k <> SysAttributeExpEpoch -> enc_expiration (WriteHeader_meta m k) = enc_expiration m.
Proof.
  intros Hk. unfold WriteHeader_meta.
  destruct (String.eqb_spec k SysAttributeExpEpoch) as [E|_]; [now elim Hk|].
  destruct (k =? AttributeFileName); [reflexivity|].
  now destruct (k =? AttributeTimestamp).
Qed.

(** Every upload whose headers are processed without failure carries a
    file name and an expiration epoch among its attributes, and a creation
    time when the default is on: each is the one a header wrote, or else
    the one added behind the iteration. *)
Theorem processHeaders_attaches_defaults :
  forall (hs : list (string * string)) (ctx ctx' : uploadContext),
    attrs (creator ctx) = [] ->
    processHeaders W U hs ctx = Ok ctx' ->
    fail ctx' = false ->
    hasKey AttributeFileName (attrs (creator ctx')) = true
    /\ hasKey SysAttributeExpEpoch (attrs (creator ctx')) = true
    /\ (defaultTimestamp ctx = true ->
        hasKey AttributeTimestamp (attrs (creator ctx')) = true).
Proof.
  intros hs ctx ctx' Hempty. unfold processHeaders.
  destruct (VisitAll W U hs (hs_init ctx)) as [st|m] eqn:EV; [|discriminate].
  cbn [bind]. intros HW Hfail.
  assert (HI : flagsAgree (hs_meta (hs_init ctx)) (attrs (creator (hs_ctx (hs_init ctx)))))
    by (cbn; rewrite Hempty; apply flagsAgree_init).
  destruct (VisitAll_flagsAgree W U hs _ _ HI EV) as ((F1 & F2 & F3) & _ & HD).
  cbn [hs_init hs_ctx] in HD.
  destruct (writeRemaining_attrs W st ctx' HW Hfail) as (expPart & fnPart & A & HE & HN).
  rewrite A, !hasKey_app.
  split; [|split].
  - destruct (enc_filename (hs_meta st)).
    + now rewrite <- F1.
    + destruct HN as (p & _ & ->). rewrite hasKey_single.
      cbn. now rewrite !orb_true_r.
  - destruct (enc_expiration (hs_meta st)).
    + now rewrite <- F3.
    + destruct HE as (ni & e & _ & _ & ->). rewrite hasKey_single.
      cbn. now rewrite orb_true_r.
  - intros Hd. rewrite HD, Hd.
    destruct (enc_timestamp (hs_meta st)).
    + now rewrite <- F2.
    + cbn [negb andb]. rewrite hasKey_single. cbn. now rewrite !orb_true_r.
Qed.

(** An upload none of whose headers names an expiration form or writes
    the expiration epoch is still given an expiration: [ExpireAfter] is
    called with a duration of zero, and the epoch attached is the current
    epoch of the network. *)
Theorem processHeaders_without_expiration :
  forall (hs : list (string * string)) (ctx ctx' : uploadContext) (ni : NetworkInfo),
    (forall k v, In (k, v) hs ->
                 detectExpiration U (strings.TrimPrefix k (UserAttributeHeaderPrefix U)) = 0%nat
                 /\ storedKey U k <> SysAttributeExpEpoch) ->
    conn_NetworkInfo W = Some ni ->
    (0 <= CurrentEpoch ni < 2 ^ 64)%Z ->
    processHeaders W U hs ctx = Ok ctx' ->
    fail ctx' = false ->
    In (SysAttributeExpEpoch, FormatUint (CurrentEpoch ni)) (attrs (creator ctx')).
Proof.
  intros hs ctx ctx' ni Hno Hni Hcur. unfold processHeaders.
  destruct (VisitAll W U hs (hs_init ctx)) as [st|m] eqn:EV; [|discriminate].
  cbn [bind]. intros HW Hfail.
  destruct (VisitAll_no_expiration hs _ _ (fun k v H => proj1 (Hno k v H)) EV) as [Hd _].
  pose proof (VisitAll_key_not_met SysAttributeExpEpoch enc_expiration hs _ _
                enc_expiration_other (fun k v H => proj2 (Hno k v H)) EV) as He.
  cbn in Hd, He.
  destruct (writeRemaining_attrs W st ctx' HW Hfail) as (expPart & fnPart & A & HE & _).
  rewrite He in HE. destruct HE as (ni' & e & Hni' & Hee & ->).
  rewrite Hni in Hni'. inversion Hni'; subst ni'.
  rewrite Hd in Hee. unfold expirationEpoch in Hee.
  destruct (uint64 (MsPerBlock ni) =? 0)%Z; [discriminate|].
  inversion Hee as [He']. clear Hee.
  assert (e = CurrentEpoch ni) as ->.
  { subst e. change (uint64 0) with 0%Z.
    rewrite Zdiv_0_l, Z.add_0_r. now apply uint64_small. }
  rewrite A. apply in_or_app. right. apply in_or_app. left. now left.
Qed.

(** An upload without a header recorded under [FileName] is found again
    by the name of the uploaded part: [getFilename] of the attributes
    stored is the file name of the payload source. *)
Theorem uploaded_part_names_the_object :
  forall (hs : list (string * string)) (ctx ctx' : uploadContext) (p : Part),
    attrs (creator ctx) = [] ->
    srcPayload ctx = Some p ->
    (forall k v, In (k, v) hs -> storedKey U k <> AttributeFileName) ->
    processHeaders W U hs ctx = Ok ctx' ->
    fail ctx' = false ->
    getFilename_attrs (attrs (creator ctx')) = FileName p.
Proof.
  intros hs ctx ctx' p Hempty Hp Hno. unfold processHeaders.
  destruct (VisitAll W U hs (hs_init ctx)) as [st|m] eqn:EV; [|discriminate].
  cbn [bind]. intros HW Hfail.
  assert (HI : flagsAgree (hs_meta (hs_init ctx)) (attrs (creator (hs_ctx (hs_init ctx)))))
    by (cbn; rewrite Hempty; apply flagsAgree_init).
  destruct (VisitAll_flagsAgree W U hs _ _ HI EV) as ((F1 & _ & _) & HS & _).
  cbn [hs_init hs_ctx] in HS.
  pose proof (VisitAll_key_not_met AttributeFileName enc_filename hs _ _
                enc_filename_other Hno EV) as Hf.
  cbn in Hf.
  destruct (writeRemaining_attrs W st ctx' HW Hfail) as (expPart & fnPart & A & HE & HN).
  rewrite Hf in HN, F1. destruct HN as (q & Hq & ->).
  rewrite HS, Hp in Hq. inversion Hq; subst q.
  rewrite A, getFilename_attrs_app, <- F1.
  rewrite getFilename_attrs_app.
  assert (hasKey AttributeFileName expPart = false) as ->.
  { destruct (enc_expiration (hs_meta st)); [now subst expPart|].
    destruct HE as (ni & e & _ & _ & ->). reflexivity. }
  rewrite getFilename_attrs_app.
  destruct (negb (enc_timestamp (hs_meta st)) && defaultTimestamp (hs_ctx st)); reflexivity.
Qed.

End UploadedAttributes.

(** The three theorems on an upload with the single attribute header
    [X-Attribute-Color: red]. *)
Lemma processHeaders_attaches_defaults_witness :
  hasKey AttributeFileName (attrs (creator Inputs.colorProcessed)) = true
  /\ hasKey SysAttributeExpEpoch (attrs (creator Inputs.colorProcessed)) = true
  /\ (defaultTimestamp Sample.boundCtx = true ->
      hasKey AttributeTimestamp (attrs (creator Inputs.colorProcessed)) = true).
Proof.
  apply (processHeaders_attaches_defaults Sample.world Sample.utils
           Inputs.oneAttribute Sample.boundCtx Inputs.colorProcessed).
  - reflexivity.
  - vm_compute. reflexivity.
  - reflexivity.
Defined.

Lemma processHeaders_without_expiration_witness :
  In (SysAttributeExpEpoch, FormatUint (CurrentEpoch Sample.netInfo))
     (attrs (creator Inputs.colorProcessed)).
Proof.
  apply (processHeaders_without_expiration Sample.world Sample.utils
           Inputs.oneAttribute Sample.boundCtx Inputs.colorProcessed Sample.netInfo).
  - intros k v [E|[]]. inversion E; subst. split; [reflexivity | vm_compute; discriminate].
  - reflexivity.
  - vm_compute. split; [discriminate | reflexivity].
  - vm_compute. reflexivity.
  - reflexivity.
Defined.

Lemma uploaded_part_names_the_object_witness :
  getFilename_attrs (attrs (creator Inputs.colorProcessed)) = FileName Sample.filePart.
Proof.
  apply (uploaded_part_names_the_object Sample.world Sample.utils
           Inputs.oneAttribute Sample.boundCtx Inputs.colorProcessed Sample.filePart).
  - reflexivity.
  - reflexivity.
  - intros k v [E|[]]. inversion E; subst. vm_compute. discriminate.
  - vm_compute. reflexivity.
  - reflexivity.
Defined.

(* ------------------------------------------------------------------ *)
(** ** [ExpireAfter] and the network parameters *)

Lemma le_bytes_bound (n : nat) (s : string) : (0 <= le_bytes n s < 256 ^ Z.of_nat n)%Z.
Proof.
  revert s; induction n as [|n IH]; intros s.
  - cbn. lia.
  - rewrite Nat2Z.inj_succ, Z.pow_succ_r by lia. cbn [le_bytes].
    destruct s as [|c s].
    + pose proof (Z.pow_pos_nonneg 256 (Z.of_nat n)). lia.
    + specialize (IH s). pose proof (nat_ascii_bounded c). lia.
Qed.

Lemma le_bytes_zeros (n k : nat) : le_bytes n (zeros k) = 0%Z.
Proof.
  revert k; induction n as [|n IH]; intros k; [reflexivity|].
  destruct k as [|k]; [reflexivity|]. cbn [zeros le_bytes]. rewrite IH. reflexivity.
Qed.

Lemma le_bytes_app_zeros (n k : nat) (s : string) :
  le_bytes n (s ++ zeros k) = le_bytes n s.
Proof.
  revert s; induction n as [|n IH]; intros s; [reflexivity|].
  destruct s as [|c s]; cbn [append].
  - rewrite le_bytes_zeros. reflexivity.
  - cbn [le_bytes]. now rewrite IH.
Qed.

Lemma le_bytes_truncates (n : nat) (s t : string) :
  String.length s = n -> le_bytes n (s ++ t) = le_bytes n s.
Proof.
  revert s; induction n as [|n IH]; intros s Hl; [reflexivity|].
  destruct s as [|c s]; [discriminate|]. cbn [append le_bytes].
  rewrite IH; [reflexivity | now inversion Hl].
Qed.

(** The epoch duration that [ExpireAfter] reads from the parameters of the
    network: the first parameter named [EpochDuration] decides, whatever
    follows it; without one the value is zero and nothing is found; the
    value is that of at most eight bytes, little-endian, so it fits 64
    bits, a shorter value counting as padded with zeros and the bytes behind
    the eighth being dropped. *)
Theorem EpochDuration_parameter :
  forall (before after : list (string * string)) (v : string) (d0 : bool * Z),
    (forall kv, In kv before -> fst kv <> "EpochDuration") ->
    iterateEpochDuration (before ++ ("EpochDuration", v) :: after) d0 = (true, le_bytes 8 v)
    /\ snd (iterateEpochDuration before (false, 0%Z)) = 0%Z
    /\ fst (iterateEpochDuration before (false, 0%Z)) = false
    /\ (0 <= le_bytes 8 v < 2 ^ 64)%Z
    /\ (forall k, le_bytes 8 (v ++ zeros k) = le_bytes 8 v)
    /\ (forall t, String.length v = 8%nat -> le_bytes 8 (v ++ t) = le_bytes 8 v).
Proof.
  intros before after v d0 Hno.
  split; [|split; [|split; [|split; [|split]]]].
  - revert d0; induction before as [|[k w] before IH]; intros d0; cbn.
    + reflexivity.
    + destruct (String.eqb_spec k "EpochDuration") as [E|_].
      * exfalso. apply (Hno (k, w)); [now left | exact E].
      * apply IH. intros kv Hin. apply Hno. now right.
  - rewrite iterateEpochDuration_find.
    destruct (find _ before) as [[k w]|] eqn:Ef; [|reflexivity].
    apply find_some in Ef as [Hin Hk]. cbn in Hk.
    exfalso. apply (Hno _ Hin). now apply String.eqb_eq.
  - clear - Hno. generalize 0%Z. induction before as [|[k w] before IH]; intros z.
    + reflexivity.
    + cbn. destruct (String.eqb_spec k "EpochDuration") as [E|_].
      * exfalso. apply (Hno (k, w)); [now left | exact E].
      * apply IH. intros kv Hin. apply Hno. now right.
  - pose proof (le_bytes_bound 8 v) as H. change (256 ^ Z.of_nat 8)%Z with (2 ^ 64)%Z in H.
    exact H.
  - intros k. apply le_bytes_app_zeros.
  - intros t. apply le_bytes_truncates.
Qed.

(** The parameters of the sample network: one other parameter, then
    [EpochDuration] at 240. *)
Lemma EpochDuration_parameter_witness :
  iterateEpochDuration ([("MaxObjectSize", zeros 8)]
                        ++ ("EpochDuration", Sample.epochDuration240) :: [])
                       (false, 0%Z)
  = (true, le_bytes 8 Sample.epochDuration240)
  /\ snd (iterateEpochDuration [("MaxObjectSize", zeros 8)] (false, 0%Z)) = 0%Z
  /\ fst (iterateEpochDuration [("MaxObjectSize", zeros 8)] (false, 0%Z)) = false
  /\ (0 <= le_bytes 8 Sample.epochDuration240 < 2 ^ 64)%Z
  /\ (forall k, le_bytes 8 (Sample.epochDuration240 ++ zeros k)
                = le_bytes 8 Sample.epochDuration240)
  /\ (forall t, String.length Sample.epochDuration240 = 8%nat ->
                le_bytes 8 (Sample.epochDuration240 ++ t)
                = le_bytes 8 Sample.epochDuration240).
Proof.
  apply (EpochDuration_parameter [("MaxObjectSize", zeros 8)] []
                                 Sample.epochDuration240 (false, 0%Z)).
  intros kv [<-|[]]. vm_compute. discriminate.
Defined.

(** The outcomes of [ExpireAfter].  Without a connection nothing is asked
    of the network and nothing is attached; when the network info cannot be
    read nothing is attached; in both cases the failure is reported.  With
    the network info at hand the call panics exactly when [MsPerBlock] is
    zero modulo 2^64 (an integer division by zero); otherwise one attribute
    is attached, the expiration epoch, with a value of 64 bits. *)
Theorem ExpireAfter_outcomes :
  forall (L : GoLib) (W : World L) (x : objectCreator) (expDur : Z),
    (pool_Connection W = false -> ExpireAfter W x expDur = Ok (true, x))
    /\ (pool_Connection W = true -> conn_NetworkInfo W = None ->
        ExpireAfter W x expDur = Ok (true, creator_log x EvNetworkInfo))
    /\ (forall ni, pool_Connection W = true -> conn_NetworkInfo W = Some ni ->
                   (uint64 (MsPerBlock ni) = 0%Z <->
                    exists m, ExpireAfter W x expDur = Panic m)
                   /\ (uint64 (MsPerBlock ni) <> 0%Z ->
                       exists e x',
                         ExpireAfter W x expDur = Ok (false, x')
                         /\ attrs x' = (attrs x ++ [(SysAttributeExpEpoch, FormatUint e)])%list
                         /\ net_log x' = (net_log x ++ [EvNetworkInfo])%list
                         /\ (0 <= e < 2 ^ 64)%Z)).
Proof.
  intros L W x expDur. unfold ExpireAfter.
  split; [|split].
  - now intros ->.
  - now intros -> ->.
  - intros ni -> ->. cbn [negb]. unfold expirationEpoch.
    destruct (Z.eqb_spec (uint64 (MsPerBlock ni)) 0) as [E|E]; cbn [bind].
    + split; [split; [intros _; now eexists | intros _; exact E]|].
      intros H. now elim H.
    + split; [split; [intros H; now elim E | intros [m Hm]; discriminate]|].
      intros _. eexists. eexists. split; [reflexivity|].
      split; [reflexivity|]. split; [reflexivity|].
      unfold uint64 at 1. apply Z.mod_pos_bound. reflexivity.
Qed.

(* ================================================================== *)
(** * Further properties of the bearer token *)

Lemma prefix_app_common (a p s : string) :
  String.prefix (a ++ p) (a ++ s) = String.prefix p s.
Proof.
  induction a as [|c a IH]; [reflexivity|]. cbn [append String.prefix].
  destruct (ascii_dec c c) as [_|n]; [exact IH | now elim n].
Qed.

Lemma HasPrefix_app (a b : string) : strings.HasPrefix (a ++ b) a = true.
Proof. unfold strings.HasPrefix. apply prefix_app. Qed.

(** [ReadBearer] takes the token from the [Authorization] header whenever
    that starts with [Bearer ], whatever the cookies hold.  The slice it
    leaves in [*dst] has the length that [DecodedLen] gives for the encoded
    text, not the number of bytes decoded: what [Decode] wrote is followed by
    zero bytes up to that length. *)
Theorem ReadBearer_header_first :
  forall (L : GoLib) (h : RequestHeader) (v : string),
    Peek h HeaderAuthorization = Some (bearerTokenHdr ++ " " ++ v) ->
    (String.length (fst (base64_Decode L v)) <= DecodedLen (String.length v))%nat ->
    exists dst,
      ReadBearer L h = (if snd (base64_Decode L v) then 1%Z else (-1)%Z, Some dst)
      /\ dst = fst (base64_Decode L v)
               ++ zeros (DecodedLen (String.length v)
                         - String.length (fst (base64_Decode L v)))
      /\ String.length dst = DecodedLen (String.length v).
Proof.
  intros L h v HP Hlen. unfold ReadBearer. rewrite HP.
  change (bearerTokenHdr ++ " " ++ v) with ((bearerTokenHdr ++ " ") ++ v).
  rewrite HasPrefix_app, TrimPrefix_app.
  destruct (base64_Decode L v) as [w ok]. cbn [fst snd] in *.
  eexists. split; [now destruct ok|]. split; [reflexivity|].
  rewrite length_app, zeros_length. lia.
Qed.

(** Without such a header [ReadBearer] takes the [Bearer] cookie, and
    without the cookie it reports 0 and leaves [*dst] nil. *)
Theorem ReadBearer_cookie_or_absent :
  forall (L : GoLib) (h : RequestHeader),
    (forall a, Peek h HeaderAuthorization = Some a ->
               strings.HasPrefix a (bearerTokenHdr ++ " ") = false) ->
    (Cookie h bearerTokenHdr = None -> ReadBearer L h = (0%Z, None))
    /\ (forall v, Cookie h bearerTokenHdr = Some v ->
                  fst (ReadBearer L h) = (if snd (base64_Decode L v) then 1%Z else (-1)%Z)
                  /\ fst (ReadBearer L h) <> 0%Z).
Proof.
  intros L h Hno. unfold ReadBearer.
  assert (E : match Peek h HeaderAuthorization with
              | Some hdrAuth =>
                  if strings.HasPrefix hdrAuth (bearerTokenHdr ++ " ")
                  then Some (strings.TrimPrefix hdrAuth (bearerTokenHdr ++ " "))
                  else Cookie h bearerTokenHdr
              | None => Cookie h bearerTokenHdr
              end = Cookie h bearerTokenHdr).
  { destruct (Peek h HeaderAuthorization) as [a|]; [|reflexivity].
    now rewrite (Hno a eq_refl). }
  rewrite E. split.
  - now intros ->.
  - intros v ->. destruct (base64_Decode L v) as [w ok]. cbn [fst snd].
    destruct ok; cbn; split; (reflexivity || discriminate).
Qed.

(** [BearerTokenFromHeader] by the shape of the [Authorization] value: no
    token without the header or without the word [Bearer] in front; the text
    behind [Bearer ], unless it is empty; and, when the word is not followed
    by a space, the whole value with the word in it. *)
Theorem BearerTokenFromHeader_shapes :
  forall (h : RequestHeader),
    (Peek h HeaderAuthorization = None -> BearerTokenFromHeader h = None)
    /\ (forall a, Peek h HeaderAuthorization = Some a ->
                  strings.HasPrefix a bearerTokenHdr = false ->
                  BearerTokenFromHeader h = None)
    /\ (forall t, Peek h HeaderAuthorization = Some (bearerTokenHdr ++ " " ++ t) ->
                  BearerTokenFromHeader h = (if (String.length t =? 0)%nat then None else Some t))
    /\ (forall t, Peek h HeaderAuthorization = Some (bearerTokenHdr ++ t) ->
                  strings.HasPrefix t " " = false ->
                  BearerTokenFromHeader h = Some (bearerTokenHdr ++ t)).
Proof.
  intros h. unfold BearerTokenFromHeader.
  split; [|split; [|split]].
  - now intros ->.
  - intros a -> Ha. now rewrite Ha.
  - intros t ->. rewrite HasPrefix_app. cbn [negb].
    change (bearerTokenHdr ++ " " ++ t) with ((bearerTokenHdr ++ " ") ++ t).
    now rewrite TrimPrefix_app.
  - intros t -> Ht. rewrite HasPrefix_app. cbn [negb].
    assert (E : strings.TrimPrefix (bearerTokenHdr ++ t) (bearerTokenHdr ++ " ")
                = bearerTokenHdr ++ t).
    { unfold strings.TrimPrefix, strings.HasPrefix in *.
      now rewrite prefix_app_common, Ht. }
    rewrite E. destruct t; reflexivity.
Qed.

(** [fetchBearerToken]: without a token in the header and in the cookie
    there is no token and no error; a well-formed token in the header is
    returned without a look at the cookie; and the cookie's well-formed
    token is returned, without an error, both when the header holds none and
    when the header's is malformed. *)
Theorem fetchBearerToken_order :
  forall (L : GoLib) (h : RequestHeader),
    (BearerTokenFromHeader h = None -> BearerTokenFromCookie h = None ->
     fetchBearerToken L (Some h) = (None, None))
    /\ (forall b tkn,
           BearerTokenFromHeader h = Some b ->
           snd (base64_Decode L b) = true ->
           bearer_Unmarshal L (fst (base64_Decode L b)) = Some tkn ->
           fetchBearerToken L (Some h) = (Some tkn, None))
    /\ (forall b tkn,
           (forall bh, BearerTokenFromHeader h = Some bh -> malformedBinary L bh) ->
           BearerTokenFromCookie h = Some b ->
           snd (base64_Decode L b) = true ->
           bearer_Unmarshal L (fst (base64_Decode L b)) = Some tkn ->
           fetchBearerToken L (Some h) = (Some tkn, None))
    /\ fetchBearerToken L None = (None, None).
Proof.
  intros L h. unfold fetchBearerToken. cbn [fetchBearerToken_loop].
  split; [|split; [|split]].
  - now intros -> ->.
  - intros b tkn -> Hd Hu.
    destruct (base64_Decode L b) as [data ok]. cbn [fst snd] in *.
    subst ok. cbn [negb]. now rewrite Hu.
  - intros b tkn Hh -> Hd Hu.
    assert (Good : (let (data, ok) := base64_Decode L b in
                    if negb ok then (@None string, Some "can't base64-decode bearer token")
                    else match bearer_Unmarshal L data with
                         | Some t => (Some t, None)
                         | None => (None, Some "can't unmarshal bearer token")
                         end) = (Some tkn, None)).
    { destruct (base64_Decode L b) as [data ok]. cbn [fst snd] in *.
      subst ok. cbn [negb]. now rewrite Hu. }
    destruct (BearerTokenFromHeader h) as [bh|]; [|exact Good].
    destruct (Hh bh eq_refl) as [Hb|Hb];
      destruct (base64_Decode L bh) as [dh okh]; cbn [fst snd] in Hb.
    + subst okh. cbn [negb]. exact Good.
    + destruct okh; cbn [negb]; [rewrite Hb|]; exact Good.
  - reflexivity.
Qed.

(** A token in the header and another in the cookie. *)
Lemma ReadBearer_header_first_witness :
  exists dst,
    ReadBearer Sample.lib Requests.both
    = (if snd (base64_Decode Sample.lib "CgA=") then 1%Z else (-1)%Z, Some dst)
    /\ dst = fst (base64_Decode Sample.lib "CgA=")
             ++ zeros (DecodedLen (String.length "CgA=")
                       - String.length (fst (base64_Decode Sample.lib "CgA=")))
    /\ String.length dst = DecodedLen (String.length "CgA=").
Proof.
  apply (ReadBearer_header_first Sample.lib Requests.both "CgA=").
  - reflexivity.
  - vm_compute. lia.
Defined.

(** A token in the cookie only. *)
Lemma ReadBearer_cookie_or_absent_witness :
  (Cookie Requests.cookieOnly bearerTokenHdr = None ->
   ReadBearer Sample.lib Requests.cookieOnly = (0%Z, None))
  /\ (forall v, Cookie Requests.cookieOnly bearerTokenHdr = Some v ->
                fst (ReadBearer Sample.lib Requests.cookieOnly)
                = (if snd (base64_Decode Sample.lib v) then 1%Z else (-1)%Z)
                /\ fst (ReadBearer Sample.lib Requests.cookieOnly) <> 0%Z).
Proof.
  apply (ReadBearer_cookie_or_absent Sample.lib Requests.cookieOnly).
  intros a H. vm_compute in H. discriminate H.
Defined.

(* ================================================================== *)
(** * Further properties of the readers *)

Lemma drop_zeros (k n : nat) : strings.drop k (zeros n) = zeros (n - k).
Proof.
  revert n; induction k as [|k IH]; intros n; cbn.
  - now rewrite Nat.sub_0_r.
  - destruct n as [|n]; [reflexivity | apply IH].
Qed.

(** One [Read] of an [errReader] that has bytes left. *)
Lemma errReader_Read_some (data : string) (e : ioerr) (off n : nat) :
  (off < String.length data)%nat ->
  errReader_Read (mkErrReader data e off) n
  = (take n (strings.drop off data),
     if (String.length data <=? off + String.length (take n (strings.drop off data)))%nat
     then e else NoErr,
     mkErrReader data e (off + String.length (take n (strings.drop off data)))).
Proof.
  intros H. unfold errReader_Read. cbn [er_data er_offset er_err].
  destruct (Nat.leb_spec (String.length data) off) as [H1|_]; [lia|].
  now destruct (String.length data <=? _)%nat.
Qed.

(** [errReader.Read] over a whole reading: the bytes from the offset on
    are delivered, and behind them the error given to [newReader], or [EOF]
    when that is nil; a reader with no byte left reports [EOF] at once,
    whatever error it holds. *)
Theorem errReader_delivers_data_then_error :
  forall (data : string) (e : ioerr) (off n fuel : nat),
    (0 < n)%nat ->
    (String.length data - off < fuel)%nat ->
    ReadAll fuel n (mkErrReader data e off)
    = Some (strings.drop off data,
            if (String.length data <=? off)%nat then EOF
            else match e with NoErr => EOF | _ => e end).
Proof.
  intros data e off n fuel Hn. revert off.
  induction fuel as [|fuel IH]; intros off Hf; [lia|].
  cbn [ReadAll]. unfold io_Read, errReader_Reader.
  destruct (Nat.leb_spec (String.length data) off) as [Hle|Hlt].
  - unfold errReader_Read. cbn [er_data er_offset].
    destruct (Nat.leb_spec (String.length data) off) as [_|H]; [|lia].
    now rewrite drop_all.
  - rewrite errReader_Read_some by exact Hlt.
    set (p := take n (strings.drop off data)).
    assert (Hp : (0 < String.length p)%nat)
      by (unfold p; rewrite take_length, drop_length; lia).
    assert (Hjoin : p ++ strings.drop (off + String.length p) data = strings.drop off data).
    { rewrite <- drop_drop. unfold p. rewrite drop_take_length. apply take_drop. }
    destruct (Nat.leb_spec (String.length data) (off + String.length p)) as [Hend|Hmore].
    + assert (Hd : strings.drop (off + String.length p) data = "") by now apply drop_all.
      rewrite Hd, append_nil_r in Hjoin.
      destruct e.
      * rewrite IH by lia.
        destruct (Nat.leb_spec (String.length data) (off + String.length p)) as [_|H]; [|lia].
        now rewrite Hd, append_nil_r, Hjoin.
      * now rewrite Hjoin.
      * now rewrite Hjoin.
    + rewrite IH by lia.
      destruct (Nat.leb_spec (String.length data) (off + String.length p)) as [H|_]; [lia|].
      now rewrite Hjoin.
Qed.

(** Reads of the chain of [MultiReader] while the [errReader] in front
    holds an error other than [EOF]. *)
Lemma ReadAll_multi_broken (fuel n : nat) (data m : string) (off : nat)
      (tail : list anyReader) :
  (0 < n)%nat -> (off < String.length data)%nat ->
  (String.length data - off <= fuel)%nat ->
  ReadAll (R := multiReader) fuel n (OfErrReader (mkErrReader data (Err m) off) :: tail)
  = Some (strings.drop off data, Err m).
Proof.
  intros Hn. revert off; induction fuel as [|fuel IH]; intros off Hlt Hf; [lia|].
  cbn [ReadAll]. unfold io_Read at 1. unfold multiReader_Reader.
  cbn [multiReader_Read]. unfold io_Read at 1.
  unfold anyReader_Reader, anyReader_Read. unfold io_Read at 1.
  unfold errReader_Reader. rewrite errReader_Read_some by exact Hlt.
  set (p := take n (strings.drop off data)).
  assert (Hp : (0 < String.length p)%nat)
    by (unfold p; rewrite take_length, drop_length; lia).
  assert (Hjoin : p ++ strings.drop (off + String.length p) data = strings.drop off data).
  { rewrite <- drop_drop. unfold p. rewrite drop_take_length. apply take_drop. }
  destruct (Nat.leb_spec (String.length data) (off + String.length p)) as [Hend|Hmore];
    cbn [is_EOF negb orb andb]; rewrite orb_true_r; cbn [is_EOF andb].
  - assert (Hd : strings.drop (off + String.length p) data = "") by now apply drop_all.
    rewrite Hd, append_nil_r in Hjoin. now rewrite Hjoin.
  - pose proof (IH (off + String.length p)%nat Hmore) as Hcont.
    unfold multiReader_Reader in Hcont. rewrite Hcont by lia. now rewrite Hjoin.
Qed.

(** When the first read of the payload fails with an error other than
    [EOF], [Detect] records the error and returns before the completion
    signal: nothing is classified, and the buffer keeps its 512 bytes, the
    bytes read followed by zeros.  The reader of [MultiReader] then delivers
    those 512 bytes and ends with the recorded error. *)
Theorem Detect_failure :
  forall (L : GoLib) (r r' : Stream) (p m : string) (n fuel : nat),
    io_Read r contentTypeDetectSize = (p, Err m, r') ->
    (0 < n)%nat -> (contentTypeDetectSize <= fuel)%nat ->
    exists d mr,
      Detect L (SetReader newDetector r) = Ok d
      /\ det_done d = false
      /\ det_err d = Err m
      /\ det_contentType d = ""
      /\ det_data d = p ++ zeros (contentTypeDetectSize - String.length p)
      /\ String.length (det_data d) = contentTypeDetectSize
      /\ MultiReader d = Ok mr
      /\ ReadAll (R := multiReader) fuel n mr = Some (det_data d, Err m).
Proof.
  intros L r r' p m n fuel HR Hn Hf.
  assert (Hlen : (String.length p <= contentTypeDetectSize)%nat).
  { unfold io_Read, Stream_Reader in HR.
    now destruct (Stream_Read_spec _ _ _ _ _ HR) as (_ & _ & H & _). }
  unfold Detect, SetReader, newDetector.
  cbn [det_Reader det_data det_err det_contentType det_done].
  rewrite zeros_length, HR, drop_zeros.
  assert (Hl : String.length (p ++ zeros (contentTypeDetectSize - String.length p))
               = contentTypeDetectSize)
    by (rewrite length_app, zeros_length; lia).
  eexists. eexists. split; [reflexivity|].
  cbn [det_done det_err det_contentType det_data MultiReader det_Reader].
  repeat split; try reflexivity; try exact Hl.
  unfold newReader. rewrite ReadAll_multi_broken.
  - reflexivity.
  - exact Hn.
  - rewrite Hl. unfold contentTypeDetectSize. lia.
  - rewrite Hl. lia.
Qed.

(** A payload whose first read brings two bytes and a broken connection. *)
Lemma Detect_failure_witness :
  exists d mr,
    Detect Sample.lib (SetReader newDetector Requests.brokenPayload) = Ok d
    /\ det_done d = false
    /\ det_err d = Err "connection reset"
    /\ det_contentType d = ""
    /\ det_data d = "ab" ++ zeros (contentTypeDetectSize - String.length "ab")
    /\ String.length (det_data d) = contentTypeDetectSize
    /\ MultiReader d = Ok mr
    /\ ReadAll (R := multiReader) 512 100 mr = Some (det_data d, Err "connection reset").
Proof.
  apply (Detect_failure Sample.lib Requests.brokenPayload
           (mkStream "" [] true (Some "connection reset")) "ab" "connection reset" 100 512).
  - reflexivity.
  - lia.
  - unfold contentTypeDetectSize. lia.
Defined.

(** A reader over five bytes with an error, read from the second byte. *)
Lemma errReader_delivers_data_then_error_witness :
  ReadAll 10 2 (mkErrReader "hello" (Err "boom") 1)
  = Some (strings.drop 1 "hello",
          if (String.length "hello" <=? 1)%nat then EOF
          else match Err "boom" with NoErr => EOF | e => e end).
Proof.
  apply (errReader_delivers_data_then_error "hello" (Err "boom") 1 2 10).
  - lia.
  - cbn. lia.
Defined.

(* ================================================================== *)
(** * Further properties of the downloader *)

Lemma isValidToken_app (a b : string) :
  isValidToken (a ++ b) = isValidToken a && isValidToken b.
Proof.
  induction a as [|c a IH]; [reflexivity|]. cbn [append isValidToken].
  destruct (validTokenRune c); [exact IH | reflexivity].
Qed.

Lemma validTokenRune_case (c : ascii) :
  validTokenRune c = true ->
  validTokenRune (strings.lower_rune c) = true
  /\ validTokenRune (strings.upper_rune c) = true
  /\ validValueRune c = true.
Proof.
  destruct c as [[] [] [] [] [] [] [] []]; vm_compute; intros H;
    try discriminate H; repeat split.
Qed.

Lemma isValidToken_ToLower (s : string) :
  isValidToken s = true -> isValidToken (strings.ToLower s) = true.
Proof.
  induction s as [|c s IH]; [reflexivity|]. cbn [isValidToken strings.ToLower strings.Map].
  destruct (validTokenRune c) eqn:Hc; [|discriminate].
  intros H. destruct (validTokenRune_case c Hc) as (-> & _ & _). now apply IH.
Qed.

Lemma isValidToken_Title_from (prev : ascii) (s : string) :
  isValidToken s = true -> isValidToken (strings.Title_from prev s) = true.
Proof.
  revert prev; induction s as [|c s IH]; intros prev; [reflexivity|].
  cbn [isValidToken strings.Title_from].
  destruct (validTokenRune c) eqn:Hc; [|discriminate].
  intros H. destruct (validTokenRune_case c Hc) as (_ & Hu & _).
  destruct (strings.isSeparator prev); [rewrite Hu | rewrite Hc]; now apply IH.
Qed.

Lemma isValidToken_drop (n : nat) (s : string) :
  isValidToken s = true -> isValidToken (strings.drop n s) = true.
Proof.
  revert s; induction n as [|n IH]; intros s; [trivial|].
  destruct s as [|c s]; [trivial|]. cbn [isValidToken strings.drop].
  destruct (validTokenRune c); [apply IH | discriminate].
Qed.

Lemma isValidToken_Split (s : string) (sep : ascii) :
  isValidToken s = true ->
  Forall (fun w => isValidToken w = true) (strings.Split s sep).
Proof.
  induction s as [|c s IH]; cbn [isValidToken strings.Split].
  - intros _. now constructor.
  - destruct (validTokenRune c) eqn:Hc; [|discriminate].
    intros H. specialize (IH H).
    destruct (c =? sep)%char; [now constructor|].
    destruct (strings.Split s sep) as [|w ws]; constructor.
    + cbn. now rewrite Hc.
    + constructor.
    + cbn. rewrite Hc. now inversion IH.
    + now inversion IH.
Qed.

Lemma isValidToken_writeParts (ws : list string) :
  Forall (fun w => isValidToken w = true) ws -> isValidToken (writeParts ws) = true.
Proof.
  induction ws as [|w ws IH]; [reflexivity|].
  intros H. inversion H as [|? ? Hw Hws]; subst.
  assert (Ht : isValidToken (strings.Title (strings.ToLower w)) = true)
    by (apply isValidToken_Title_from, isValidToken_ToLower, Hw).
  destruct ws as [|w' ws]; [exact Ht|].
  change (writeParts (w :: w' :: ws))
    with (strings.Title (strings.ToLower w) ++ "-" ++ writeParts (w' :: ws)).
  rewrite !isValidToken_app, Ht, (IH Hws). reflexivity.
Qed.

Lemma translated_key_valid (key : string) :
  isValidToken key = true -> isValidToken (systemBackwardTranslator key) = true.
Proof.
  intros H. unfold systemBackwardTranslator. rewrite isValidToken_app.
  change (isValidToken "Neofs-") with true. cbn [andb].
  apply isValidToken_writeParts, isValidToken_Split.
  unfold strings.TrimPrefix. destruct (strings.HasPrefix key SystemAttributePrefix).
  - now apply isValidToken_drop.
  - exact H.
Qed.

(** The tests of header safety and the translation of system keys fit
    together: a key that [isValidToken] accepts is also accepted as a value,
    and what [systemBackwardTranslator] makes of it is accepted as a key
    again. *)
Theorem valid_token_stays_valid :
  forall (key : string),
    isValidToken key = true ->
    isValidValue key = true
    /\ isValidToken (systemBackwardTranslator key) = true.
Proof.
  intros key H. split.
  - induction key as [|c s IH]; [reflexivity|]. cbn [isValidToken isValidValue] in *.
    destruct (validTokenRune c) eqn:Hc; [|discriminate].
    destruct (validTokenRune_case c Hc) as (_ & _ & ->). now apply IH.
  - now apply translated_key_valid.
Qed.

(** The key [__NEOFS__EXPIRATION_EPOCH]. *)
Lemma valid_token_stays_valid_witness :
  isValidValue SysAttributeExpEpoch = true
  /\ isValidToken (systemBackwardTranslator SysAttributeExpEpoch) = true.
Proof.
  apply (valid_token_stays_valid SysAttributeExpEpoch). reflexivity.
Defined.

Section ReceiveFileProperties.

Context (L : GoLib) (U : Utils).

Lemma attributeHeaders_safe (a : Attribute) (k v : string) :
  In (RHeaderSet k v) (attributeHeaders L U a) ->
  k = "Last-Modified"
  \/ (v = snd a /\ isValidValue v = true
      /\ exists key, k = UserAttributeHeaderPrefix U ++ key /\ isValidToken key = true).
Proof.
  destruct a as [key val]. unfold attributeHeaders.
  destruct (isValidToken key) eqn:Hk; cbn [negb orb]; [|intros []].
  destruct (isValidValue val) eqn:Hv; cbn [negb]; [|intros []].
  set (key' := if strings.HasPrefix key SystemAttributePrefix
               then systemBackwardTranslator key else key).
  assert (Hk' : isValidToken key' = true).
  { unfold key'. destruct (strings.HasPrefix key SystemAttributePrefix); [|exact Hk].
    now apply translated_key_valid. }
  intros [E|Hin].
  - inversion E; subst. right. split; [reflexivity|]. split; [exact Hv|]. now exists key'.
  - destruct (key' =? AttributeFileName); [destruct Hin|].
    destruct (key' =? AttributeTimestamp); [|destruct Hin].
    destruct (strconv_ParseInt L val); [|destruct Hin].
    destruct Hin as [E|[]]. inversion E. now left.
Qed.

End ReceiveFileProperties.

(** What the two tests let through, byte by byte: [isValidValue] the
    bytes from the space to 127 but the double quote, [isValidToken] those
    from 33 to 127 that are no separator. *)
Lemma validValueRune_range (c : ascii) :
  validValueRune c = true ->
  (32 <= nat_of_ascii c <= 127)%nat /\ c <> "034"%char.
Proof.
  destruct c as [[] [] [] [] [] [] [] []]; intros H;
    try (vm_compute in H; discriminate H);
    (split; [vm_compute; lia | intros E; discriminate E]).
Qed.

Lemma validTokenRune_range (c : ascii) :
  validTokenRune c = true ->
  (33 <= nat_of_ascii c <= 127)%nat /\ ~ In c (bytesOf tokenSeparators).
Proof.
  destruct c as [[] [] [] [] [] [] [] []]; intros H;
    try (vm_compute in H; discriminate H);
    (split; [vm_compute; lia
            | vm_compute; intros E;
              repeat (destruct E as [E|E]; [discriminate E|]); exact E]).
Qed.

Lemma isValidValue_bytes (s : string) (c : ascii) :
  isValidValue s = true -> In c (bytesOf s) -> validValueRune c = true.
Proof.
  induction s as [|a s IH]; cbn [isValidValue bytesOf list_ascii_of_string]; [intros _ []|].
  destruct (validValueRune a) eqn:Ea; [|discriminate].
  intros H [<-|Hin]; [exact Ea | now apply IH].
Qed.

Lemma isValidToken_bytes (s : string) (c : ascii) :
  isValidToken s = true -> In c (bytesOf s) -> validTokenRune c = true.
Proof.
  induction s as [|a s IH]; cbn [isValidToken bytesOf list_ascii_of_string]; [intros _ []|].
  destruct (validTokenRune a) eqn:Ea; [|discriminate].
  intros H [<-|Hin]; [exact Ea | now apply IH].
Qed.

Section ReceiveFileSafety.

Context (L : GoLib) (U : Utils).

(** No attribute reaches the response as a header unless its key and its
    value pass the tests of header safety: every header that [receiveFile]
    sets is one of its fixed headers, or carries the user prefix in front of
    a key that [isValidToken] accepts and a value that [isValidValue]
    accepts.  So the value of such a header holds no byte below the space,
    a line feed or a carriage return least of all, no byte above 127 and no
    double quote, and its key behind the prefix holds no byte up to the
    space, none above 127 and no separator, the colon among them.  The byte
    127 passes both tests. *)
Theorem receiveFile_headers_are_safe :
  forall (h : RequestHeader) (got : error + FetchedObject) (k v : string),
    In (RHeaderSet k v) (receiveFile L U h got) ->
    fixedHeader k = true
    \/ (isValidValue v = true
        /\ (forall c, In c (bytesOf v) ->
                      (32 <= nat_of_ascii c <= 127)%nat
                      /\ c <> "034"%char /\ c <> "010"%char /\ c <> "013"%char)
        /\ exists key,
            k = UserAttributeHeaderPrefix U ++ key
            /\ isValidToken key = true
            /\ (forall c, In c (bytesOf key) ->
                          (33 <= nat_of_ascii c <= 127)%nat
                          /\ ~ In c (bytesOf tokenSeparators) /\ c <> ":"%char)).
Proof.
  intros h got k v. unfold receiveFile.
  destruct (fst (StoreBearerToken L h)).
  { intros [E|[]]. discriminate E. }
  destruct got as [e|obj].
  { unfold handleNeoFSErr. destruct (_ || _); intros [E|[]]; discriminate E. }
  intros Hin. apply in_app_or in Hin as [Hin|Hin].
  { destruct Hin as [E|[E|[]]]; [discriminate E|]. inversion E. now left. }
  apply in_app_or in Hin as [Hin|Hin].
  - apply in_flat_map in Hin as (a & _ & Ha).
    destruct (attributeHeaders_safe L U a k v Ha) as [->|(_ & Hv & key & -> & Hk)];
      [now left|].
    right. split; [exact Hv|]. split.
    + intros c Hc.
      destruct (validValueRune_range c (isValidValue_bytes v c Hv Hc)) as [Hr Hq].
      split; [exact Hr|]. split; [exact Hq|].
      split; intros ->; vm_compute in Hr; lia.
    + exists key. split; [reflexivity|]. split; [exact Hk|].
      intros c Hc.
      destruct (validTokenRune_range c (isValidToken_bytes key c Hk Hc)) as [Hr Hs].
      split; [exact Hr|]. split; [exact Hs|].
      intros ->. apply Hs. vm_compute. tauto.
  - destruct Hin as [E|[E|[E|[]]]]; inversion E; now left.
Qed.

(** An attribute whose key or value fails the tests is dropped without a
    trace: the response is the one of the object without it. *)
Theorem receiveFile_drops_unsafe_attribute :
  forall (h : RequestHeader) (obj : FetchedObject) (a : Attribute)
         (before after : list Attribute),
    isValidToken (fst a) = false \/ isValidValue (snd a) = false ->
    receiveFile L U h
      (inr (mkFetched (fo_ID obj) (fo_OwnerID obj) (fo_ContainerID obj) (fo_PayloadSize obj)
                      (before ++ a :: after)))
    = receiveFile L U h
        (inr (mkFetched (fo_ID obj) (fo_OwnerID obj) (fo_ContainerID obj) (fo_PayloadSize obj)
                        (before ++ after))).
Proof.
  intros h obj [key val] before after Hbad. unfold receiveFile.
  destruct (fst (StoreBearerToken L h)); [reflexivity|].
  cbn [fo_PayloadSize fo_Attributes fo_ID fo_OwnerID fo_ContainerID].
  rewrite !flat_map_app. cbn [flat_map].
  assert (E : attributeHeaders L U (key, val) = []).
  { unfold attributeHeaders. cbn [fst snd] in Hbad.
    destruct Hbad as [-> | ->]; [reflexivity|].
    now rewrite orb_true_r. }
  now rewrite E.
Qed.

End ReceiveFileSafety.

(** The header of the color attribute of the sample object. *)
Lemma receiveFile_headers_are_safe_witness :
  fixedHeader "X-Attribute-Color" = true
  \/ (isValidValue "red" = true
      /\ (forall c, In c (bytesOf "red") ->
                    (32 <= nat_of_ascii c <= 127)%nat
                    /\ c <> "034"%char /\ c <> "010"%char /\ c <> "013"%char)
      /\ exists key,
          "X-Attribute-Color" = UserAttributeHeaderPrefix Sample.utils ++ key
          /\ isValidToken key = true
          /\ (forall c, In c (bytesOf key) ->
                        (33 <= nat_of_ascii c <= 127)%nat
                        /\ ~ In c (bytesOf tokenSeparators) /\ c <> ":"%char)).
Proof.
  apply (receiveFile_headers_are_safe Sample.lib Sample.utils Fetched.noHeaders
           (inr Fetched.object) "X-Attribute-Color" "red").
  vm_compute. right. right. left. reflexivity.
Defined.

(** The sample object with and without the attribute that holds a line
    break. *)
Lemma receiveFile_drops_unsafe_attribute_witness :
  receiveFile Sample.lib Sample.utils Fetched.noHeaders
    (inr (mkFetched (fo_ID Fetched.object) (fo_OwnerID Fetched.object)
                    (fo_ContainerID Fetched.object) (fo_PayloadSize Fetched.object)
                    ([("Color", "red")] ++ Fetched.injected
                     :: [("__NEOFS__EXPIRATION_EPOCH", "42")])))
  = receiveFile Sample.lib Sample.utils Fetched.noHeaders
      (inr (mkFetched (fo_ID Fetched.object) (fo_OwnerID Fetched.object)
                      (fo_ContainerID Fetched.object) (fo_PayloadSize Fetched.object)
                      ([("Color", "red")] ++ [("__NEOFS__EXPIRATION_EPOCH", "42")]))).
Proof.
  apply (receiveFile_drops_unsafe_attribute Sample.lib Sample.utils Fetched.noHeaders
           Fetched.object Fetched.injected [("Color", "red")]
           [("__NEOFS__EXPIRATION_EPOCH", "42")]).
  right. reflexivity.
Defined.

(* ------------------------------------------------------------------ *)
(** ** [handleNeoFSErr] *)

Lemma Contains_unfold (s sub : string) :
  Contains s sub
  = String.prefix sub s
    || match s with
       | EmptyString => false
       | String _ s' => Contains s' sub
       end.
Proof. now destruct s. Qed.

Lemma Contains_prefix (sub b : string) : Contains (sub ++ b) sub = true.
Proof. rewrite Contains_unfold, prefix_app. reflexivity. Qed.

Lemma Contains_app (a sub b : string) : Contains (a ++ sub ++ b) sub = true.
Proof.
  induction a as [|c a IH]; [cbn [append]; apply Contains_prefix|].
  cbn [append Contains]. rewrite IH. apply orb_true_r.
Qed.

Lemma cause_wrapped (texts : list string) (e : error) :
  cause (wrapped texts e) = cause e.
Proof.
  induction texts as [|t texts IH]; [reflexivity | exact IH].
Qed.

(** [handleNeoFSErr] decides by the innermost error alone: wrapping an
    error in further errors, whatever their texts, does not change the
    status; an innermost error whose text holds [not found] is answered 404
    with the fixed text [object not found], so nothing of the error is
    shown; and the status is never another than 404 or 400. *)
Theorem handleNeoFSErr_by_cause :
  forall (texts : list string) (e : error),
    errorCode (handleNeoFSErr (wrapped texts e)) = errorCode (handleNeoFSErr e)
    /\ (forall a b,
           handleNeoFSErr (wrapped texts (errorNew (a ++ "not found" ++ b)))
           = RError "object not found" StatusNotFound)
    /\ handleNeoFSErr (wrapped texts errObjectNotFound)
       = RError "object not found" StatusNotFound
    /\ (errorCode (handleNeoFSErr e) = StatusNotFound
        \/ errorCode (handleNeoFSErr e) = StatusBadRequest).
Proof.
  intros texts e. unfold handleNeoFSErr.
  split; [|split; [|split]].
  - rewrite cause_wrapped. now destruct (_ || _).
  - intros a b. rewrite cause_wrapped. cbn [cause Error].
    now rewrite Contains_app.
  - rewrite cause_wrapped. reflexivity.
  - destruct (_ || _); [now left | now right].
Qed.

(* ------------------------------------------------------------------ *)
(** ** [ResRead] as [Downloader.read] uses it *)

(** Inside [read] a reader learns nothing from the [Waiting...] methods:
    the [ResRead] it is given has the zero selector and no head flag, no
    method changes either, and so every question whether headers, payload,
    file name or owner are awaited is answered true, for a HEAD as for a GET
    and for every selector. *)
Theorem read_answers_are_all_true :
  forall (L : GoLib) (U : Utils) (p : ReadProg L) (x : ResRead),
    rr_selector x = 0%nat -> rr_head x = false ->
    runProg U p x = runProg U (answeredTrue p) x.
Proof.
  intros L U p.
  induction p as
    [ | k IH | k IH | k IH | k IH | hdr k IH | dst k IH | t k IH | k IH | ct k IH
      | sz k IH | k IH | n k IH | k IH | id k IH ]; intros x Hs Hh;
    cbn [runProg answeredTrue]; try reflexivity;
    try (apply IH; assumption);
    try (unfold WaitingHeaders, WaitingOwner, WaitingPayload, WaitingFilename;
         rewrite ?Hs, ?Hh; cbn [Nat.eqb byFile negb]; apply IH; assumption).
  unfold WriteFilename. destruct (rr_download x); apply IH; assumption.
Qed.

(** The reader that asks whether the owner is awaited, on the [ResRead]
    that [read] builds. *)
Lemma read_answers_are_all_true_witness :
  runProg Sample.utils (ReadNext Cases.ownerReader byFile true 0)
          (mkResRead false 0 0 false [])
  = runProg Sample.utils (answeredTrue (ReadNext Cases.ownerReader byFile true 0))
            (mkResRead false 0 0 false []).
Proof.
  apply (read_answers_are_all_true Sample.lib Sample.utils
           (ReadNext Cases.ownerReader byFile true 0) (mkResRead false 0 0 false [])).
  - reflexivity.
  - reflexivity.
Defined.

Lemma fwd_letter (c : ascii) :
  strings.is_upper c || strings.is_lower c = true ->
  fwd c = strings.upper_rune c /\ (strings.upper_rune c =? "-")%char = false.
Proof.
  destruct c as [[] [] [] [] [] [] [] []]; vm_compute; intros H;
    try discriminate H; now split.
Qed.

Lemma ToUpper_letters (s : string) :
  all_lower s = true ->
  strings.Map fwd s = strings.ToUpper s
  /\ strings.ContainsRune (strings.ToUpper s) "-" = false.
Proof.
  induction s as [|c s IH]; [now split|].
  cbn [all_lower strings.Map strings.ToUpper strings.ContainsRune].
  intros H. apply andb_true_iff in H as [Hc Hs].
  destruct (fwd_letter c) as [E1 E2]; [now rewrite Hc, orb_true_r|].
  destruct (IH Hs) as [I1 I2]. unfold strings.ToUpper in *.
  rewrite E1, I1, E2, I2. now split.
Qed.

Lemma ToUpper_TitleWord (w : string) :
  TitleWord w = true ->
  strings.Map fwd w = strings.ToUpper w
  /\ strings.ContainsRune (strings.ToUpper w) "-" = false.
Proof.
  destruct w as [|c s]; [discriminate|].
  cbn [TitleWord strings.Map strings.ToUpper strings.ContainsRune].
  intros H. apply andb_true_iff in H as [Hc Hs].
  destruct (fwd_letter c) as [E1 E2]; [now rewrite Hc|].
  destruct (ToUpper_letters s Hs) as [I1 I2]. unfold strings.ToUpper in *.
  rewrite E1, I1, E2, I2. now split.
Qed.

Lemma Join_title_back (l : list string) :
  forallb TitleWord l = true ->
  strings.Join (map (fun s => strings.Title (strings.ToLower (strings.ToUpper s))) l) "-"
  = strings.Join l "-".
Proof.
  induction l as [|u l IH]; [reflexivity|].
  cbn [forallb map]. intros H. apply andb_true_iff in H as [Hu Hl].
  destruct (ToUpper_TitleWord u Hu) as [E _].
  destruct (title_word_back u Hu) as [T _]. rewrite E in T.
  destruct l as [|u' l]; [exact T|].
  change (strings.Join
            (strings.Title (strings.ToLower (strings.ToUpper u))
             :: map (fun s => strings.Title (strings.ToLower (strings.ToUpper s))) (u' :: l))
            "-")
    with (strings.Title (strings.ToLower (strings.ToUpper u)) ++ "-"
          ++ strings.Join
               (map (fun s => strings.Title (strings.ToLower (strings.ToUpper s))) (u' :: l))
               "-").
  rewrite T, (IH Hl). reflexivity.
Qed.

Lemma systemKey_parts (ws : list string) :
  forallb TitleWord ws = true ->
  strings.Join
    (map (fun s => strings.Title (strings.ToLower s))
         (strings.Split (systemKey ws) "-")) "-"
  = strings.Join ws "-".
Proof.
  intros H. unfold systemKey.
  destruct ws as [|w ws]; [reflexivity|].
  change (map strings.ToUpper (w :: ws)) with (strings.ToUpper w :: map strings.ToUpper ws).
  rewrite Split_Join.
  - change (strings.ToUpper w :: map strings.ToUpper ws)
      with (map strings.ToUpper (w :: ws)).
    rewrite map_map. now apply Join_title_back.
  - change (strings.ToUpper w :: map strings.ToUpper ws)
      with (map strings.ToUpper (w :: ws)).
    apply Forall_forall. intros u Hu. apply in_map_iff in Hu as (y & <- & Hy).
    apply ToUpper_TitleWord. rewrite forallb_forall in H. now apply H.
Qed.

(** [ResRead.WriteHeader] spells a system header as
    [systemBackwardTranslator] does: for a key of upper-case words between
    hyphens the header set is the user prefix, [Neofs-] and the words in
    title case between hyphens; the key of another header is set as it
    is. *)
Theorem ResRead_WriteHeader_spelling :
  forall (U : Utils) (x : ResRead) (ws : list string) (v : string),
    forallb TitleWord ws = true ->
    ResRead_WriteHeader U x (mkDHeader true (systemKey ws) v)
    = rr_emit x (RHeaderSet (UserAttributeHeaderPrefix U ++ httpKey ws) v)
    /\ forall key, ResRead_WriteHeader U x (mkDHeader false key v)
                   = rr_emit x (RHeaderSet (UserAttributeHeaderPrefix U ++ key) v).
Proof.
  intros U x ws v H. split; [|reflexivity].
  unfold ResRead_WriteHeader, httpKey. cbn [System DKey DValue].
  now rewrite systemKey_parts.
Qed.

(** The system header [EXPIRATION-EPOCH]. *)
Lemma ResRead_WriteHeader_spelling_witness :
  ResRead_WriteHeader Sample.utils (mkResRead false 0 0 false [])
                      (mkDHeader true (systemKey ["Expiration"; "Epoch"]) "42")
  = rr_emit (mkResRead false 0 0 false [])
            (RHeaderSet (UserAttributeHeaderPrefix Sample.utils
                         ++ httpKey ["Expiration"; "Epoch"]) "42")
  /\ forall key, ResRead_WriteHeader Sample.utils (mkResRead false 0 0 false [])
                                     (mkDHeader false key "42")
                 = rr_emit (mkResRead false 0 0 false [])
                           (RHeaderSet (UserAttributeHeaderPrefix Sample.utils ++ key) "42").
Proof.
  apply (ResRead_WriteHeader_spelling Sample.utils (mkResRead false 0 0 false [])
           ["Expiration"; "Epoch"] "42").
  reflexivity.
Defined.

(** The head flag of [read] reaches nothing but the reader: it is not
    stored in the [ResRead], so with a reader that does the same on each call
    whether [Head] was called or not, the HEAD handlers answer exactly as the
    GET handlers do, payload included. *)
Theorem head_handlers_answer_as_get :
  forall (L : GoLib) (U : Utils) (rObj : ObjectReader L) (fuel : nat) (c : DRequest),
    (forall sel i, ReadNext rObj sel true i = ReadNext rObj sel false i) ->
    HeadByAddress U rObj fuel c = DownloadByAddress U rObj fuel c
    /\ HeadByAttribute U rObj fuel c = DownloadByAttribute U rObj fuel c.
Proof.
  intros L U rObj fuel c Hsame.
  assert (Loop : forall f sel i x,
             readLoop U rObj f sel true i x = readLoop U rObj f sel false i x).
  { induction f as [|f IH]; intros sel i x; [reflexivity|].
    cbn [readLoop]. rewrite Hsame.
    destruct (rr_status (runProg U (ReadNext rObj sel false i) x)) as [|[|[|[|n]]]];
      try reflexivity; apply IH. }
  unfold HeadByAddress, DownloadByAddress, HeadByAttribute, DownloadByAttribute, read.
  split.
  - destruct (FromContainer rObj (d_cid c)); [reflexivity|].
    destruct (ReadBearer L (d_header c)) as [code enc].
    destruct (code =? -1)%Z; [reflexivity|].
    destruct ((code =? 1)%Z && _); [reflexivity|].
    cbn [byID]. destruct (ByID rObj (d_oid c)); [reflexivity|].
    now rewrite Loop.
  - destruct (FromContainer rObj (d_cid c)); [reflexivity|].
    destruct (ReadBearer L (d_header c)) as [code enc].
    destruct (code =? -1)%Z; [reflexivity|].
    destruct ((code =? 1)%Z && _); [reflexivity|].
    cbn [byAttr].
    destruct (ByAttribute rObj _ _ =? -1)%Z; [reflexivity|].
    destruct (ByAttribute rObj _ _ =? 0)%Z; [reflexivity|].
    now rewrite Loop.
Qed.

(** The reader that writes the owner when it is awaited. *)
Lemma head_handlers_answer_as_get_witness :
  HeadByAddress Sample.utils Cases.ownerReader 1 Cases.byPrefixRequest
  = DownloadByAddress Sample.utils Cases.ownerReader 1 Cases.byPrefixRequest
  /\ HeadByAttribute Sample.utils Cases.ownerReader 1 Cases.byPrefixRequest
     = DownloadByAttribute Sample.utils Cases.ownerReader 1 Cases.byPrefixRequest.
Proof.
  apply (head_handlers_answer_as_get Sample.lib Sample.utils Cases.ownerReader 1
           Cases.byPrefixRequest).
  intros sel i. reflexivity.
Defined.

(* ------------------------------------------------------------------ *)
(** ** The theorems with several cases, each case on a value *)

(** [ExpireAfter] with the sample network, an hour ahead: the expiration
    epoch is attached. *)
Lemma ExpireAfter_outcomes_witness :
  exists e x',
    ExpireAfter Sample.world Cases.emptyCreator Sample.hour = Ok (false, x')
    /\ attrs x' = (attrs Cases.emptyCreator ++ [(SysAttributeExpEpoch, FormatUint e)])%list
    /\ net_log x' = (net_log Cases.emptyCreator ++ [EvNetworkInfo])%list
    /\ (0 <= e < 2 ^ 64)%Z.
Proof.
  apply (proj2 (proj2 (proj2 (ExpireAfter_outcomes Sample.lib Sample.world
                                Cases.emptyCreator Sample.hour))
                 Sample.netInfo eq_refl eq_refl)).
  vm_compute. discriminate.
Defined.

(** The header with the space behind the word, and the one without. *)
Lemma BearerTokenFromHeader_shapes_witness :
  BearerTokenFromHeader Requests.both = Some "CgA="
  /\ BearerTokenFromHeader Requests.glued = Some "BearerCgA=".
Proof.
  split.
  - apply (proj1 (proj2 (proj2 (BearerTokenFromHeader_shapes Requests.both))) "CgA=").
    reflexivity.
  - apply (proj2 (proj2 (proj2 (BearerTokenFromHeader_shapes Requests.glued))) "CgA=");
      reflexivity.
Defined.

(** A token in the header wins over the cookie; a malformed value in the
    header gives way to the cookie's token. *)
Lemma fetchBearerToken_order_witness :
  fetchBearerToken Sample.lib (Some Requests.both) = (Some "", None)
  /\ fetchBearerToken Sample.lib (Some Cases.badHeaderGoodCookie) = (Some "", None).
Proof.
  split.
  - apply (proj1 (proj2 (fetchBearerToken_order Sample.lib Requests.both)) "CgA=" "");
      reflexivity.
  - apply (proj1 (proj2 (proj2 (fetchBearerToken_order Sample.lib
                                  Cases.badHeaderGoodCookie))) "CgA=" "");
      try reflexivity.
    intros bh E. vm_compute in E. inversion E. left. reflexivity.
Defined.
